(** * LekkerChat: replaying a chat log against a seekable video

    A shallow embedding of the replay engine of [src/content.js]: the offset
    heuristic ([calculateSmartDefaultOffset], [getTimeOffset]), the three
    reveal strategies ([showPreviousMessages], [showMissedMessages],
    [showCurrentSecondMessages]), the sink ([showMessage]), the sampling
    callback installed by [onVideoReady], the offset-change handler
    ([handleMessage] / [refreshChatWithNewOffset]) and [cleanup].

    Conventions of the embedding:
    - a JS number is an IEEE 754 binary64 value, a [spec_float] of the
      Standard Library; [+] and [-] are [SFadd] and [SFsub] at precision 53,
      so a sum or a difference is rounded as the engine rounds it;
    - the position of the video and the clock are the exact values of the
      numbers read, and a second is an integer: [Math.floor] is exact, and
      so is the arithmetic of the engine on seconds; the delay of a timer
      is the exact quotient [idx * 1000 / count], of which the engine hands
      the nearest number to [setTimeout];
    - a plain object used as a table is the finite map of its own
      properties; a lookup also sees the properties of [Object.prototype];
    - module-level [let] variables are the fields of [State];
    - a function that mutates the globals maps a [State] to a [State] and
      also returns the ordered list of its observable effects;
    - an exception is an [outcome]; the state changes made before the
      [throw] are kept, as in JS;
    - [setTimeout] callbacks are entries of a timer queue held in the state,
      due at the clock of their creation plus the delay handed to
      [setTimeout]; the passing of time is the explicit event [Advance];
    - the log is an array of comment objects (no [null] entry), so the
      [comment &&] guards of the source always pass. *)

From Stdlib Require Import ZArith QArith Qround List Bool Lia Lqa.
From Stdlib Require Import SpecFloat.
From stdpp Require Import base decidable option strings gmap sets.
Import ListNotations.

Local Open Scope Z_scope.

(** ** Configuration constants *)

Module CONSTANTS.

Definition UPDATE_INTERVAL : Q := inject_Z 100.

Definition SKIP_THRESHOLD : Z := 15.

Definition PREVIOUS_MESSAGES_COUNT : nat := 25.

End CONSTANTS.

(** ** JS numbers *)

Definition double : Type := spec_float.

Definition prec : Z := 53.

Definition emax : Z := 1024.

Definition NaN : double := S754_nan.

(** [a + b] and [a - b] on numbers. *)
Definition js_add (a b : double) : double := SFadd prec emax a b.

Definition js_sub (a b : double) : double := SFsub prec emax a b.

(** The number an integer literal denotes. *)
Definition of_Z (z : Z) : double := binary_normalize prec emax z 0 false.

(** The number the decimal literal [n / d] denotes, for [d] a power of ten:
    the double nearest to the quotient. *)
Definition decimal (n : Z) (d : positive) : double :=
  SFdiv prec emax (of_Z n) (of_Z (Zpos d)).

(** The exact value of a finite number; [None] for [NaN] and the infinities. *)
Definition F2Q (s : bool) (m : positive) (e : Z) : Q :=
  (inject_Z (cond_Zopp s (Zpos m)) * Qpower 2 e)%Q.

Definition value (x : double) : option Q :=
  match x with
  | S754_zero _ => Some 0%Q
  | S754_finite s m e => Some (F2Q s m e)
  | S754_infinity _ | S754_nan => None
  end.

(** [Math.floor(x)] as an integer; [None] when [x] is [NaN] or infinite,
    which [Math.floor] returns as they are. *)
Definition Math_floor (x : double) : option Z := Qfloor <$> value x.

Definition Qlt_bool (a b : Q) : bool := negb (Qle_bool b a).

(** Truthiness of a number: [NaN], [0] and [-0] are falsy. *)
Definition truthy (n : double) : bool :=
  match n with
  | S754_nan | S754_zero _ => false
  | S754_infinity _ | S754_finite _ _ _ => true
  end.

(** [n > 0]. *)
Definition positive_num (n : double) : bool :=
  match n with
  | S754_infinity false | S754_finite false _ _ => true
  | _ => false
  end.

(** [x === y] on numbers: [NaN] equals nothing, [0] equals [-0]. *)
Definition num_eq (x y : double) : bool :=
  match x, y with
  | S754_infinity s, S754_infinity s' => Bool.eqb s s'
  | _, _ =>
      match value x, value y with
      | Some p, Some q => Qeq_bool p q
      | _, _ => false
      end
  end.

(** [x <= y] on numbers. *)
Definition num_le (x y : double) : bool :=
  match x, y with
  | S754_nan, _ | _, S754_nan => false
  | S754_infinity true, _ | _, S754_infinity false => true
  | S754_infinity false, _ | _, S754_infinity true => false
  | _, _ =>
      match value x, value y with
      | Some p, Some q => Qle_bool p q
      | _, _ => false
      end
  end.

(** ** JS values *)

(** The values [config.timeOffset] can hold: the key may be missing, hold
    [null] or a number, or hold [Object.prototype[key]], a function (the
    prototype itself for ["__proto__"]), see [loadAndApplyOffsetData]. *)
Inductive jsval : Type :=
| Undefined
| Null
| Number (d : double)
| Builtin (key : string).

(** [a !== b] on these values. *)
Definition strict_neq (a b : jsval) : bool :=
  match a, b with
  | Undefined, Undefined => false
  | Null, Null => false
  | Number x, Number y => negb (num_eq x y)
  | Builtin k, Builtin k' => negb (String.eqb k k')
  | _, _ => true
  end.

(** [timestamp + offset] for a timestamp that is a number: [undefined] is
    converted to [NaN] and [null] to [0]; with a function the sum is a
    string that is no numeral, which [===] and [<] compare with a number
    as they compare [NaN]. *)
Definition js_plus (timestamp : double) (offset : jsval) : double :=
  match offset with
  | Undefined => NaN
  | Null => js_add timestamp (S754_zero false)
  | Number d => js_add timestamp d
  | Builtin _ => NaN
  end.

(** ** Plain objects *)

(** The string-keyed properties of [Object.prototype], which every plain
    object (an object literal, a parsed JSON object, a spread copy)
    inherits. *)
Definition objectPrototype : list string :=
  ["constructor"; "__proto__"; "hasOwnProperty"; "isPrototypeOf";
   "propertyIsEnumerable"; "toLocaleString"; "toString"; "valueOf";
   "__defineGetter__"; "__defineSetter__"; "__lookupGetter__";
   "__lookupSetter__"]%string.

(** The result of [object[key]]: an own property, an inherited one (a
    function or an object, never a value of the table), or [undefined]. *)
Inductive Property (V : Type) : Type :=
| Own (v : V)
| Inherited
| Missing.

Arguments Own {V} v.
Arguments Inherited {V}.
Arguments Missing {V}.

(** [object[key]] *)
Definition js_get {V : Type} (object : gmap string V) (key : string) : Property V :=
  match object !! key with
  | Some v => Own v
  | None => if bool_decide (key ∈ objectPrototype) then Inherited else Missing
  end.

(** [object[key] = v] for a string [v]: an assignment to ["__proto__"]
    that finds no own property runs the setter of [Object.prototype],
    which ignores a value that is not an object. *)
Definition js_set {V : Type} (key : string) (v : V) (object : gmap string V) : gmap string V :=
  if bool_decide (key = "__proto__"%string) && bool_decide (object !! key = None)
  then object
  else <[key := v]> object.

(** ** Data model *)

(** A comment of the chat log.  [ref] is the identity of the JS object: the
    [Set] [shownMessages] holds object references, and two elements of a
    parsed JSON array are never the same object. *)
Record Comment : Type := mkComment {
  ref : nat;
  content_offset_seconds : double
}.

Record ChatData : Type := mkChatData {
  comments : option (list Comment)
}.

Record Config : Type := mkConfig {
  timeOffset : jsval
}.

(** The [<ul>] the messages are appended to: whether it is attached to the
    page ([parentNode]) and the comments its [<li>] children render. *)
Record MessageList : Type := mkMessageList {
  parentNode : bool;
  children : list Comment
}.

(** The module-level variables of [content.js] the engine reads or writes,
    the duration of the page's [<video>] (if there is one), and the pending
    [setTimeout] callbacks with the clock (milliseconds) they are due at. *)
Record State : Type := mkState {
  chatData : option ChatData;
  config : option Config;
  messageList : option MessageList;
  shownMessages : gset nat;
  video : bool;
  videoDuration : option double;
  videoInterval : bool;
  lastSecond : Z;
  isActive : bool;
  now : Q;
  timers : list (Q * Comment)
}.

Definition set_chatData (v : option ChatData) (st : State) : State :=
  mkState v (config st) (messageList st) (shownMessages st) (video st)
    (videoDuration st) (videoInterval st) (lastSecond st) (isActive st)
    (now st) (timers st).

Definition set_config (v : option Config) (st : State) : State :=
  mkState (chatData st) v (messageList st) (shownMessages st) (video st)
    (videoDuration st) (videoInterval st) (lastSecond st) (isActive st)
    (now st) (timers st).

Definition set_messageList (v : option MessageList) (st : State) : State :=
  mkState (chatData st) (config st) v (shownMessages st) (video st)
    (videoDuration st) (videoInterval st) (lastSecond st) (isActive st)
    (now st) (timers st).

Definition set_shownMessages (v : gset nat) (st : State) : State :=
  mkState (chatData st) (config st) (messageList st) v (video st)
    (videoDuration st) (videoInterval st) (lastSecond st) (isActive st)
    (now st) (timers st).

Definition set_video (v : bool) (d : option double) (st : State) : State :=
  mkState (chatData st) (config st) (messageList st) (shownMessages st) v
    d (videoInterval st) (lastSecond st) (isActive st)
    (now st) (timers st).

Definition set_videoInterval (v : bool) (st : State) : State :=
  mkState (chatData st) (config st) (messageList st) (shownMessages st)
    (video st) (videoDuration st) v (lastSecond st) (isActive st)
    (now st) (timers st).

Definition set_lastSecond (v : Z) (st : State) : State :=
  mkState (chatData st) (config st) (messageList st) (shownMessages st)
    (video st) (videoDuration st) (videoInterval st) v (isActive st)
    (now st) (timers st).

Definition set_isActive (v : bool) (st : State) : State :=
  mkState (chatData st) (config st) (messageList st) (shownMessages st)
    (video st) (videoDuration st) (videoInterval st) (lastSecond st) v
    (now st) (timers st).

Definition set_now (v : Q) (st : State) : State :=
  mkState (chatData st) (config st) (messageList st) (shownMessages st)
    (video st) (videoDuration st) (videoInterval st) (lastSecond st)
    (isActive st) v (timers st).

Definition set_timers (v : list (Q * Comment)) (st : State) : State :=
  mkState (chatData st) (config st) (messageList st) (shownMessages st)
    (video st) (videoDuration st) (videoInterval st) (lastSecond st)
    (isActive st) (now st) v.

(** [chatData?.comments] *)
Definition chat_comments (st : State) : option (list Comment) :=
  match chatData st with
  | Some d => comments d
  | None => None
  end.

(** The comments shown in the feed, oldest first. *)
Definition feed (st : State) : list Comment :=
  match messageList st with
  | Some ml => children ml
  | None => []
  end.

(** [shownMessages.has(comment)] *)
Definition has (st : State) (comment : Comment) : bool :=
  bool_decide (ref comment ∈ shownMessages st).

(** ** Offset model *)

(** The body of [calculateSmartDefaultOffset], as a function of the two
    values it reads: [videoElement?.duration] ([None] when the page has no
    video) and the timestamp of the last comment ([None] for [null]).  A
    difference that is [NaN] or infinite fails the sanity check. *)
Definition smartDefault (duration : option double) (lastChatTimestamp : option double) : Z :=
  let fallbackOffset := 900 in
  match duration, lastChatTimestamp with
  | Some videoDuration, Some lastChatTimestamp =>
      if truthy videoDuration && truthy lastChatTimestamp
         && positive_num videoDuration && positive_num lastChatTimestamp
      then
        match Math_floor (js_sub videoDuration lastChatTimestamp) with
        | Some calculatedOffset =>
            if (-3600 <=? calculatedOffset) && (calculatedOffset <=? 3600)
            then calculatedOffset
            else fallbackOffset
        | None => fallbackOffset
        end
      else fallbackOffset
  | _, _ => fallbackOffset
  end.

(** [chatData?.comments?.length > 0 ? comments[length - 1].content_offset_seconds : null] *)
Definition lastChatTimestamp (st : State) : option double :=
  match chat_comments st with
  | Some cs => content_offset_seconds <$> last cs
  | None => None
  end.

Definition calculateSmartDefaultOffset (st : State) : Z :=
  smartDefault (videoDuration st) (lastChatTimestamp st).

Definition getTimeOffset (st : State) : jsval :=
  match config st with
  | Some c =>
      match timeOffset c with
      | Undefined => Number (of_Z (calculateSmartDefaultOffset st))
      | v => v
      end
  | None => Number (of_Z (calculateSmartDefaultOffset st))
  end.

(** [comment.content_offset_seconds + getTimeOffset()] *)
Definition adjusted (st : State) (comment : Comment) : double :=
  js_plus (content_offset_seconds comment) (getTimeOffset st).

(** [a === second] and [a < second] for a second, an integer that a number
    holds exactly. *)
Definition eq_second (a : double) (second : Z) : bool :=
  match value a with
  | Some q => Qeq_bool q (inject_Z second)
  | None => false
  end.

Definition lt_second (a : double) (second : Z) : bool :=
  match a with
  | S754_infinity true => true
  | _ =>
      match value a with
      | Some q => Qlt_bool q (inject_Z second)
      | None => false
      end
  end.

(** ** Effects and exceptions *)

Inductive outcome : Type :=
| Normal
| Throw.

Inductive Site : Type :=
| InShowPreviousMessages
| InShowMissedMessages
| InShowCurrentSecondMessages.

(** What an observer of the page and of the console sees, in program order. *)
Inductive Effect : Type :=
| Append (comment : Comment)            (* messageList.appendChild(li) *)
| ClearFeed                             (* messageList.innerHTML = "" *)
| ClearShown                            (* shownMessages.clear() *)
| SetLastSecond (second : Z)            (* lastSecond = ... *)
| SetTimeout (comment : Comment) (delay : Q)
| ConsoleError (site : Site)            (* a catch block logging the error *)
| ConsoleWarn
| UncaughtError (comment : Comment)     (* an exception leaving a timer callback *)
| ClearInterval.

(** A [try { ... } catch (error) { console.error(...) }] around [r]. *)
Definition try_catch (site : Site) (r : outcome * State * list Effect) : State * list Effect :=
  match r with
  | (Normal, st, e) => (st, e)
  | (Throw, st, e) => (st, e ++ [ConsoleError site])
  end.

(** [array.findIndex(p)]; [None] stands for [-1]. *)
Fixpoint findIndex {A : Type} (p : A -> bool) (l : list A) : option nat :=
  match l with
  | [] => None
  | x :: rest => if p x then Some O else S <$> findIndex p rest
  end.

(** [setTimeout(callback, delay)]: the queue is kept in firing order, by due
    time and, among equal due times, by creation. *)
Fixpoint enqueue (t : Q * Comment) (queue : list (Q * Comment)) : list (Q * Comment) :=
  match queue with
  | [] => [t]
  | u :: rest => if Qle_bool (fst u) (fst t) then u :: enqueue t rest else t :: u :: rest
  end.

Definition setTimeout (comment : Comment) (delay : Q) (st : State) : State :=
  set_timers (enqueue ((now st + delay)%Q, comment) (timers st)) st.

Definition appendChild (comment : Comment) (ml : MessageList) : MessageList :=
  mkMessageList (parentNode ml) (children ml ++ [comment]).

(** [shownMessages.clear(); if (messageList) messageList.innerHTML = ""] *)
Definition clearShownAndFeed (st : State) : State * list Effect :=
  let st1 := set_shownMessages ∅ st in
  match messageList st1 with
  | Some ml => (set_messageList (Some (mkMessageList (parentNode ml) [])) st1, [ClearShown; ClearFeed])
  | None => (st1, [ClearShown])
  end.

Section Engine.

(** The sink.  Rendering one comment ([createChatMessage], then
    [appendChild]) is outside the engine and may throw; [sinkOk comment]
    tells whether it returns normally for [comment]. *)
Variable sinkOk : Comment -> bool.

(** [showMessage(comment)].  Scrolling is presentation and left out. *)
Definition showMessage (comment : Comment) (st : State) : outcome * State * list Effect :=
  match messageList st with
  | None => (Normal, st, [ConsoleWarn])
  | Some ml =>
      let st1 := set_shownMessages ({[ref comment]} ∪ shownMessages st) st in
      if sinkOk comment
      then (Normal, set_messageList (Some (appendChild comment ml)) st1, [Append comment])
      else (Throw, st1, [])
  end.

(** [cs.forEach(comment => showMessage(comment))] *)
Fixpoint forEach_showMessage (cs : list Comment) (st : State) : outcome * State * list Effect :=
  match cs with
  | [] => (Normal, st, [])
  | comment :: rest =>
      match showMessage comment st with
      | (Normal, st1, e1) =>
          let '(o, st2, e2) := forEach_showMessage rest st1 in (o, st2, e1 ++ e2)
      | (Throw, st1, e1) => (Throw, st1, e1)
      end
  end.

(** The loop of [showPreviousMessages]: [count] iterations from index [i],
    [if (comment && !shownMessages.has(comment)) showMessage(comment)]. *)
Fixpoint previousLoop (count i : nat) (cs : list Comment) (st : State)
  : outcome * State * list Effect :=
  match count with
  | O => (Normal, st, [])
  | S k =>
      let body :=
        match cs !! i with
        | Some comment => if has st comment then (Normal, st, []) else showMessage comment st
        | None => (Normal, st, [])
        end in
      match body with
      | (Normal, st1, e1) =>
          let '(o, st2, e2) := previousLoop k (S i) cs st1 in (o, st2, e1 ++ e2)
      | (Throw, st1, e1) => (Throw, st1, e1)
      end
  end.

(** [showPreviousMessages(second)].  [firstIdx] is an index into the
    reversed copy of the log and is then used on the log itself. *)
Definition showPreviousMessages (second : Z) (st : State) : State * list Effect :=
  match chat_comments st with
  | None => (st, [ConsoleWarn])
  | Some cs =>
      try_catch InShowPreviousMessages
        match findIndex (fun comment => lt_second (adjusted st comment) second) (rev cs) with
        | None => (Normal, st, [])
        | Some firstIdx =>
            let startIdx := (firstIdx - CONSTANTS.PREVIOUS_MESSAGES_COUNT)%nat in
            previousLoop (firstIdx - startIdx) startIdx cs st
        end
  end.

(** The comments one iteration of [showMissedMessages] selects. *)
Definition missedComments (sec : Z) (cs : list Comment) (st : State) : list Comment :=
  List.filter (fun comment => eq_second (adjusted st comment) sec && negb (has st comment)) cs.

(** The loop of [showMissedMessages]: [count] iterations from second [sec]. *)
Fixpoint missedLoop (count : nat) (sec : Z) (cs : list Comment) (st : State)
  : outcome * State * list Effect :=
  match count with
  | O => (Normal, st, [])
  | S k =>
      match forEach_showMessage (missedComments sec cs st) st with
      | (Normal, st1, e1) =>
          let '(o, st2, e2) := missedLoop k (sec + 1) cs st1 in (o, st2, e1 ++ e2)
      | (Throw, st1, e1) => (Throw, st1, e1)
      end
  end.

(** [showMissedMessages(from, to)]: [for (sec = from; sec <= to; sec++)]. *)
Definition showMissedMessages (from to : Z) (st : State) : State * list Effect :=
  match chat_comments st with
  | None => (st, [ConsoleWarn])
  | Some cs =>
      try_catch InShowMissedMessages (missedLoop (Z.to_nat (to - from + 1)) from cs st)
  end.

(** The delay of the [idx]-th of [count] comments: [(idx * 1000) / count] ms. *)
Definition staggerDelay (idx count : nat) : Q :=
  (inject_Z (Z.of_nat idx * 1000) / inject_Z (Z.of_nat count))%Q.

(** [commentsThisSecond.forEach((comment, idx) => setTimeout(..., (idx * 1000) / count))] *)
Fixpoint scheduleEach (count idx : nat) (cs : list Comment) (st : State) : State * list Effect :=
  match cs with
  | [] => (st, [])
  | comment :: rest =>
      let delay := staggerDelay idx count in
      let '(st2, e2) := scheduleEach count (S idx) rest (setTimeout comment delay st) in
      (st2, SetTimeout comment delay :: e2)
  end.

Definition commentsThisSecond (currentSecond : Z) (cs : list Comment) (st : State) : list Comment :=
  List.filter (fun comment => eq_second (adjusted st comment) currentSecond && negb (has st comment)) cs.

(** [showCurrentSecondMessages(currentSecond)] *)
Definition showCurrentSecondMessages (currentSecond : Z) (st : State) : State * list Effect :=
  match chat_comments st with
  | None => (st, [])
  | Some cs =>
      let selected := commentsThisSecond currentSecond cs st in
      scheduleEach (length selected) 0 selected st
  end.

(** The jump-recovery part of the sampling callback, executed before
    [lastSecond] is assigned. *)
Definition recover (currentSecond : Z) (st : State) : State * list Effect :=
  if CONSTANTS.SKIP_THRESHOLD <? Z.abs (currentSecond - lastSecond st) then
    let '(st1, e1) := clearShownAndFeed st in
    let '(st2, e2) := showPreviousMessages currentSecond st1 in
    (st2, e1 ++ e2)
  else if 1 <? Z.abs (currentSecond - lastSecond st) then
    let from := Z.min (lastSecond st) currentSecond + 1 in
    let to := Z.max (lastSecond st) currentSecond in
    showMissedMessages from to st
  else (st, []).

(** The callback [onVideoReady] hands to [setInterval]; [paused] and
    [currentTime] are what it reads from the video element. *)
Definition sampleTick (paused : bool) (currentTime : Q) (st : State) : State * list Effect :=
  if negb (video st) || paused then (st, [])
  else
    let currentSecond := Qfloor currentTime in
    if currentSecond =? lastSecond st then (st, [])
    else
      let '(st1, e1) := recover currentSecond st in
      let st2 := set_lastSecond currentSecond st1 in
      let '(st3, e3) := showCurrentSecondMessages currentSecond st2 in
      (st3, e1 ++ [SetLastSecond currentSecond] ++ e3).

(** A timer callback [() => { showMessage(comment); }]: an exception leaves
    it uncaught and does not affect the other timers. *)
Definition fireTimer (comment : Comment) (st : State) : State * list Effect :=
  match showMessage comment st with
  | (Normal, st1, e) => (st1, e)
  | (Throw, st1, e) => (st1, e ++ [UncaughtError comment])
  end.

Fixpoint fireEach (cs : list Comment) (st : State) : State * list Effect :=
  match cs with
  | [] => (st, [])
  | comment :: rest =>
      let '(st1, e1) := fireTimer comment st in
      let '(st2, e2) := fireEach rest st1 in
      (st2, e1 ++ e2)
  end.

Definition isDue (target : Q) (t : Q * Comment) : bool := Qle_bool (fst t) target.

(** [dt] milliseconds pass: the timers due by then fire, in queue order. *)
Definition advance (dt : Q) (st : State) : State * list Effect :=
  let target := (now st + dt)%Q in
  let due := List.filter (isDue target) (timers st) in
  let pending := List.filter (fun t => negb (isDue target t)) (timers st) in
  fireEach (map snd due) (set_timers pending (set_now target st)).

(** [refreshChatWithNewOffset()]; [currentTime] is [video.currentTime]. *)
Definition refreshChatWithNewOffset (currentTime : Q) (st : State) : State * list Effect :=
  match video st, chatData st, messageList st with
  | true, Some _, Some ml =>
      let st1 := set_messageList (Some (mkMessageList (parentNode ml) [])) (set_shownMessages ∅ st) in
      let st2 := set_lastSecond (-1) st1 in
      let currentSecond := Qfloor currentTime in
      let '(st3, e3) := showPreviousMessages currentSecond st2 in
      (st3, [ClearShown; ClearFeed; SetLastSecond (-1)] ++ e3)
  | _, _, _ => (st, [])
  end.

(** [{ ...config, ...request.settings }] restricted to [timeOffset]: the
    settings either carry the key ([Some v]) or not. *)
Definition mergeSettings (c : option Config) (settings : option jsval) : Config :=
  match settings with
  | Some v => mkConfig v
  | None => match c with Some c0 => c0 | None => mkConfig Undefined end
  end.

(** The ['updateSettings'] case of [handleMessage]. *)
Definition updateSettings (settings : option jsval) (currentTime : Q) (st : State)
  : State * list Effect :=
  let oldOffset := match config st with Some c => timeOffset c | None => Undefined end in
  let st1 := set_config (Some (mergeSettings (config st) settings)) st in
  if strict_neq oldOffset (timeOffset (mergeSettings (config st) settings))
     && isActive st1 && video st1
  then refreshChatWithNewOffset currentTime st1
  else (st1, []).

(** [cleanup()], for the variables of the engine. *)
Definition cleanup (st : State) : State * list Effect :=
  let st1 := set_shownMessages ∅ st in
  let st2 :=
    match messageList st1 with
    | Some ml => if parentNode ml then set_messageList None st1 else st1
    | None => st1
    end in
  let '(st3, e3) :=
    if videoInterval st2 then (set_videoInterval false st2, [ClearInterval]) else (st2, []) in
  (set_chatData None (set_isActive false (set_video false (videoDuration st) (set_lastSecond (-1) st3))),
   ClearShown :: e3).

(** [injectChat(chatContainer)] as called by [waitForChatContainer] once
    the chat data is loaded: a new list is created unless one is attached. *)
Definition injectChat (st : State) : State * list Effect :=
  match messageList st with
  | Some ml =>
      if parentNode ml
      then (set_messageList (Some (mkMessageList true [])) st, [ClearFeed])
      else (set_messageList (Some (mkMessageList true [])) st, [])
  | None => (set_messageList (Some (mkMessageList true [])) st, [])
  end.

(** The synchronous part of [onVideoReady] after the video element is
    found, followed by [isActive = true] of [init]. *)
Definition onVideoReady (duration : double) (st : State) : State * list Effect :=
  let st0 := set_video true (Some duration) st in
  let '(st1, e1) :=
    if videoInterval st0
    then let '(s, e) := clearShownAndFeed st0 in (s, ClearInterval :: e)
    else (st0, []) in
  (set_isActive true (set_videoInterval true st1), e1).

(** ** Runs of the engine *)

Inductive Event : Type :=
| Sample (paused : bool) (currentTime : Q)  (* the interval callback runs *)
| Advance (dt : Q)                          (* time passes, due timers fire *)
| UpdateSettings (settings : option jsval) (currentTime : Q)
| Cleanup
| ChatLoaded (d : ChatData)                 (* chatData = chatResponse.data *)
| InjectChat                                (* waitForChatContainer finds the container *)
| VideoReady (duration : double).

Definition step (ev : Event) (st : State) : State * list Effect :=
  match ev with
  | Sample paused currentTime =>
      if videoInterval st then sampleTick paused currentTime st else (st, [])
  | Advance dt => advance dt st
  | UpdateSettings settings currentTime => updateSettings settings currentTime st
  | Cleanup => cleanup st
  | ChatLoaded d => (set_chatData (Some d) st, [])
  | InjectChat =>
      match chat_comments st with
      | Some (_ :: _) => injectChat st
      | _ => (st, [])
      end
  | VideoReady duration => onVideoReady duration st
  end.

Fixpoint run (evs : list Event) (st : State) : State * list Effect :=
  match evs with
  | [] => (st, [])
  | ev :: rest =>
      let '(st1, e1) := step ev st in
      let '(st2, e2) := run rest st1 in
      (st2, e1 ++ e2)
  end.

End Engine.

(** ** Concrete sessions used in the examples *)

Definition alwaysOk (_ : Comment) : bool := true.

(** A tracking session over [cs] with offset [off], an empty attached feed,
    nothing revealed, no pending timer, positioned at [last]. *)
Definition tracking (cs : list Comment) (off : Z) (last : Z) : State :=
  mkState (Some (mkChatData (Some cs))) (Some (mkConfig (Number (of_Z off))))
    (Some (mkMessageList true [])) ∅ true (Some (of_Z 3600)) true last true
    0%Q [].

Definition at_second (r : nat) (ts : Z) : Comment := mkComment r (of_Z ts).

(** The inputs for which the heuristic of [calculateSmartDefaultOffset]
    yields [candidate]: both values are finite, positive numbers and the
    floored difference passes the sanity check. *)
Definition heuristic_applies (duration lastEvent : option double) (candidate : Z) : Prop :=
  exists d l : double,
    duration = Some d /\ lastEvent = Some l /\
    positive_num d = true /\ positive_num l = true /\
    Math_floor (js_sub d l) = Some candidate /\ -3600 <= candidate <= 3600.

(** ** Vocabulary of the statements *)

(** The references of the comments of [l]. *)
Definition refs (l : list Comment) : gset nat := list_to_set (map ref l).

(** The state once the comments [l] are appended to the feed (when there is
    one) and the references [marks] are added to [shownMessages]. *)
Definition revealed (l : list Comment) (marks : gset nat) (st : State) : State :=
  set_messageList
    match messageList st with
    | Some ml => Some (mkMessageList (parentNode ml) (children ml ++ l))
    | None => None
    end
    (set_shownMessages (marks ∪ shownMessages st) st).

(** Two states that differ at most in [shownMessages] and in the children
    of the message list. *)
Definition same_frame (st st' : State) : Prop :=
  chatData st = chatData st' /\ config st = config st' /\ video st = video st' /\
  videoDuration st = videoDuration st' /\ videoInterval st = videoInterval st' /\
  lastSecond st = lastSecond st' /\ isActive st = isActive st' /\
  now st = now st' /\ timers st = timers st' /\
  parentNode <$> messageList st = parentNode <$> messageList st'.

(** The effects of a reveal that executes at once, and those that defer it. *)
Definition immediate (e : Effect) : bool :=
  match e with
  | Append _ | ClearFeed | ClearShown | ConsoleError _ | ConsoleWarn => true
  | _ => false
  end.

Definition deferred (e : Effect) : bool :=
  match e with
  | SetTimeout _ _ => true
  | _ => false
  end.

(** [st1] and [e] result from [st] by immediate reveals of comments that
    satisfy [P]. *)
Definition footprint (P : Comment -> Prop) (st st1 : State) (e : list Effect) : Prop :=
  same_frame st st1 /\
  (forall x, In x (feed st1) -> In x (feed st) \/ P x) /\
  Forall (fun x => immediate x = true) e.

(** The seconds [from, from + 1, ...], [count] of them. *)
Definition seconds (from : Z) (count : nat) : list Z :=
  map (fun k => from + Z.of_nat k) (seq 0 count).

(** The comments a backfill of the seconds [from .. to] selects when it
    starts in [st]: second by second, and in log order within a second. *)
Definition missedBatch (from to : Z) (cs : list Comment) (st : State) : list Comment :=
  flat_map (fun sec => missedComments sec cs st) (seconds from (Z.to_nat (to - from + 1))).

(** The comments the backfill of a large jump selects when it starts in
    [st]: the not yet revealed ones among [comments[startIdx .. firstIdx)]. *)
Definition previousBatch (second : Z) (cs : list Comment) (st : State) : list Comment :=
  match findIndex (fun comment => lt_second (adjusted st comment) second) (rev cs) with
  | None => []
  | Some firstIdx =>
      let startIdx := (firstIdx - CONSTANTS.PREVIOUS_MESSAGES_COUNT)%nat in
      List.filter (fun comment => negb (has st comment))
        (firstn (firstIdx - startIdx) (skipn startIdx cs))
  end.

(** [a] is exactly one of the integer seconds [from .. to]. *)
Definition atSecondIn (from to : Z) (a : double) : bool :=
  match value a with
  | Some q => Qeq_bool q (inject_Z (Qfloor q)) && (from <=? Qfloor q) && (Qfloor q <=? to)
  | None => false
  end.

(** The log is in ascending order of adjusted timestamp. *)
Fixpoint ascending (st : State) (cs : list Comment) : bool :=
  match cs with
  | [] => true
  | c :: rest =>
      forallb (fun c' => num_le (adjusted st c) (adjusted st c')) rest
      && ascending st rest
  end.

(** The timers a tick at clock [clock] creates for the comments [cs], the
    [idx]-th and later of [count], and the effects of creating them. *)
Fixpoint stagger (count idx : nat) (cs : list Comment) (clock : Q) : list (Q * Comment) :=
  match cs with
  | [] => []
  | c :: rest => ((clock + staggerDelay idx count)%Q, c) :: stagger count (S idx) rest clock
  end.

Fixpoint staggerEffects (count idx : nat) (cs : list Comment) : list Effect :=
  match cs with
  | [] => []
  | c :: rest => SetTimeout c (staggerDelay idx count) :: staggerEffects count (S idx) rest
  end.

(** Those of the comments [cs] whose delay has elapsed [dt] ms after the tick. *)
Fixpoint elapsed (dt : Q) (count idx : nat) (cs : list Comment) : list Comment :=
  match cs with
  | [] => []
  | c :: rest =>
      if Qle_bool (staggerDelay idx count) dt
      then c :: elapsed dt count (S idx) rest
      else elapsed dt count (S idx) rest
  end.

(** What the firing of the timers of [cs] shows on the page and the console. *)
Definition fireEffects (sinkOk : Comment -> bool) (cs : list Comment) : list Effect :=
  flat_map (fun c => if sinkOk c then [Append c] else [UncaughtError c]) cs.

(** In the effects [e] of a transition to [second], no comment is appended
    before [lastSecond] is assigned. *)
Definition assigned_before_reveals (second : Z) (e : list Effect) : Prop :=
  forall pre post, e = pre ++ SetLastSecond second :: post ->
  forall c, ~ In (Append c) pre.

(** A sink that throws for the comment with reference [r] only. *)
Definition failsOn (r : nat) (comment : Comment) : bool := negb (ref comment =? r)%nat.


(** The session as it is when it starts over under the configuration [c]:
    nothing revealed, an empty feed, [lastSecond] at its sentinel. *)
Definition freshSession (c : Config) (st : State) : State :=
  set_lastSecond (-1) (fst (clearShownAndFeed (set_config (Some c) st))).

(** [rangeBetween(from, to)] in the words of the specification: the not yet
    revealed comments whose adjusted timestamp falls in the inclusive range,
    in log order. *)
Definition rangeBetween (from to : Z) (cs : list Comment) (st : State) : list Comment :=
  List.filter
    (fun c =>
       match value (adjusted st c) with
       | Some q => Qle_bool (inject_Z from) q && Qle_bool q (inject_Z to) && negb (has st c)
       | None => false
       end) cs.

(** The adjusted timestamp of [comment] is a number that is not an integer. *)
Definition fractional (st : State) (comment : Comment) : Prop :=
  exists q : Q, value (adjusted st comment) = Some q /\ forall z : Z, ~ (q == inject_Z z)%Q.

(** ** Loading the configuration *)

(** What [chrome.storage.local] holds under [timeOffset]: nothing, [null]
    or a number. *)
Inductive StoredOffset : Type :=
| NotStored
| StoredNull
| StoredNumber (d : double).

(** [chrome.storage.local], for the keys read here; [stored_manualLinks]
    is [None] when that key was never written. *)
Record Storage : Type := mkStorage {
  stored_timeOffset : StoredOffset;
  stored_manualLinks : option (gmap string string)
}.

Definition set_stored_manualLinks (m : gmap string string) (s : Storage) : Storage :=
  mkStorage (stored_timeOffset s) (Some m).

(** [storage.local.get({ timeOffset: null, ... }).timeOffset] *)
Definition get_timeOffset (s : Storage) : jsval :=
  match stored_timeOffset s with
  | NotStored | StoredNull => Null
  | StoredNumber d => Number d
  end.

(** [stored.manualLinks || {}] after [storage.local.get({ manualLinks: {} })] *)
Definition get_manualLinks (s : Storage) : gmap string string :=
  default ∅ (stored_manualLinks s).

(** [initConfig()], for [timeOffset]; [storage] is [None] when the storage
    API throws, which the [catch] answers with the offset 900. *)
Definition initConfig (storage : option Storage) (st : State) : State :=
  match storage with
  | Some s =>
      let st1 := set_config (Some (mkConfig (get_timeOffset s))) st in
      match get_timeOffset s with
      | Undefined | Null =>
          set_config (Some (mkConfig (Number (of_Z (calculateSmartDefaultOffset st1))))) st1
      | Number _ | Builtin _ => st1
      end
  | None => set_config (Some (mkConfig (Number (of_Z 900)))) st
  end.

(** The outcome of a [fetch] followed by [response.json()]. *)
Inductive Fetched (A : Type) : Type :=
| FetchThrows
| NotOk (status : Z)
| FetchOk (body : A).

Arguments FetchThrows {A}.
Arguments NotOk {A} status.
Arguments FetchOk {A} body.

(** [loadAndApplyOffsetData(videoId)]; [response] is the fetched
    [timedata.json], an object from video ids to offsets.  The second
    component is the value handed to [storage.local.set] under
    [timeOffset], if the call is reached; what the storage keeps of it
    is up to the storage API. *)
Definition loadAndApplyOffsetData (videoId : string) (response : Fetched (gmap string double))
    (storage : option Storage) (st : State) : State * option jsval :=
  match response with
  | FetchOk offsetData =>
      let apply (suggestedOffset : jsval) :=
        let st1 := match config st with Some _ => st | None => initConfig storage st end in
        (set_config (Some (mkConfig suggestedOffset)) st1, Some suggestedOffset) in
      match js_get offsetData videoId with
      | Own suggestedOffset =>
          if truthy suggestedOffset then apply (Number suggestedOffset) else (st, None)
      | Inherited => apply (Builtin videoId)
      | Missing => (st, None)
      end
  | _ => (st, None)
  end.

(** What [init] does to the configuration of a video that has a chat log:
    [if (!config) await initConfig()], later [await loadAndApplyOffsetData(videoId)]. *)
Definition init_offsets (videoId : string) (response : Fetched (gmap string double))
    (storage : option Storage) (st : State) : State * option jsval :=
  loadAndApplyOffsetData videoId response storage
    match config st with Some _ => st | None => initConfig storage st end.

(** ** Linking a video to a chat log *)

(** The module-level variables [ttvLink], [isManualLinkMode] and
    [pendingVideoId]. *)
Record Links : Type := mkLinks {
  ttvLink : option (gmap string string);
  isManualLinkMode : bool;
  pendingVideoId : option string
}.

(** Truthiness of a value that is a string, [null] or [undefined]. *)
Definition truthy_string (v : option string) : bool :=
  match v with
  | Some (String _ _) => true
  | _ => false
  end.

(** Truthiness of [object[key]] in a table of strings: an inherited
    property is a function or an object. *)
Definition truthy_property (p : Property string) : bool :=
  match p with
  | Own v => truthy_string (Some v)
  | Inherited => true
  | Missing => false
  end.

(** [a || b] *)
Definition or_else (a b : option string) : option string :=
  if truthy_string a then a else b.

Inductive Response : Type :=
| Success (message : string)
| Failure (error : string).

(** The ['linkTwitchVOD'] case of [handleMessage], up to its [await init()]
    ([init] catches its own errors); the response is the one sent after it. *)
Definition linkTwitchVOD (youtubeVideoId twitchVodId : option string)
    (links : Links) (storage : option Storage) : Links * option Storage * Response :=
  match or_else youtubeVideoId (pendingVideoId links) with
  | Some (String a0 s0) =>
      let yt := String a0 s0 in
      match twitchVodId with
      | Some (String a1 s1) =>
          let vod := String a1 s1 in
          let links1 :=
            mkLinks (Some (js_set yt vod (default ∅ (ttvLink links))))
              (isManualLinkMode links) (pendingVideoId links) in
          match storage with
          | Some s =>
              let storage1 := set_stored_manualLinks (js_set yt vod (get_manualLinks s)) s in
              let links2 :=
                if isManualLinkMode links1 && bool_decide (pendingVideoId links1 = Some yt)
                then mkLinks (ttvLink links1) false None
                else links1 in
              (links2, Some storage1, Success "Chat linked successfully")
          | None => (links1, None, Failure "Storage API not available")
          end
      | _ => (links, storage, Failure "No Twitch VOD ID provided")
      end
  | _ => (links, storage, Failure "No YouTube video ID provided")
  end.

(** [if (ttvLink && ttvLink[id]) delete ttvLink[id]] *)
Definition forget_link (id : string) (links : Links) : Links :=
  match ttvLink links with
  | Some m =>
      if truthy_property (js_get m id)
      then mkLinks (Some (delete id m)) (isManualLinkMode links) (pendingVideoId links)
      else links
  | None => links
  end.

(** The ['removeManualLink'] case of [handleMessage]. *)
Definition removeManualLink (youtubeVideoId : option string)
    (links : Links) (storage : option Storage) (st : State)
  : Links * option Storage * State * Response :=
  match youtubeVideoId with
  | Some (String a0 s0) =>
      let id := String a0 s0 in
      match storage with
      | Some s =>
          if truthy_property (js_get (get_manualLinks s) id)
          then (forget_link id links,
                Some (set_stored_manualLinks (delete id (get_manualLinks s)) s),
                fst (cleanup st),
                Success "Manual link removed successfully")
          else (links, storage, st, Failure "No manual link found for this video")
      | None => (links, storage, st, Failure "Storage API not available")
      end
  | _ => (links, storage, st, Failure "No YouTube video ID provided")
  end.

(** The merge of the stored manual links into [ttvLink] at the start of
    [init]: [ttvLink = { ...ttvLink, ...stored.manualLinks }]; [builtin] is
    the fetched [yt-ttv.json], read only when [ttvLink] is still [null]. *)
Definition init_links (builtin : gmap string string) (links : Links) (s : Storage) : Links :=
  mkLinks (Some (get_manualLinks s ∪ default builtin (ttvLink links)))
    (isManualLinkMode links) (pendingVideoId links).

(** [hay.includes(needle)] *)
Fixpoint includes (needle hay : string) : bool :=
  String.prefix needle hay ||
  match hay with
  | String _ rest => includes needle rest
  | EmptyString => false
  end.

Definition lekkerIndicators : list string :=
  ["lekker spelen"; "lekker-spelen"; "lekkerspelen"]%string.

(** [isLekkerSpelen()]; [videoId] is the [v] parameter of the URL and
    [channelName] the lower-cased, trimmed text of the channel link, the
    empty string when there is none. *)
Definition isLekkerSpelen (videoId : option string) (links : Links) (channelName : string) : bool :=
  match videoId, ttvLink links with
  | Some (String a0 s0), Some m =>
      if truthy_property (js_get m (String a0 s0)) then true
      else existsb (fun indicator => includes indicator channelName) lekkerIndicators
  | _, _ => existsb (fun indicator => includes indicator channelName) lekkerIndicators
  end.

(** ** Waiting for the page *)

Inductive Settled : Type :=
| Resolved (attempt : nat)
| Rejected (attempt : nat).

(** The interval callback of [getVideoElement], run until the promise
    settles or [fuel] firings have passed; [present k] tells whether
    [document.querySelector('video')] finds an element at the [k]-th firing. *)
Fixpoint getVideoElement_from (fuel attempts : nat) (present : nat -> bool) : option Settled :=
  match fuel with
  | O => None
  | S fuel' =>
      let attempts := S attempts in
      if present attempts then Some (Resolved attempts)
      else if (60 <=? attempts)%nat then Some (Rejected attempts)
      else getVideoElement_from fuel' attempts present
  end.

Definition getVideoElement (fuel : nat) (present : nat -> bool) : option Settled :=
  getVideoElement_from fuel 0 present.

(** What one firing of the interval of [waitForChatContainer] sees:
    whether [#chat] exists, and whether [createChatContainer()] would
    return a container (a secondary or a primary column exists). *)
Record PageView : Type := mkPageView {
  chatExists : bool;
  canCreate : bool
}.

(** The interval callback of [waitForChatContainer], with its local
    variables [attempts] and [containerCreated]; the result also tells
    at which firings [createChatContainer] was called. *)
Fixpoint waitForChatContainer_from (fuel attempts : nat) (containerCreated : bool)
    (page : nat -> PageView) : option Settled * list nat :=
  match fuel with
  | O => (None, [])
  | S fuel' =>
      let attempts := S attempts in
      let creates := negb (chatExists (page attempts)) && negb containerCreated in
      let chatContainer :=
        chatExists (page attempts) || (creates && canCreate (page attempts)) in
      let calls := if creates then [attempts] else [] in
      if chatContainer then (Some (Resolved attempts), calls)
      else if (30 <=? attempts)%nat then (Some (Rejected attempts), calls)
      else
        let '(r, later) :=
          waitForChatContainer_from fuel' attempts (containerCreated || creates) page in
        (r, calls ++ later)
  end.

Definition waitForChatContainer (fuel : nat) (page : nat -> PageView) : option Settled * list nat :=
  waitForChatContainer_from fuel 0 false page.

Definition VIDEO_CHECK_INTERVAL : Z := 500.

Definition CHAT_CHECK_INTERVAL : Z := 1000.

(** ** More vocabulary *)

(** In an attached feed, no reference occurs twice and every comment is
    marked; the references of the log are distinct. *)
Definition feed_marked (st : State) : Prop :=
  (forall ml, messageList st = Some ml -> parentNode ml = true ->
     NoDup (map ref (children ml)) /\
     forall c, In c (children ml) -> ref c ∈ shownMessages st) /\
  (forall cs, chat_comments st = Some cs -> NoDup (map ref cs)).

(** A sample that the callback ignores: paused, or at the second it was
    last processed at. *)
Definition ignored (st : State) (ev : Event) : Prop :=
  match ev with
  | Sample paused t => paused = true \/ Qfloor t = lastSecond st
  | _ => False
  end.





(** Every pending timer is due less than a second ahead. *)
Definition timers_within_a_second (st : State) : Prop :=
  Forall (fun u => (fst u < now st + inject_Z 1000)%Q) (timers st).

(** * Properties *)

(** ** Comparisons on rationals *)

Lemma Qlt_bool_true (a b : Q) : Qlt_bool a b = true <-> (a < b)%Q.
Proof.
  unfold Qlt_bool. rewrite negb_true_iff. split; intros H.
  - apply Qnot_le_lt. intros Hle. apply Qle_bool_iff in Hle. congruence.
  - destruct (Qle_bool b a) eqn:E; [|reflexivity].
    apply Qle_bool_iff in E. exfalso. exact (Qlt_not_le _ _ H E).
Qed.

Lemma Qlt_bool_false (a b : Q) : Qlt_bool a b = false <-> (b <= a)%Q.
Proof.
  unfold Qlt_bool. rewrite negb_false_iff. apply Qle_bool_iff.
Qed.

Lemma Qeq_bool_false (a b : Q) : Qeq_bool a b = false <-> ~ (a == b)%Q.
Proof.
  split.
  - intros H E. apply Qeq_bool_iff in E. congruence.
  - intros H. destruct (Qeq_bool a b) eqn:E; [|reflexivity].
    apply Qeq_bool_iff in E. contradiction.
Qed.

Lemma eq_second_inv (a : double) (s : Z) :
  eq_second a s = true -> exists q, value a = Some q /\ (q == inject_Z s)%Q.
Proof.
  unfold eq_second. destruct (value a) as [q|]; [|discriminate].
  intros H. exists q. split; [reflexivity|]. apply Qeq_bool_iff, H.
Qed.

Lemma eq_second_unique (a : double) (s s' : Z) :
  eq_second a s = true -> eq_second a s' = true -> s = s'.
Proof.
  intros H H'. apply eq_second_inv in H as (q & Hv & Hq).
  apply eq_second_inv in H' as (q' & Hv' & Hq'). rewrite Hv in Hv'. injection Hv' as <-.
  rewrite Hq in Hq'. unfold Qeq in Hq'. simpl in Hq'. lia.
Qed.

(** A number that is below a second is not [NaN], and [lt_second] and
    [eq_second] exclude each other. *)
Lemma lt_second_not_eq (a : double) (s : Z) :
  lt_second a s = true -> eq_second a s = false.
Proof.
  unfold lt_second, eq_second. destruct a as [sg|[|]| |sg m e]; simpl; try discriminate;
    try reflexivity; intros H; apply Qlt_bool_true in H; apply Qeq_bool_false;
    intros E; rewrite E in H; exact (Qlt_irrefl _ H).
Qed.

(** ** The offset heuristic *)

Lemma positive_num_truthy (d : double) : positive_num d = true -> truthy d = true.
Proof. destruct d as [sg|[|]| |[|] m e]; simpl; congruence. Qed.

Lemma smartDefault_candidate (duration lastEvent : option double) (candidate : Z) :
  heuristic_applies duration lastEvent candidate ->
  smartDefault duration lastEvent = candidate.
Proof.
  intros (d & l & -> & -> & Hd & Hl & Hfloor & Hlo & Hhi).
  unfold smartDefault.
  rewrite (positive_num_truthy _ Hd), (positive_num_truthy _ Hl), Hd, Hl, Hfloor. simpl.
  apply Z.leb_le in Hlo, Hhi. rewrite Hlo, Hhi. reflexivity.
Qed.

Lemma smartDefault_fallback (duration lastEvent : option double) :
  (forall candidate, ~ heuristic_applies duration lastEvent candidate) ->
  smartDefault duration lastEvent = 900.
Proof.
  intros Hno. unfold smartDefault.
  destruct duration as [d|]; [|reflexivity]. destruct lastEvent as [l|]; [|reflexivity].
  destruct (positive_num d) eqn:Hd; [|rewrite andb_false_r; reflexivity].
  destruct (positive_num l) eqn:Hl; [|rewrite andb_false_r; reflexivity].
  destruct (truthy d && truthy l && true && true); [|reflexivity].
  destruct (Math_floor (js_sub d l)) as [calculatedOffset|] eqn:Hfloor; [|reflexivity].
  destruct ((-3600 <=? calculatedOffset) && (calculatedOffset <=? 3600)) eqn:Hb; [|reflexivity].
  exfalso. apply andb_true_iff in Hb as [Hlo Hhi]. apply Z.leb_le in Hlo, Hhi.
  apply (Hno calculatedOffset). exists d, l. repeat split; assumption.
Qed.

(** The heuristic reads the timestamp of the last comment of the log. *)
Lemma lastChatTimestamp_last (st : State) (cs : list Comment) (c : Comment) :
  chat_comments st = Some (cs ++ [c]) ->
  lastChatTimestamp st = Some (content_offset_seconds c).
Proof. intros H. unfold lastChatTimestamp. rewrite H, last_snoc. reflexivity. Qed.

Lemma lastChatTimestamp_none (st : State) :
  chat_comments st = None \/ chat_comments st = Some [] -> lastChatTimestamp st = None.
Proof. intros [H | H]; unfold lastChatTimestamp; rewrite H; reflexivity. Qed.

(** An explicit number, zero included, is returned unchanged, and so is a
    [null] that reaches [getTimeOffset] (it then acts as the offset 0). *)
Lemma getTimeOffset_explicit (st : State) (v : jsval) :
  config st = Some (mkConfig v) -> v <> Undefined -> getTimeOffset st = v.
Proof.
  intros Hc Hv. unfold getTimeOffset. rewrite Hc. simpl.
  destruct v; [contradiction | reflexivity | reflexivity | reflexivity].
Qed.

(** C8.  The page's video lasts 3600 s and the log ends at 3700 s.  With
    [null] stored, [initConfig] resolves the offset -100 (and 900 for a log
    that ends at 10000 s), as [null] and [undefined] both count as no
    stored offset there.  When the settings then carry [timeOffset: null],
    [getTimeOffset], which tests [!== undefined] only, returns that [null]:
    the heuristic would still yield -100, but the comment at 3700 s is
    placed at second 3700, as under the offset 0. *)
Theorem null_offset_is_returned_unresolved :
  let c := at_second 0 3700 in
  let storage := Some (mkStorage StoredNull None) in
  let loaded := initConfig storage (tracking [c] 0 (-1)) in
  let updated := fst (updateSettings alwaysOk (Some Null) (inject_Z 5) loaded) in
  videoDuration loaded = Some (of_Z 3600)
  /\ chat_comments loaded = Some [c]
  /\ getTimeOffset loaded = Number (of_Z (-100))
  /\ eq_second (adjusted loaded c) 3600 = true
  /\ getTimeOffset (initConfig storage (tracking [at_second 0 10000] 0 (-1))) = Number (of_Z 900)
  /\ config updated = Some (mkConfig Null)
  /\ calculateSmartDefaultOffset updated = -100
  /\ getTimeOffset updated = Null
  /\ eq_second (adjusted updated c) 3600 = false
  /\ eq_second (adjusted updated c) 3700 = true.
Proof. vm_compute. repeat split; reflexivity. Qed.

(** ** Two runs on which the engine departs from its description *)

(** C1.  A fresh session ([lastSecond = -1]) over a log holding one comment
    at second 0 is sampled at second 100: a large jump.  The comment is the
    most recent one before second 100, yet the backfill reveals nothing,
    then or later: [firstIdx], found in the reversed copy of the log, is
    used as an index of the log itself, so the loop runs over the empty
    range [comments[0 .. 0)].  With the log [1, 2, 300] the same jump
    reveals the comment at second 1 and not the one at second 2. *)
Theorem large_jump_backfill_uses_reversed_index :
  let c0 := at_second 0 0 in
  let st := tracking [c0] 0 (-1) in
  let r := run alwaysOk [Sample false (inject_Z 100); Advance (inject_Z 1000)] st in
  let r' := run alwaysOk [Sample false (inject_Z 100); Advance (inject_Z 1000)]
              (tracking [at_second 0 1; at_second 1 2; at_second 2 300] 0 (-1)) in
  lt_second (adjusted st c0) 100 = true
  /\ feed (fst r) = []
  /\ snd r = [ClearShown; ClearFeed; SetLastSecond 100]
  /\ feed (fst r') = [at_second 0 1].
Proof. vm_compute. repeat split; reflexivity. Qed.

(** The same holds of every log whose last comment lies before the target
    second: [firstIdx] is 0 and the backfill is empty. *)
Lemma showPreviousMessages_past_the_end
    (sinkOk : Comment -> bool) (second : Z) (st : State) (cs : list Comment) (c : Comment) :
  chat_comments st = Some (cs ++ [c]) ->
  lt_second (adjusted st c) second = true ->
  showPreviousMessages sinkOk second st = (st, []).
Proof.
  intros Hcs Hlt. unfold showPreviousMessages. rewrite Hcs, rev_app_distr. simpl.
  rewrite Hlt. reflexivity.
Qed.

(** C2.  Two comments share second 10.  The tick from second 9 to second 10
    schedules them at 0 ms and 500 ms and marks neither; 100 ms later the
    viewer has sought back to second 5, a small jump whose backfill of
    seconds 6..10 finds the second comment unmarked and reveals it; at
    500 ms its timer fires and reveals it again.  [shownMessages] was not
    cleared in between. *)
Theorem staggered_comment_revealed_twice :
  let e0 := at_second 0 10 in
  let e1 := at_second 1 10 in
  let st := tracking [e0; e1] 0 9 in
  let scheduled := fst (sampleTick alwaysOk false (inject_Z 10) st) in
  let r := run alwaysOk [Sample false (inject_Z 10); Advance (inject_Z 100);
                         Sample false (26 # 5); Advance (inject_Z 400)] st in
  map snd (timers scheduled) = [e0; e1]
  /\ elements (shownMessages scheduled) = []
  /\ feed (fst r) = [e0; e1; e1]
  /\ ~ In ClearShown (snd r).
Proof.
  vm_compute. repeat split; try reflexivity.
  intros H. repeat (destruct H as [H|H]; [discriminate H|]). exact H.
Qed.

(** ** The sink and the batches *)

Lemma same_frame_refl (st : State) : same_frame st st.
Proof. repeat split. Qed.

Lemma same_frame_trans (a b c : State) : same_frame a b -> same_frame b c -> same_frame a c.
Proof. unfold same_frame. intuition congruence. Qed.

Lemma same_frame_revealed (l : list Comment) (m : gset nat) (st : State) :
  same_frame st (revealed l m st).
Proof.
  repeat split. unfold revealed; simpl. destruct (messageList st); reflexivity.
Qed.

Lemma same_frame_adjusted (st st' : State) (c : Comment) :
  same_frame st st' -> adjusted st' c = adjusted st c.
Proof.
  intros (Hd & Hc & _ & Hv & _).
  unfold adjusted, getTimeOffset, calculateSmartDefaultOffset, lastChatTimestamp, chat_comments.
  rewrite Hd, Hc, Hv. reflexivity.
Qed.

Lemma same_frame_chat_comments (st st' : State) :
  same_frame st st' -> chat_comments st' = chat_comments st.
Proof. intros (Hd & _). unfold chat_comments. rewrite Hd. reflexivity. Qed.

Lemma revealed_nil (st : State) : revealed [] ∅ st = st.
Proof.
  destruct st as [d c ml sh v vd vi ls ia n ts]. unfold revealed; simpl.
  rewrite (left_id_L ∅ (∪)). destruct ml as [[p ch]|]; simpl; [|reflexivity].
  rewrite app_nil_r. reflexivity.
Qed.

Lemma revealed_revealed (l1 l2 : list Comment) (m1 m2 : gset nat) (st : State) :
  revealed l2 m2 (revealed l1 m1 st) = revealed (l1 ++ l2) (m2 ∪ m1) st.
Proof.
  unfold revealed; simpl. rewrite (assoc_L (∪)).
  destruct (messageList st); simpl; [|reflexivity].
  rewrite app_assoc. reflexivity.
Qed.

Lemma messageList_revealed (l : list Comment) (m : gset nat) (st : State) (ml : MessageList) :
  messageList st = Some ml ->
  messageList (revealed l m st) = Some (mkMessageList (parentNode ml) (children ml ++ l)).
Proof. intros H. unfold revealed; simpl. rewrite H. reflexivity. Qed.

Lemma feed_revealed (l : list Comment) (m : gset nat) (st : State) (ml : MessageList) :
  messageList st = Some ml -> feed (revealed l m st) = feed st ++ l.
Proof. intros H. unfold feed. rewrite (messageList_revealed _ _ _ _ H), H. reflexivity. Qed.

Lemma has_revealed (l : list Comment) (m : gset nat) (st : State) (c : Comment) :
  has (revealed l m st) c = bool_decide (ref c ∈ m) || has st c.
Proof.
  unfold has, revealed; simpl.
  rewrite <- bool_decide_or. apply bool_decide_ext. set_solver.
Qed.

Lemma refs_cons (c : Comment) (l : list Comment) : refs (c :: l) = {[ref c]} ∪ refs l.
Proof. reflexivity. Qed.

Lemma refs_app (l1 l2 : list Comment) : refs (l1 ++ l2) = refs l1 ∪ refs l2.
Proof. unfold refs. rewrite map_app. apply list_to_set_app_L. Qed.

Lemma elem_of_refs (r : nat) (l : list Comment) : r ∈ refs l <-> exists c, In c l /\ ref c = r.
Proof.
  unfold refs. rewrite elem_of_list_to_set, list_elem_of_In, in_map_iff.
  split; intros (c & H1 & H2); exists c; tauto.
Qed.

Section Sink.

Variable sinkOk : Comment -> bool.

(** What [showMessage] does when there is a feed. *)
Lemma showMessage_feed (c : Comment) (st : State) (ml : MessageList) :
  messageList st = Some ml ->
  showMessage sinkOk c st =
    if sinkOk c then (Normal, revealed [c] {[ref c]} st, [Append c])
    else (Throw, revealed [] {[ref c]} st, []).
Proof.
  intros H. unfold showMessage, revealed. rewrite H.
  destruct (sinkOk c); [reflexivity|].
  destruct st as [d cf m sh v vd vi ls ia n ts]; simpl in *. subst m.
  destruct ml as [p ch]; simpl. rewrite app_nil_r. reflexivity.
Qed.

(** Without a feed it warns and changes nothing. *)
Lemma showMessage_no_feed (c : Comment) (st : State) :
  messageList st = None -> showMessage sinkOk c st = (Normal, st, [ConsoleWarn]).
Proof. intros H. unfold showMessage. rewrite H. reflexivity. Qed.

Lemma forEach_showMessage_app (l1 l2 : list Comment) (st : State) :
  forEach_showMessage sinkOk (l1 ++ l2) st =
    match forEach_showMessage sinkOk l1 st with
    | (Normal, st1, e1) =>
        let '(o, st2, e2) := forEach_showMessage sinkOk l2 st1 in (o, st2, e1 ++ e2)
    | (Throw, st1, e1) => (Throw, st1, e1)
    end.
Proof.
  revert st. induction l1 as [|c l1 IH]; intros st; simpl.
  - destruct (forEach_showMessage sinkOk l2 st) as [[o s] e]. reflexivity.
  - destruct (showMessage sinkOk c st) as [[[|] s1] e1]; [|reflexivity].
    rewrite IH. destruct (forEach_showMessage sinkOk l1 s1) as [[[|] s2] e2]; [|reflexivity].
    destruct (forEach_showMessage sinkOk l2 s2) as [[o s3] e3].
    rewrite app_assoc. reflexivity.
Qed.

(** A batch whose comments all render is appended whole, in order. *)
Lemma forEach_showMessage_ok (l : list Comment) (st : State) (ml : MessageList) :
  messageList st = Some ml ->
  Forall (fun c => sinkOk c = true) l ->
  forEach_showMessage sinkOk l st = (Normal, revealed l (refs l) st, map Append l).
Proof.
  revert st ml. induction l as [|c l IH]; intros st ml Hml Hok; simpl.
  - rewrite revealed_nil. reflexivity.
  - inversion Hok as [|? ? Hc Hl]; subst.
    rewrite (showMessage_feed _ _ _ Hml), Hc.
    rewrite (IH _ _ (messageList_revealed _ _ _ _ Hml) Hl), revealed_revealed.
    rewrite refs_cons, (comm_L (∪) (refs l)). reflexivity.
Qed.

(** A batch stops at its first comment that does not render: the comments
    before it are appended, it is marked, nothing after it is touched. *)
Lemma forEach_showMessage_throw (l1 l2 : list Comment) (c : Comment) (st : State) (ml : MessageList) :
  messageList st = Some ml ->
  Forall (fun c => sinkOk c = true) l1 ->
  sinkOk c = false ->
  forEach_showMessage sinkOk (l1 ++ c :: l2) st
  = (Throw, revealed l1 ({[ref c]} ∪ refs l1) st, map Append l1).
Proof.
  intros Hml Hok Hc. rewrite forEach_showMessage_app, (forEach_showMessage_ok _ _ _ Hml Hok).
  simpl. rewrite (showMessage_feed _ _ _ (messageList_revealed _ _ _ _ Hml)), Hc.
  rewrite revealed_revealed, !app_nil_r. reflexivity.
Qed.

Lemma forEach_showMessage_no_feed (l : list Comment) (st : State) :
  messageList st = None ->
  forEach_showMessage sinkOk l st = (Normal, st, map (fun _ => ConsoleWarn) l).
Proof.
  intros H. induction l as [|c l IH]; simpl; [reflexivity|].
  rewrite (showMessage_no_feed _ _ H), IH. reflexivity.
Qed.

End Sink.

(** ** Seconds, references and selections *)

Lemma NoDup_ref_inj (cs : list Comment) (c c' : Comment) :
  NoDup (map ref cs) -> In c cs -> In c' cs -> ref c = ref c' -> c = c'.
Proof.
  induction cs as [|x cs IH]; simpl; [tauto|].
  intros Hnd Hc Hc' Href. inversion Hnd as [|? ? Hx Hnd']; subst.
  destruct Hc as [-> | Hc], Hc' as [-> | Hc'].
  - reflexivity.
  - exfalso. apply Hx, list_elem_of_In. rewrite Href. apply in_map, Hc'.
  - exfalso. apply Hx, list_elem_of_In. rewrite <- Href. apply in_map, Hc.
  - apply IH; assumption.
Qed.

Lemma flat_map_ext_In {A B : Type} (f g : A -> list B) (l : list A) :
  (forall a, In a l -> f a = g a) -> flat_map f l = flat_map g l.
Proof.
  induction l as [|a l IH]; intros H; simpl; [reflexivity|].
  rewrite (H a (or_introl eq_refl)), IH; [reflexivity|].
  intros b Hb. apply H. right. exact Hb.
Qed.

Lemma seconds_S (from : Z) (count : nat) :
  seconds from (S count) = from :: seconds (from + 1) count.
Proof.
  unfold seconds. simpl. rewrite Z.add_0_r. f_equal.
  rewrite <- seq_shift, map_map. apply map_ext. intros k. lia.
Qed.

Lemma In_seconds (from : Z) (count : nat) (s : Z) :
  In s (seconds from count) <-> from <= s < from + Z.of_nat count.
Proof.
  unfold seconds. rewrite in_map_iff. split.
  - intros (k & <- & Hk). apply in_seq in Hk. lia.
  - intros H. exists (Z.to_nat (s - from)). split; [lia|]. apply in_seq. lia.
Qed.

Lemma In_missedComments (sec : Z) (cs : list Comment) (st : State) (c : Comment) :
  In c (missedComments sec cs st) <->
  In c cs /\ eq_second (adjusted st c) sec = true /\ has st c = false.
Proof.
  unfold missedComments. rewrite filter_In, andb_true_iff, negb_true_iff. tauto.
Qed.

(** Marking comments of second [sec] does not change what a backfill
    selects at another second: references identify comments. *)
Lemma missedComments_revealed (sec s : Z) (cs l : list Comment) (st : State) :
  NoDup (map ref cs) -> s <> sec ->
  missedComments s cs (revealed l (refs (missedComments sec cs st)) st)
  = missedComments s cs st.
Proof.
  intros Hnd Hs. unfold missedComments at 1 3. apply filter_ext_in. intros c Hc.
  rewrite (same_frame_adjusted _ _ _ (same_frame_revealed _ _ _)), has_revealed.
  destruct (eq_second (adjusted st c) s) eqn:E; [|reflexivity]. simpl. f_equal.
  destruct (bool_decide (ref c ∈ refs (missedComments sec cs st))) eqn:D; [|reflexivity].
  exfalso. apply bool_decide_eq_true in D. apply elem_of_refs in D as (c' & Hin & Href).
  apply In_missedComments in Hin as (Hin & E' & _).
  rewrite (NoDup_ref_inj cs c' c Hnd Hin Hc Href) in E'.
  apply Hs. exact (eq_second_unique _ _ _ E E').
Qed.

Lemma NoDup_ref_later (cs : list Comment) (i : nat) (c c' : Comment) :
  NoDup (map ref cs) -> cs !! i = Some c -> In c' (skipn (S i) cs) -> ref c' <> ref c.
Proof.
  intros Hnd Hi Hc' Href.
  rewrite <- (take_drop_middle cs i c Hi), map_app in Hnd. simpl in Hnd.
  apply NoDup_app in Hnd as (_ & _ & Hnd). inversion Hnd as [|? ? Hx _]; subst.
  apply Hx, list_elem_of_In. rewrite <- Href. apply in_map, Hc'.
Qed.

(** ** The immediate backfills are one batch *)

Section Batches.

Variable sinkOk : Comment -> bool.

Lemma first_failure (l : list Comment) :
  Forall (fun c => sinkOk c = true) l \/
  exists l1 c l2, l = l1 ++ c :: l2 /\ Forall (fun c => sinkOk c = true) l1 /\ sinkOk c = false.
Proof.
  induction l as [|c l IH]; [left; constructor|].
  destruct (sinkOk c) eqn:Hc.
  - destruct IH as [IH | (l1 & c' & l2 & -> & H1 & H2)].
    + left. constructor; assumption.
    + right. exists (c :: l1), c', l2. repeat split; [constructor|]; assumption.
  - right. exists [], c, l. repeat split; [constructor | assumption].
Qed.

(** The loop of [showMissedMessages] is one batch over the comments
    selected in the state it starts from. *)
Lemma missedLoop_batch (cs : list Comment) (count : nat) (sec : Z) (st : State) (ml : MessageList) :
  NoDup (map ref cs) ->
  messageList st = Some ml ->
  missedLoop sinkOk count sec cs st
  = forEach_showMessage sinkOk
      (flat_map (fun s => missedComments s cs st) (seconds sec count)) st.
Proof.
  intros Hnd. revert sec st ml. induction count as [|k IH]; intros sec st ml Hml.
  - reflexivity.
  - rewrite seconds_S. simpl flat_map. simpl missedLoop.
    rewrite forEach_showMessage_app.
    destruct (first_failure (missedComments sec cs st))
      as [Hok | (l1 & c & l2 & Heq & Hok & Hc)].
    + rewrite (forEach_showMessage_ok _ _ _ _ Hml Hok).
      rewrite (IH _ _ _ (messageList_revealed _ _ _ _ Hml)).
      rewrite (flat_map_ext_In
                 (fun s => missedComments s cs (revealed (missedComments sec cs st)
                                                  (refs (missedComments sec cs st)) st))
                 (fun s => missedComments s cs st)); [reflexivity|].
      intros s Hs. apply In_seconds in Hs.
      apply missedComments_revealed; [exact Hnd | lia].
    + rewrite Heq, (forEach_showMessage_throw _ _ _ _ _ _ Hml Hok Hc). reflexivity.
Qed.

Lemma showMissedMessages_batch (from to : Z) (cs : list Comment) (st : State) (ml : MessageList) :
  chat_comments st = Some cs ->
  NoDup (map ref cs) ->
  messageList st = Some ml ->
  showMissedMessages sinkOk from to st
  = try_catch InShowMissedMessages (forEach_showMessage sinkOk (missedBatch from to cs st) st).
Proof.
  intros Hcs Hnd Hml. unfold showMissedMessages, missedBatch. rewrite Hcs.
  rewrite (missedLoop_batch _ _ _ _ _ Hnd Hml). reflexivity.
Qed.

(** The loop of [showPreviousMessages] is one batch over the not yet
    revealed comments of its index range. *)
Lemma previousLoop_batch (cs : list Comment) (count i : nat) (st : State) (ml : MessageList) :
  NoDup (map ref cs) ->
  messageList st = Some ml ->
  previousLoop sinkOk count i cs st
  = forEach_showMessage sinkOk
      (List.filter (fun c => negb (has st c)) (firstn count (skipn i cs))) st.
Proof.
  intros Hnd. revert i st ml. induction count as [|k IH]; intros i st ml Hml.
  - reflexivity.
  - simpl previousLoop. destruct (cs !! i) as [c|] eqn:Hi.
    + rewrite (drop_S _ _ _ Hi). simpl firstn. simpl List.filter.
      destruct (has st c) eqn:Hhas; simpl negb; cbv iota.
      * rewrite (IH _ _ _ Hml).
        destruct (forEach_showMessage sinkOk _ st) as [[o s] e]. reflexivity.
      * simpl forEach_showMessage.
        rewrite (showMessage_feed _ _ _ _ Hml). destruct (sinkOk c); [|reflexivity].
        rewrite (IH _ _ _ (messageList_revealed _ _ _ _ Hml)).
        rewrite (filter_ext_in (fun c0 => negb (has (revealed [c] {[ref c]} st) c0))
                   (fun c0 => negb (has st c0))); [reflexivity|].
        intros c' Hc'. rewrite has_revealed.
        assert (bool_decide (ref c' ∈ ({[ref c]} : gset nat)) = false) as ->; [|reflexivity].
        apply bool_decide_eq_false. rewrite elem_of_singleton.
        apply (NoDup_ref_later cs i c c' Hnd Hi).
        apply list_elem_of_In in Hc'. apply elem_of_take in Hc' as (j & Hj & _).
        apply list_elem_of_In. exact (list_elem_of_lookup_2 _ _ _ Hj).
    + rewrite (IH _ _ _ Hml).
      apply lookup_ge_None in Hi.
      rewrite !drop_ge by lia. rewrite !take_nil. reflexivity.
Qed.

Lemma showPreviousMessages_batch (second : Z) (cs : list Comment) (st : State) (ml : MessageList) :
  chat_comments st = Some cs ->
  NoDup (map ref cs) ->
  messageList st = Some ml ->
  showPreviousMessages sinkOk second st
  = try_catch InShowPreviousMessages
      (forEach_showMessage sinkOk (previousBatch second cs st) st).
Proof.
  intros Hcs Hnd Hml. unfold showPreviousMessages, previousBatch. rewrite Hcs.
  destruct (findIndex _ (rev cs)) as [firstIdx|]; [|reflexivity].
  rewrite (previousLoop_batch _ _ _ _ _ Hnd Hml). reflexivity.
Qed.

End Batches.

(** ** What a reveal can touch *)

Lemma footprint_refl (P : Comment -> Prop) (st : State) : footprint P st st [].
Proof. split; [apply same_frame_refl|]. split; [tauto | constructor]. Qed.

Lemma footprint_trans (P : Comment -> Prop) (a b c : State) (e1 e2 : list Effect) :
  footprint P a b e1 -> footprint P b c e2 -> footprint P a c (e1 ++ e2).
Proof.
  intros (F1 & I1 & E1) (F2 & I2 & E2). split; [exact (same_frame_trans _ _ _ F1 F2)|].
  split; [|apply Forall_app; split; assumption].
  intros x Hx. destruct (I2 x Hx) as [H|H]; [apply I1, H | right; exact H].
Qed.

Lemma footprint_weaken (P Q : Comment -> Prop) (a b : State) (e : list Effect) :
  (forall x, P x -> Q x) -> footprint P a b e -> footprint Q a b e.
Proof.
  intros HPQ (F & I & E). split; [exact F|]. split; [|exact E].
  intros x Hx. destruct (I x Hx) as [H|H]; [left | right; apply HPQ]; exact H.
Qed.

Lemma footprint_logged (P : Comment -> Prop) (a b : State) (e : list Effect) (site : Site) :
  footprint P a b e -> footprint P a b (e ++ [ConsoleError site]).
Proof.
  intros H. rewrite <- (app_nil_r e) in H.
  destruct H as (F & I & E). split; [exact F|]. split; [exact I|].
  apply Forall_app in E as [E _]. apply Forall_app. split; [exact E|].
  constructor; [reflexivity | constructor].
Qed.

Lemma clearShownAndFeed_footprint (P : Comment -> Prop) (st : State) :
  footprint P st (fst (clearShownAndFeed st)) (snd (clearShownAndFeed st)).
Proof.
  unfold clearShownAndFeed; simpl. destruct (messageList st) as [ml|] eqn:Hml; simpl.
  - split; [|split].
    + repeat split. simpl. rewrite Hml. reflexivity.
    + unfold feed; simpl. tauto.
    + repeat constructor.
  - split; [|split].
    + repeat split.
    + unfold feed; simpl. rewrite Hml. tauto.
    + repeat constructor.
Qed.

Section Footprints.

Variable sinkOk : Comment -> bool.

Lemma showMessage_footprint (c : Comment) (st st1 : State) (o : outcome) (e : list Effect) :
  showMessage sinkOk c st = (o, st1, e) -> footprint (eq c) st st1 e.
Proof.
  destruct (messageList st) as [ml|] eqn:Hml.
  - rewrite (showMessage_feed _ _ _ _ Hml). destruct (sinkOk c); intros [= <- <- <-].
    + split; [apply same_frame_revealed|]. split; [|repeat constructor].
      intros x. rewrite (feed_revealed _ _ _ _ Hml), in_app_iff. simpl. tauto.
    + split; [apply same_frame_revealed|]. split; [|constructor].
      intros x. rewrite (feed_revealed _ _ _ _ Hml), in_app_iff. simpl. tauto.
  - rewrite (showMessage_no_feed _ _ _ Hml). intros [= <- <- <-].
    split; [apply same_frame_refl|]. split; [tauto | repeat constructor].
Qed.

Lemma forEach_showMessage_footprint (l : list Comment) (st st1 : State) (o : outcome) (e : list Effect) :
  forEach_showMessage sinkOk l st = (o, st1, e) -> footprint (fun x => In x l) st st1 e.
Proof.
  revert st st1 o e. induction l as [|c l IH]; intros st st1 o e; simpl.
  - intros [= <- <- <-]. apply footprint_refl.
  - destruct (showMessage sinkOk c st) as [[[|] s1] e1] eqn:Hshow.
    + destruct (forEach_showMessage sinkOk l s1) as [[o2 s2] e2] eqn:Hrest.
      intros [= <- <- <-]. apply footprint_trans with s1.
      * apply (footprint_weaken (eq c)); [intros x <-; left; reflexivity|].
        exact (showMessage_footprint _ _ _ _ _ Hshow).
      * apply (footprint_weaken (fun x => In x l)); [intros x Hx; right; exact Hx|].
        exact (IH _ _ _ _ Hrest).
    + intros [= <- <- <-].
      apply (footprint_weaken (eq c)); [intros x <-; left; reflexivity|].
      exact (showMessage_footprint _ _ _ _ _ Hshow).
Qed.

Lemma previousLoop_footprint (cs : list Comment) (count i : nat) (st st1 : State)
    (o : outcome) (e : list Effect) :
  previousLoop sinkOk count i cs st = (o, st1, e) -> footprint (fun x => In x cs) st st1 e.
Proof.
  revert i st st1 o e. induction count as [|k IH]; intros i st st1 o e; simpl.
  - intros [= <- <- <-]. apply footprint_refl.
  - assert (forall ob sb eb,
              match cs !! i with
              | Some comment =>
                  if has st comment then (Normal, st, []) else showMessage sinkOk comment st
              | None => (Normal, st, [])
              end = (ob, sb, eb) -> footprint (fun x => In x cs) st sb eb) as Hbody.
    { intros ob sb eb. destruct (cs !! i) as [c|] eqn:Hi.
      - destruct (has st c).
        + intros [= <- <- <-]. apply footprint_refl.
        + intros Hshow. apply (footprint_weaken (eq c)).
          * intros x <-. apply list_elem_of_In. exact (list_elem_of_lookup_2 _ _ _ Hi).
          * exact (showMessage_footprint _ _ _ _ _ Hshow).
      - intros [= <- <- <-]. apply footprint_refl. }
    destruct (match cs !! i with Some _ => _ | None => _ end) as [[[|] s1] e1] eqn:Hb.
    + destruct (previousLoop sinkOk k (S i) cs s1) as [[o2 s2] e2] eqn:Hrest.
      intros [= <- <- <-]. apply footprint_trans with s1.
      * exact (Hbody _ _ _ eq_refl).
      * exact (IH _ _ _ _ _ Hrest).
    + intros [= <- <- <-]. exact (Hbody _ _ _ eq_refl).
Qed.

(** The backfill of missed seconds only appends comments whose adjusted
    timestamp is exactly an integer second. *)
Lemma missedLoop_footprint (cs : list Comment) (count : nat) (sec : Z) (st st1 : State)
    (o : outcome) (e : list Effect) :
  missedLoop sinkOk count sec cs st = (o, st1, e) ->
  footprint (fun x => exists s, eq_second (adjusted st x) s = true) st st1 e.
Proof.
  revert sec st st1 o e. induction count as [|k IH]; intros sec st st1 o e; simpl.
  - intros [= <- <- <-]. apply footprint_refl.
  - destruct (forEach_showMessage sinkOk (missedComments sec cs st) st) as [[[|] s1] e1] eqn:Hb.
    + destruct (missedLoop sinkOk k (sec + 1) cs s1) as [[o2 s2] e2] eqn:Hrest.
      intros [= <- <- <-].
      pose proof (forEach_showMessage_footprint _ _ _ _ _ Hb) as F1.
      apply footprint_trans with s1.
      * apply (footprint_weaken _ _ _ _ _ (fun x Hx => ex_intro _ sec
                 (proj1 (proj2 (proj1 (In_missedComments _ _ _ _) Hx)))) F1).
      * apply (footprint_weaken (fun x => exists s, eq_second (adjusted s1 x) s = true)).
        -- intros x (s & Hs). exists s.
           rewrite <- (same_frame_adjusted st s1 x (proj1 F1)). exact Hs.
        -- exact (IH _ _ _ _ _ Hrest).
    + intros [= <- <- <-].
      apply (footprint_weaken _ _ _ _ _ (fun x Hx => ex_intro _ sec
               (proj1 (proj2 (proj1 (In_missedComments _ _ _ _) Hx))))
               (forEach_showMessage_footprint _ _ _ _ _ Hb)).
Qed.

Lemma try_catch_footprint (P : Comment -> Prop) (site : Site) (st : State)
    (r : outcome * State * list Effect) :
  (forall o st1 e, r = (o, st1, e) -> footprint P st st1 e) ->
  footprint P st (fst (try_catch site r)) (snd (try_catch site r)).
Proof.
  destruct r as [[[|] st1] e]; intros H; simpl.
  - exact (H _ _ _ eq_refl).
  - apply footprint_logged. exact (H _ _ _ eq_refl).
Qed.

Lemma showPreviousMessages_footprint (second : Z) (st : State) :
  footprint (fun _ => True) st
    (fst (showPreviousMessages sinkOk second st)) (snd (showPreviousMessages sinkOk second st)).
Proof.
  unfold showPreviousMessages. destruct (chat_comments st) as [cs|]; simpl.
  - apply try_catch_footprint. intros o st1 e.
    destruct (findIndex _ (rev cs)) as [firstIdx|].
    + intros H. apply (footprint_weaken (fun x => In x cs)); [tauto|].
      exact (previousLoop_footprint _ _ _ _ _ _ _ H).
    + intros [= <- <- <-]. apply footprint_refl.
  - split; [apply same_frame_refl|]. split; [tauto | repeat constructor].
Qed.

Lemma showMissedMessages_footprint (from to : Z) (st : State) :
  footprint (fun x => exists s, eq_second (adjusted st x) s = true) st
    (fst (showMissedMessages sinkOk from to st)) (snd (showMissedMessages sinkOk from to st)).
Proof.
  unfold showMissedMessages. destruct (chat_comments st) as [cs|]; simpl.
  - apply try_catch_footprint. intros o st1 e H.
    exact (missedLoop_footprint _ _ _ _ _ _ _ H).
  - split; [apply same_frame_refl|]. split; [tauto | repeat constructor].
Qed.

Lemma recover_footprint (currentSecond : Z) (st : State) :
  footprint (fun _ => True) st
    (fst (recover sinkOk currentSecond st)) (snd (recover sinkOk currentSecond st)).
Proof.
  unfold recover. destruct (_ <? _).
  - pose proof (clearShownAndFeed_footprint (fun _ => True) st) as F1.
    destruct (clearShownAndFeed st) as [s1 e1]; simpl in F1.
    pose proof (showPreviousMessages_footprint currentSecond s1) as F2.
    destruct (showPreviousMessages sinkOk currentSecond s1) as [s2 e2]; simpl in *.
    exact (footprint_trans _ _ _ _ _ _ F1 F2).
  - destruct (_ <? _).
    + apply (footprint_weaken (fun x => exists s, eq_second (adjusted st x) s = true)); [tauto|].
      apply showMissedMessages_footprint.
    + apply footprint_refl.
Qed.

End Footprints.

(** ** Scheduling and firing *)

Lemma set_timers_id (st : State) : set_timers (timers st) st = st.
Proof. destruct st; reflexivity. Qed.

Lemma enqueue_last (t : Q * Comment) (queue : list (Q * Comment)) :
  Forall (fun u => (fst u <= fst t)%Q) queue -> enqueue t queue = queue ++ [t].
Proof.
  induction queue as [|u queue IH]; intros H; simpl; [reflexivity|].
  inversion H as [|? ? Hu Hq]; subst.
  apply Qle_bool_iff in Hu. rewrite Hu, (IH Hq). reflexivity.
Qed.

Lemma In_enqueue (t u : Q * Comment) (queue : list (Q * Comment)) :
  In u (enqueue t queue) <-> u = t \/ In u queue.
Proof.
  induction queue as [|v queue IH]; simpl; [intuition congruence|].
  destruct (Qle_bool (fst v) (fst t)); simpl; [rewrite IH|]; intuition congruence.
Qed.

Lemma staggerDelay_mono (i j count : nat) :
  (i <= j)%nat -> (staggerDelay i count <= staggerDelay j count)%Q.
Proof.
  intros H. unfold staggerDelay, Qdiv. apply Qmult_le_compat_r.
  - rewrite <- Zle_Qle. lia.
  - apply Qinv_le_0_compat. replace 0%Q with (inject_Z 0) by reflexivity.
    rewrite <- Zle_Qle. lia.
Qed.

Lemma scheduleEach_eq (count idx : nat) (cs : list Comment) (st : State) :
  scheduleEach count idx cs st
  = (set_timers (fold_left (fun q t => enqueue t q) (stagger count idx cs (now st)) (timers st)) st,
     staggerEffects count idx cs).
Proof.
  revert idx st. induction cs as [|c cs IH]; intros idx st; simpl.
  - rewrite set_timers_id. reflexivity.
  - rewrite IH. reflexivity.
Qed.

Lemma fold_enqueue_stagger (count idx : nat) (cs : list Comment) (clock : Q)
    (queue : list (Q * Comment)) :
  Forall (fun u => (fst u <= clock + staggerDelay idx count)%Q) queue ->
  fold_left (fun q t => enqueue t q) (stagger count idx cs clock) queue
  = queue ++ stagger count idx cs clock.
Proof.
  revert idx queue. induction cs as [|c cs IH]; intros idx queue H; simpl.
  - rewrite app_nil_r. reflexivity.
  - rewrite (enqueue_last ((clock + staggerDelay idx count)%Q, c) queue H), IH.
    + rewrite <- app_assoc. reflexivity.
    + apply Forall_app. split.
      * eapply Forall_impl; [exact H|]. intros u Hu; simpl in *.
        eapply Qle_trans; [exact Hu|]. apply Qplus_le_r, staggerDelay_mono. lia.
      * constructor; [|constructor]. simpl. apply Qplus_le_r, staggerDelay_mono. lia.
Qed.

Lemma In_fold_enqueue (ts queue : list (Q * Comment)) (u : Q * Comment) :
  In u (fold_left (fun q t => enqueue t q) ts queue) <-> In u ts \/ In u queue.
Proof.
  revert queue. induction ts as [|t ts IH]; intros queue; simpl; [tauto|].
  rewrite IH, In_enqueue. intuition congruence.
Qed.

Lemma In_stagger (count idx : nat) (cs : list Comment) (clock : Q) (u : Q * Comment) :
  In u (stagger count idx cs clock) -> In (snd u) cs.
Proof.
  revert idx. induction cs as [|c cs IH]; intros idx; simpl; [tauto|].
  intros [<- | H]; [left; reflexivity | right; exact (IH _ H)].
Qed.

Lemma due_stagger (dt clock : Q) (count idx : nat) (cs : list Comment) :
  map snd (List.filter (isDue (clock + dt)) (stagger count idx cs clock))
  = elapsed dt count idx cs.
Proof.
  revert idx. induction cs as [|c cs IH]; intros idx; simpl; [reflexivity|].
  unfold isDue at 1; simpl.
  assert (Qle_bool (clock + staggerDelay idx count) (clock + dt)
          = Qle_bool (staggerDelay idx count) dt) as ->.
  { destruct (Qle_bool (staggerDelay idx count) dt) eqn:E.
    - apply Qle_bool_iff. apply Qplus_le_r. apply Qle_bool_iff, E.
    - destruct (Qle_bool (clock + _) _) eqn:E'; [|reflexivity].
      apply Qle_bool_iff, Qplus_le_r, Qle_bool_iff in E'. congruence. }
  destruct (Qle_bool (staggerDelay idx count) dt); simpl; rewrite IH; reflexivity.
Qed.

Lemma elapsed_sublist (dt : Q) (count idx : nat) (cs : list Comment) :
  elapsed dt count idx cs `sublist_of` cs.
Proof.
  revert idx. induction cs as [|c cs IH]; intros idx; simpl; [constructor|].
  destruct (Qle_bool _ dt); [apply sublist_skip | apply sublist_cons]; apply IH.
Qed.

Lemma filter_sublist {A : Type} (p : A -> bool) (l : list A) : List.filter p l `sublist_of` l.
Proof.
  induction l as [|x l IH]; simpl; [constructor|].
  destruct (p x); [apply sublist_skip | apply sublist_cons]; exact IH.
Qed.

Section Firing.

Variable sinkOk : Comment -> bool.

(** Every due timer fires, whatever the sink does for the others. *)
Lemma fireEach_feed (l : list Comment) (st : State) (ml : MessageList) :
  messageList st = Some ml ->
  fireEach sinkOk l st = (revealed (List.filter sinkOk l) (refs l) st, fireEffects sinkOk l).
Proof.
  revert st ml. induction l as [|c l IH]; intros st ml Hml; simpl.
  - rewrite revealed_nil. reflexivity.
  - unfold fireTimer. rewrite (showMessage_feed _ _ _ _ Hml).
    destruct (sinkOk c); rewrite (IH _ _ (messageList_revealed _ _ _ _ Hml)),
      revealed_revealed, refs_cons, (comm_L (∪) (refs l)); reflexivity.
Qed.

End Firing.

(** ** The forward tick *)

Lemma showCurrentSecondMessages_eq (currentSecond : Z) (st : State) (cs : list Comment) :
  chat_comments st = Some cs ->
  let selected := commentsThisSecond currentSecond cs st in
  showCurrentSecondMessages currentSecond st
  = (set_timers (fold_left (fun q t => enqueue t q)
                   (stagger (length selected) 0 selected (now st)) (timers st)) st,
     staggerEffects (length selected) 0 selected).
Proof.
  intros Hcs selected. unfold showCurrentSecondMessages. rewrite Hcs.
  apply scheduleEach_eq.
Qed.

Lemma In_elapsed (dt : Q) (count idx : nat) (cs : list Comment) (c : Comment) :
  In c (elapsed dt count idx cs) -> In c cs.
Proof.
  revert idx. induction cs as [|x cs IH]; intros idx; simpl; [tauto|].
  destruct (Qle_bool _ dt); simpl; [intros [H|H]; [left; exact H|]|intros H];
    right; exact (IH _ H).
Qed.

Lemma filter_all {A : Type} (p : A -> bool) (l : list A) :
  (forall x, In x l -> p x = true) -> List.filter p l = l.
Proof.
  induction l as [|x l IH]; intros H; simpl; [reflexivity|].
  rewrite (H x (or_introl eq_refl)), IH; [reflexivity|].
  intros y Hy. apply H. right. exact Hy.
Qed.

Lemma sampleTick_forward (sinkOk : Comment -> bool) (t : Q) (st : State) :
  video st = true ->
  Qfloor t = lastSecond st + 1 ->
  sampleTick sinkOk false t st
  = (fst (showCurrentSecondMessages (Qfloor t) (set_lastSecond (Qfloor t) st)),
     SetLastSecond (Qfloor t)
       :: snd (showCurrentSecondMessages (Qfloor t) (set_lastSecond (Qfloor t) st))).
Proof.
  intros Hv Hs. unfold sampleTick, recover. rewrite Hv; simpl negb; simpl orb; cbv iota.
  assert ((Qfloor t =? lastSecond st) = false) as -> by (apply Z.eqb_neq; lia).
  replace (Qfloor t - lastSecond st) with 1 by lia.
  change (CONSTANTS.SKIP_THRESHOLD <? Z.abs 1) with false.
  change (1 <? Z.abs 1) with false. cbv iota.
  destruct (showCurrentSecondMessages _ _) as [s e]. reflexivity.
Qed.

Lemma eq_second_iff (a : double) (s : Z) :
  eq_second a s = true <-> exists q, value a = Some q /\ (q == inject_Z s)%Q.
Proof.
  split; [apply eq_second_inv|]. intros (q & Hv & Hq). unfold eq_second. rewrite Hv.
  apply Qeq_bool_iff, Hq.
Qed.

(** C7.  On a forward tick by exactly one second, the comments that get a
    timer are the not yet revealed comments of the log whose adjusted
    timestamp is the new second, in log order; the [i]-th (from 0) of these
    [n] comments gets a timer of [i * 1000 / n] ms, that is [i / n] of a
    second (0, 250, 500 and 750 ms for four comments); nothing is appended
    by the tick itself, and, the sink permitting, [dt] ms later the feed
    has grown by exactly the comments whose delay has elapsed, in log
    order. *)
Theorem forward_tick_staggers_reveals
    (sinkOk : Comment -> bool) (st : State) (t : Q) (cs : list Comment) :
  video st = true ->
  Qfloor t = lastSecond st + 1 ->
  chat_comments st = Some cs ->
  let sel :=
    List.filter (fun c => eq_second (adjusted st c) (Qfloor t) && negb (has st c)) cs in
  let n := length sel in
  let r := sampleTick sinkOk false t st in
  (forall c, In c sel <->
     In c cs /\ (ref c ∉ shownMessages st)
     /\ exists q, value (adjusted st c) = Some q /\ (q == inject_Z (Qfloor t))%Q)
  /\ sel `sublist_of` cs
  /\ snd r = SetLastSecond (Qfloor t) :: staggerEffects n 0 sel
  /\ (forall i : nat, (i < n)%nat ->
        (staggerDelay i n / inject_Z 1000 == inject_Z (Z.of_nat i) / inject_Z (Z.of_nat n))%Q)
  /\ Forall2 Qeq (map (fun i => staggerDelay i 4) [0; 1; 2; 3]%nat)
       [inject_Z 0; inject_Z 250; inject_Z 500; inject_Z 750]
  /\ feed (fst r) = feed st
  /\ (timers st = [] -> timers (fst r) = stagger n 0 sel (now st))
  /\ (timers st = [] -> messageList st <> None ->
      (forall c, In c sel -> sinkOk c = true) ->
      forall dt : Q,
        feed (fst (advance sinkOk dt (fst r))) = feed st ++ elapsed dt n 0 sel
        /\ elapsed dt n 0 sel `sublist_of` cs).
Proof.
  intros Hv Hs Hcs sel n r.
  assert (r = (set_timers (fold_left (fun q t => enqueue t q)
                             (stagger n 0 sel (now st)) (timers st))
                 (set_lastSecond (Qfloor t) st),
               SetLastSecond (Qfloor t) :: staggerEffects n 0 sel)) as Hr.
  { unfold r. rewrite (sampleTick_forward _ _ _ Hv Hs).
    rewrite (showCurrentSecondMessages_eq (Qfloor t) (set_lastSecond (Qfloor t) st) cs Hcs).
    reflexivity. }
  rewrite Hr; simpl fst; simpl snd.
  split; [|split; [apply filter_sublist|]].
  { intros c. unfold sel. rewrite filter_In, andb_true_iff, negb_true_iff, eq_second_iff.
    unfold has. rewrite bool_decide_eq_false. tauto. }
  split; [reflexivity|]. split; [|split; [|split; [reflexivity|split]]].
  - intros i Hi. unfold staggerDelay. rewrite inject_Z_mult. field.
    replace 0%Q with (inject_Z 0) by reflexivity. rewrite inject_Z_injective. lia.
  - repeat constructor.
  - intros Ht. simpl. rewrite Ht. apply (fold_enqueue_stagger n 0 sel (now st) []). constructor.
  - intros Ht Hml Hok dt. split.
    + destruct (messageList st) as [ml|] eqn:Eml; [|contradiction].
      unfold advance. simpl timers. simpl now. rewrite Ht.
      rewrite (fold_enqueue_stagger n 0 sel (now st) []) by constructor. simpl app.
      rewrite due_stagger.
      rewrite (fireEach_feed sinkOk _ _ ml) by exact Eml. simpl fst.
      rewrite (feed_revealed _ _ _ ml) by exact Eml.
      rewrite (filter_all sinkOk); [reflexivity|].
      intros c Hc. apply Hok. exact (In_elapsed _ _ _ _ _ Hc).
    + transitivity sel; [apply elapsed_sublist | apply filter_sublist].
Qed.

Lemma showCurrentSecondMessages_only_timers (currentSecond : Z) (st : State) :
  exists T, fst (showCurrentSecondMessages currentSecond st) = set_timers T st
    /\ (forall u, In u T ->
          In u (timers st) \/
          (eq_second (adjusted st (snd u)) currentSecond = true /\ has st (snd u) = false))
    /\ Forall (fun e => deferred e = true) (snd (showCurrentSecondMessages currentSecond st)).
Proof.
  destruct (chat_comments st) as [cs|] eqn:Hcs.
  - rewrite (showCurrentSecondMessages_eq _ _ _ Hcs). simpl. eexists. split; [reflexivity|].
    split.
    + intros u Hu. apply In_fold_enqueue in Hu as [Hu | Hu]; [right | left; exact Hu].
      apply In_stagger in Hu. unfold commentsThisSecond in Hu.
      apply filter_In in Hu as [_ Hu]. apply andb_true_iff in Hu as [H1 H2].
      split; [exact H1 | apply negb_true_iff, H2].
    + generalize (length (commentsThisSecond currentSecond cs st)), 0%nat.
      induction (commentsThisSecond currentSecond cs st) as [|c l IH]; intros n i; simpl;
        constructor; [reflexivity | apply IH].
  - unfold showCurrentSecondMessages. rewrite Hcs. simpl. exists (timers st).
    rewrite set_timers_id. split; [reflexivity|]. split; [tauto | constructor].
Qed.

Lemma fractional_never_at_second (st : State) (c : Comment) (s : Z) :
  fractional st c -> eq_second (adjusted st c) s = false.
Proof.
  intros (q & Hq & Hz). unfold eq_second. rewrite Hq. apply Qeq_bool_false, Hz.
Qed.

(** ** Comments between two seconds *)

(** C10.  A comment whose adjusted timestamp, the sum the engine
    computes, is a number that is not an integer is never revealed by the
    forward-tick path or by the small-jump backfill: no transition gives it
    a timer, and a transition over at most 15 seconds does not append it,
    since both paths compare the adjusted timestamp to an integer second
    with [===].  The previous-messages path of a large jump can reveal
    such a comment. *)
Theorem fractional_comment_only_revealed_by_large_jump
    (sinkOk : Comment -> bool) (st : State) (paused : bool) (t : Q) (c : Comment) :
  fractional st c ->
  let st1 := fst (sampleTick sinkOk paused t st) in
  (Z.abs (Qfloor t - lastSecond st) <= CONSTANTS.SKIP_THRESHOLD ->
   In c (feed st1) -> In c (feed st))
  /\ (forall due, In (due, c) (timers st1) -> In (due, c) (timers st))
  /\ (exists (st' : State) (t' : Q) (c' : Comment),
        fractional st' c' /\ ~ In c' (feed st') /\
        In c' (feed (fst (sampleTick alwaysOk false t' st')))).
Proof.
  intros Hfrac st1. split; [|split].
  - intros Habs. unfold st1, sampleTick. destruct (negb (video st) || paused); [tauto|].
    destruct (Qfloor t =? lastSecond st); [tauto|].
    assert (footprint (fun x => exists s, eq_second (adjusted st x) s = true) st
              (fst (recover sinkOk (Qfloor t) st)) (snd (recover sinkOk (Qfloor t) st))) as F.
    { unfold recover. apply Z.ltb_ge in Habs. rewrite Habs.
      destruct (1 <? Z.abs (Qfloor t - lastSecond st));
        [apply showMissedMessages_footprint | apply footprint_refl]. }
    destruct (recover sinkOk (Qfloor t) st) as [s1 e1]; simpl in F.
    destruct (showCurrentSecondMessages_only_timers (Qfloor t) (set_lastSecond (Qfloor t) s1))
      as (T & HT & _).
    destruct (showCurrentSecondMessages _ _) as [s3 e3]; simpl in *. subst s3.
    intros Hin. destruct F as (_ & I & _). destruct (I c Hin) as [H | (s & Hs)]; [exact H|].
    rewrite (fractional_never_at_second _ _ s Hfrac) in Hs. discriminate Hs.
  - unfold st1, sampleTick. destruct (negb (video st) || paused); [tauto|].
    destruct (Qfloor t =? lastSecond st); [tauto|].
    pose proof (recover_footprint sinkOk (Qfloor t) st) as (F & _ & _).
    destruct (recover sinkOk (Qfloor t) st) as [s1 e1]; simpl in F.
    destruct (showCurrentSecondMessages_only_timers (Qfloor t) (set_lastSecond (Qfloor t) s1))
      as (T & HT & HIn & _).
    destruct (showCurrentSecondMessages _ _) as [s3 e3]; simpl in *. subst s3.
    intros due Hdue. simpl in Hdue.
    destruct (HIn _ Hdue) as [H | [H _]].
    + destruct F as (_ & _ & _ & _ & _ & _ & _ & _ & Ht & _). rewrite Ht. exact H.
    + simpl in H.
      change (adjusted (set_lastSecond (Qfloor t) s1) c) with (adjusted s1 c) in H.
      rewrite (same_frame_adjusted st s1 c F) in H.
      rewrite (fractional_never_at_second _ _ _ Hfrac) in H. discriminate H.
  - exists (tracking [mkComment 0 (decimal 1 2); at_second 1 300] 0 (-1)), (inject_Z 100),
      (mkComment 0 (decimal 1 2)).
    split; [|split].
    + exists (4503599627370496 # 9007199254740992)%Q. split; [vm_compute; reflexivity|].
      intros z. unfold Qeq. cbn [Qnum Qden inject_Z]. lia.
    + simpl. tauto.
    + vm_compute. left. reflexivity.
Qed.

(** What counts is the sum as the engine computes it.  The timestamp
    10.00000000000001 is not an integer, but under the offset 900 the sum
    rounds to 910: the comment is at second 910 and the forward tick to
    that second gives it a timer.  Under the offset 0 it is at no second. *)
Lemma rounded_sum_is_at_a_second :
  let c := mkComment 0 (decimal 1000000000000001 100000000000000) in
  let st := tracking [c] 900 909 in
  eq_second (adjusted st c) 910 = true
  /\ snd (sampleTick alwaysOk false (inject_Z 910) st)
     = [SetLastSecond 910; SetTimeout c (staggerDelay 0 1)]
  /\ fractional (tracking [c] 0 9) c.
Proof.
  split; [vm_compute; reflexivity|]. split; [vm_compute; reflexivity|].
  exists (5629499534213126 # 562949953421312)%Q. split; [vm_compute; reflexivity|].
  intros z. unfold Qeq. cbn [Qnum Qden inject_Z]. lia.
Qed.

(** ** The assignment of [lastSecond] *)

Lemma sampleTick_shape (sinkOk : Comment -> bool) (t : Q) (st : State) :
  video st = true ->
  Qfloor t <> lastSecond st ->
  exists (s1 : State) (T : list (Q * Comment)) (pre post : list Effect),
    sampleTick sinkOk false t st
    = (set_timers T (set_lastSecond (Qfloor t) s1), pre ++ SetLastSecond (Qfloor t) :: post)
    /\ footprint (fun _ => True) st s1 pre
    /\ Forall (fun e => deferred e = true) post.
Proof.
  intros Hv Hs. unfold sampleTick. rewrite Hv. simpl negb; simpl orb; cbv iota.
  apply Z.eqb_neq in Hs. rewrite Hs.
  pose proof (recover_footprint sinkOk (Qfloor t) st) as F.
  destruct (recover sinkOk (Qfloor t) st) as [s1 e1]; simpl in F.
  destruct (showCurrentSecondMessages_only_timers (Qfloor t) (set_lastSecond (Qfloor t) s1))
    as (T & HT & _ & HE).
  destruct (showCurrentSecondMessages _ _) as [s3 e3]; simpl in *. subst s3.
  exists s1, T, e1, e3. repeat split; try apply F; exact HE.
Qed.

Lemma sampleTick_lastSecond (sinkOk : Comment -> bool) (t : Q) (st : State) :
  video st = true -> lastSecond (fst (sampleTick sinkOk false t st)) = Qfloor t.
Proof.
  intros Hv. destruct (Z.eq_dec (Qfloor t) (lastSecond st)) as [E | E].
  - unfold sampleTick. rewrite Hv. simpl. apply Z.eqb_eq in E as E'. rewrite E'. simpl.
    symmetry. exact E.
  - destruct (sampleTick_shape sinkOk t st Hv E) as (s1 & T & pre & post & -> & _).
    reflexivity.
Qed.

(** C4, as the code has it.  Whatever the sink does, a classified
    transition leaves [lastSecond = currentSecond], so the next sample at
    that second is a no-op; the assignment comes after the immediate
    reveals of the jump recovery and before the timers of the current
    second are created. *)
Theorem lastSecond_assigned_after_backfill
    (sinkOk : Comment -> bool) (st : State) (t : Q) :
  video st = true ->
  Qfloor t <> lastSecond st ->
  let r := sampleTick sinkOk false t st in
  lastSecond (fst r) = Qfloor t
  /\ (forall t' : Q, Qfloor t' = Qfloor t -> sampleTick sinkOk false t' (fst r) = (fst r, []))
  /\ exists pre post : list Effect,
       snd r = pre ++ SetLastSecond (Qfloor t) :: post
       /\ Forall (fun e => immediate e = true) pre
       /\ Forall (fun e => deferred e = true) post.
Proof.
  intros Hv Hs r.
  destruct (sampleTick_shape sinkOk t st Hv Hs) as (s1 & T & pre & post & Hr & F & Hpost).
  unfold r. rewrite Hr. simpl fst; simpl snd. split; [reflexivity|]. split.
  - intros t' Ht'. unfold sampleTick. simpl video. simpl lastSecond.
    destruct F as ((_ & _ & Hv1 & _) & _). rewrite <- Hv1, Hv, Ht', Z.eqb_refl. reflexivity.
  - exists pre, post. split; [reflexivity|]. split; [apply F | exact Hpost].
Qed.

(** C4, as stated, fails: on the small jump from second 10 to second 13
    over a log with one comment at second 12, and on the large jump of a
    fresh session to second 100, a comment is appended before [lastSecond]
    is assigned. *)
Lemma backfill_reveals_precede_assignment :
  let c := at_second 0 12 in
  let a := at_second 0 1 in
  snd (sampleTick alwaysOk false (inject_Z 13) (tracking [c] 0 10))
  = [Append c; SetLastSecond 13]
  /\ ~ assigned_before_reveals 13
         (snd (sampleTick alwaysOk false (inject_Z 13) (tracking [c] 0 10)))
  /\ snd (sampleTick alwaysOk false (inject_Z 100) (tracking [a; at_second 1 300] 0 (-1)))
     = [ClearShown; ClearFeed; Append a; SetLastSecond 100].
Proof.
  split; [vm_compute; reflexivity|]. split; [|vm_compute; reflexivity].
  intros H. apply (H [Append (at_second 0 12)] [] eq_refl (at_second 0 12)).
  left. reflexivity.
Qed.

(** ** A sink that throws *)

(** C5, as the code has it.  When the first comment [c] of an immediate
    batch (the backfill of a small or of a large jump) for which the sink
    throws is reached, the error is caught and logged, [c] is marked but not
    appended, and the comments after it in the batch are not revealed; the
    sampling callback still completes and assigns [lastSecond].  The timers
    of a forward tick are independent: a throw in one is uncaught and the
    others still fire. *)
Theorem sink_failure_ends_immediate_batch
    (sinkOk : Comment -> bool) (st : State) (cs : list Comment) (ml : MessageList)
    (l1 l2 : list Comment) (c : Comment) :
  chat_comments st = Some cs ->
  NoDup (map ref cs) ->
  messageList st = Some ml ->
  Forall (fun x => sinkOk x = true) l1 ->
  sinkOk c = false ->
  (forall from to, missedBatch from to cs st = l1 ++ c :: l2 ->
     showMissedMessages sinkOk from to st
     = (revealed l1 ({[ref c]} ∪ refs l1) st,
        map Append l1 ++ [ConsoleError InShowMissedMessages]))
  /\ (forall second, previousBatch second cs st = l1 ++ c :: l2 ->
     showPreviousMessages sinkOk second st
     = (revealed l1 ({[ref c]} ∪ refs l1) st,
        map Append l1 ++ [ConsoleError InShowPreviousMessages]))
  /\ fireEach sinkOk (l1 ++ c :: l2) st
     = (revealed (l1 ++ List.filter sinkOk l2) (refs (l1 ++ c :: l2)) st,
        map Append l1 ++ UncaughtError c :: fireEffects sinkOk l2)
  /\ (forall t : Q, video st = true ->
        lastSecond (fst (sampleTick sinkOk false t st)) = Qfloor t).
Proof.
  intros Hcs Hnd Hml Hok Hc. split; [|split; [|split]].
  - intros from to Hb.
    rewrite (showMissedMessages_batch _ _ _ _ _ _ Hcs Hnd Hml), Hb.
    rewrite (forEach_showMessage_throw _ _ _ _ _ _ Hml Hok Hc). reflexivity.
  - intros second Hb.
    rewrite (showPreviousMessages_batch _ _ _ _ _ Hcs Hnd Hml), Hb.
    rewrite (forEach_showMessage_throw _ _ _ _ _ _ Hml Hok Hc). reflexivity.
  - rewrite (fireEach_feed _ _ _ _ Hml). f_equal.
    + rewrite List.filter_app. simpl. rewrite Hc.
      rewrite (filter_all sinkOk l1); [reflexivity|].
      intros x Hx. rewrite Forall_forall in Hok. apply Hok, list_elem_of_In, Hx.
    + unfold fireEffects. rewrite flat_map_app. simpl. rewrite Hc. f_equal.
      clear -Hok. induction Hok as [|x l Hx _ IH]; simpl; [reflexivity|].
      rewrite Hx, IH. reflexivity.
  - intros t Hv. apply sampleTick_lastSecond, Hv.
Qed.

(** C5, as stated, fails: the backfill of the small jump from second 10 to
    second 13 selects the comments at seconds 11 and 12; the sink throws for
    the first, and the second, for which it would not, is never revealed. *)
Lemma sink_failure_skips_rest_of_batch :
  let a := at_second 0 11 in
  let b := at_second 1 12 in
  let st := tracking [a; b] 0 10 in
  let r := run (failsOn 0) [Sample false (inject_Z 13); Advance (inject_Z 1000)] st in
  missedBatch 11 13 [a; b] st = [a; b]
  /\ failsOn 0 b = true
  /\ feed (fst r) = []
  /\ snd r = [ConsoleError InShowMissedMessages; SetLastSecond 13].
Proof. vm_compute. repeat split; reflexivity. Qed.

(** ** After [cleanup] *)

Section NoFeed.

Variable sinkOk : Comment -> bool.











End NoFeed.

(** *** What keeps the message list detached, and the timers *)

Section Idle.

Variable sinkOk : Comment -> bool.

Lemma fireEach_same_frame (l : list Comment) (st : State) :
  same_frame st (fst (fireEach sinkOk l st)).
Proof.
  revert st. induction l as [|c l IH]; intros st; simpl; [apply same_frame_refl|].
  unfold fireTimer. destruct (showMessage sinkOk c st) as [[o s1] e1] eqn:Hshow.
  pose proof (showMessage_footprint sinkOk _ _ _ _ _ Hshow) as (F & _).
  assert (same_frame st (fst (fireEach sinkOk l s1))) as H
    by exact (same_frame_trans _ _ _ F (IH s1)).
  destruct o; destruct (fireEach sinkOk l s1) as [s2 e2]; exact H.
Qed.


(** A change of settings keeps the clock, the timers and the interval,
    and leaves the message list attached or detached as it was. *)
Lemma updateSettings_frame (settings : option jsval) (t : Q) (st : State) :
  let st1 := fst (updateSettings sinkOk settings t st) in
  now st1 = now st /\ timers st1 = timers st /\ videoInterval st1 = videoInterval st
  /\ parentNode <$> messageList st1 = parentNode <$> messageList st.
Proof.
  unfold updateSettings. destruct (_ && _); [|repeat split].
  unfold refreshChatWithNewOffset. simpl video. simpl chatData. simpl messageList.
  destruct (video st); [|repeat split]. destruct (chatData st); [|repeat split].
  destruct (messageList st) as [ml|] eqn:E; [|simpl; rewrite E; repeat split].
  match goal with
  | |- context [showPreviousMessages _ _ ?s] =>
      pose proof (showPreviousMessages_footprint sinkOk (Qfloor t) s) as (F & _ & _);
      destruct (showPreviousMessages sinkOk (Qfloor t) s) as [s3 e3]
  end.
  simpl in *. destruct F as (_ & _ & _ & _ & Hvi & _ & _ & Hn & Ht & Hp).
  rewrite <- Hn, <- Ht, <- Hvi, <- Hp. repeat split.
Qed.







End Idle.


(** ** A change of offset *)

Lemma clearShownAndFeed_same_frame (a b : State) :
  same_frame a b -> clearShownAndFeed a = clearShownAndFeed b.
Proof.
  destruct a as [d c ml sh v vd vi ls ia n ts], b as [d' c' ml' sh' v' vd' vi' ls' ia' n' ts'].
  unfold same_frame, clearShownAndFeed; simpl.
  intros (-> & -> & -> & -> & -> & -> & -> & -> & -> & Hp).
  destruct ml as [[p ch]|], ml' as [[p' ch']|]; simpl in Hp; try discriminate Hp;
    [injection Hp as ->|]; reflexivity.
Qed.

(** A large jump forgets what was revealed before it. *)
Lemma sampleTick_large_jump_same_frame
    (sinkOk : Comment -> bool) (t : Q) (a b : State) :
  same_frame a b ->
  video a = true ->
  CONSTANTS.SKIP_THRESHOLD < Z.abs (Qfloor t - lastSecond a) ->
  sampleTick sinkOk false t a = sampleTick sinkOk false t b.
Proof.
  intros F Hva Hjump. pose proof F as (_ & _ & Hv & _ & _ & Hl & _).
  unfold sampleTick, recover. rewrite <- Hv, <- Hl, Hva. simpl negb; simpl orb; cbv iota.
  assert ((Qfloor t =? lastSecond a) = false) as ->.
  { apply Z.eqb_neq. unfold CONSTANTS.SKIP_THRESHOLD in Hjump. lia. }
  apply Z.ltb_lt in Hjump. rewrite Hjump, (clearShownAndFeed_same_frame a b F). reflexivity.
Qed.

Lemma immediate_not_deferred (l : list Effect) :
  Forall (fun e => immediate e = true) l -> Forall (fun e => deferred e = false) l.
Proof.
  intros H. eapply Forall_impl; [exact H|]. intros [] Hx; try reflexivity; discriminate Hx.
Qed.

(** C6, as the code has it.  A change of offset while tracking clears
    [shownMessages] and the feed, resets [lastSecond] to -1 and runs the
    previous-messages backfill alone, under the new offset: [lastSecond]
    stays at -1, the pending timers are kept and no timer is created, so
    that the comments of the current second are not scheduled.  The next
    sample of a playing video at a second above 14 is then a large jump from
    the sentinel, with the result of that jump in a session started afresh
    under the new offset. *)
Theorem offset_change_resets_then_next_sample_jumps
    (sinkOk : Comment -> bool) (st : State) (settings : option jsval) (t : Q)
    (d : ChatData) (ml : MessageList) :
  isActive st = true ->
  video st = true ->
  chatData st = Some d ->
  messageList st = Some ml ->
  let c := mergeSettings (config st) settings in
  strict_neq (match config st with Some c0 => timeOffset c0 | None => Undefined end)
             (timeOffset c) = true ->
  let r := updateSettings sinkOk settings t st in
  fst r = fst (showPreviousMessages sinkOk (Qfloor t) (freshSession c st))
  /\ snd r = [ClearShown; ClearFeed; SetLastSecond (-1)]
             ++ snd (showPreviousMessages sinkOk (Qfloor t) (freshSession c st))
  /\ lastSecond (fst r) = -1
  /\ timers (fst r) = timers st
  /\ Forall (fun e => deferred e = false) (snd r)
  /\ config (fst r) = Some c
  /\ (forall t' : Q, 14 < Qfloor t' ->
        sampleTick sinkOk false t' (fst r) = sampleTick sinkOk false t' (freshSession c st)).
Proof.
  intros Ha Hv Hd Hml c Hneq r.
  assert (r = (fst (showPreviousMessages sinkOk (Qfloor t) (freshSession c st)),
               [ClearShown; ClearFeed; SetLastSecond (-1)]
               ++ snd (showPreviousMessages sinkOk (Qfloor t) (freshSession c st)))) as Hr.
  { unfold r, updateSettings. fold c. rewrite Hneq. simpl isActive. simpl video.
    rewrite Ha, Hv. simpl andb. cbv iota.
    unfold refreshChatWithNewOffset. simpl video. simpl chatData. simpl messageList.
    rewrite Hv, Hd, Hml.
    unfold freshSession, clearShownAndFeed. simpl messageList. rewrite Hml. simpl fst.
    destruct (showPreviousMessages _ _ _) as [s e]. reflexivity. }
  pose proof (showPreviousMessages_footprint sinkOk (Qfloor t) (freshSession c st))
    as (F & _ & Himm).
  rewrite Hr. simpl fst; simpl snd.
  split; [reflexivity|]. split; [reflexivity|].
  assert (freshSession c st
          = set_lastSecond (-1)
              (set_messageList (Some (mkMessageList (parentNode ml) []))
                 (set_shownMessages ∅ (set_config (Some c) st)))) as Hfresh.
  { unfold freshSession, clearShownAndFeed. simpl messageList. rewrite Hml. reflexivity. }
  pose proof F as (_ & Hc & _ & _ & _ & Hl & _ & _ & Ht & _).
  split; [rewrite <- Hl, Hfresh; reflexivity|].
  split; [rewrite <- Ht, Hfresh; reflexivity|].
  split; [do 3 (constructor; [reflexivity|]); apply immediate_not_deferred, Himm|].
  split; [rewrite <- Hc, Hfresh; reflexivity|].
  intros t' Ht'. symmetry. apply sampleTick_large_jump_same_frame; [exact F| |].
  - rewrite Hfresh. exact Hv.
  - rewrite Hfresh. simpl lastSecond. unfold CONSTANTS.SKIP_THRESHOLD. lia.
Qed.

(** C6, as stated, fails: tracking at second 50, the offset changes from 0
    to 10, which puts the only comment (raw timestamp 40) at the current
    second.  After the change, and a second later, [lastSecond] is -1 and
    the comment is neither revealed nor marked; a fresh large jump to
    second 50 under the new offset leaves [lastSecond = 50] and reveals and
    marks the comment. *)
Lemma offset_change_is_not_a_large_jump :
  let a := at_second 0 40 in
  let st := tracking [a] 0 50 in
  let changed := fst (run alwaysOk [UpdateSettings (Some (Number (of_Z 10))) (inject_Z 50);
                                    Advance (inject_Z 1000)] st) in
  let jumped := fst (run alwaysOk [Sample false (inject_Z 50); Advance (inject_Z 1000)]
                       (freshSession (mkConfig (Number (of_Z 10))) st)) in
  eq_second (adjusted changed a) 50 = true
  /\ lastSecond changed = -1 /\ lastSecond jumped = 50
  /\ feed changed = [] /\ feed jumped = [a]
  /\ elements (shownMessages changed) = [] /\ elements (shownMessages jumped) = [0%nat].
Proof. vm_compute. repeat split; reflexivity. Qed.

(** ** The small jump *)

Lemma filter_none {A : Type} (p : A -> bool) (l : list A) :
  (forall x, In x l -> p x = false) -> List.filter p l = [].
Proof.
  induction l as [|x l IH]; intros H; simpl; [reflexivity|].
  rewrite (H x (or_introl eq_refl)). apply IH. intros y Hy. apply H. right. exact Hy.
Qed.

Lemma existsb_andb_r {A : Type} (f : A -> bool) (u : bool) (l : list A) :
  existsb (fun s => f s && u) l = existsb f l && u.
Proof.
  induction l as [|x l IH]; simpl; [reflexivity|].
  rewrite IH. destruct (f x), (existsb f l), u; reflexivity.
Qed.

(** A number at a later second is not [<=] a number at an earlier one. *)
Lemma num_le_seconds (a b : double) (s s' : Z) :
  eq_second a s = true -> eq_second b s' = true -> s < s' -> num_le b a = false.
Proof.
  intros Ha Hb Hlt.
  apply eq_second_inv in Ha as (p & Hp & Ep), Hb as (q & Hq & Eq).
  assert (Qle_bool q p = false) as Hle.
  { destruct (Qle_bool q p) eqn:E; [|reflexivity]. exfalso.
    apply Qle_bool_iff in E. rewrite Ep, Eq in E. rewrite <- Zle_Qle in E. lia. }
  destruct a as [sa|sa| |sa ma ea], b as [sb|sb| |sb mb eb]; try discriminate Hp;
    try discriminate Hq; unfold num_le; rewrite Hp, Hq; exact Hle.
Qed.

(** In an ascending log, selecting by [P] and then by [Q] is selecting by
    either, when [P] only holds of earlier comments than [Q]. *)
Lemma filter_split_ascending (st : State) (P Q : Comment -> bool) (cs : list Comment) :
  ascending st cs = true ->
  (forall x, In x cs -> P x = true -> Q x = true -> False) ->
  (forall x y, In x cs -> In y cs -> P x = true -> Q y = true ->
     num_le (adjusted st y) (adjusted st x) = false) ->
  List.filter (fun c => P c || Q c) cs = List.filter P cs ++ List.filter Q cs.
Proof.
  induction cs as [|a cs IH]; intros Hasc Hex H; [reflexivity|].
  simpl in Hasc. apply andb_true_iff in Hasc as [Ha Hasc].
  assert (List.filter (fun c => P c || Q c) cs = List.filter P cs ++ List.filter Q cs) as IH'.
  { apply IH; [exact Hasc | |].
    - intros x Hx. apply Hex. right. exact Hx.
    - intros x y Hx Hy. apply H; right; assumption. }
  simpl. destruct (P a) eqn:HP, (Q a) eqn:HQ; simpl.
  - exfalso. exact (Hex a (or_introl eq_refl) HP HQ).
  - rewrite IH'. reflexivity.
  - rewrite IH'. rewrite (filter_none P cs); [reflexivity|].
    intros y Hy. destruct (P y) eqn:HPy; [|reflexivity]. exfalso.
    rewrite forallb_forall in Ha. specialize (Ha y Hy).
    rewrite (H y a (or_intror Hy) (or_introl eq_refl) HPy HQ) in Ha. discriminate Ha.
  - exact IH'.
Qed.

Lemma existsb_seconds (a : double) (from to : Z) :
  existsb (eq_second a) (seconds from (Z.to_nat (to - from + 1))) = atSecondIn from to a.
Proof.
  apply eq_true_iff_eq. rewrite existsb_exists. split.
  - intros (s & Hin & Hs). apply In_seconds in Hin.
    apply eq_second_inv in Hs as (q & Hv & Hq). unfold atSecondIn. rewrite Hv.
    rewrite (Qfloor_comp _ _ Hq), Qfloor_Z.
    apply Qeq_bool_iff in Hq. rewrite Hq. simpl.
    apply andb_true_iff. split; apply Z.leb_le; lia.
  - unfold atSecondIn, eq_second. destruct (value a) as [q|]; [|discriminate].
    intros H. apply andb_true_iff in H as [H Hto]. apply andb_true_iff in H as [Hq Hfrom].
    apply Z.leb_le in Hto, Hfrom.
    exists (Qfloor q). split; [apply In_seconds; lia | exact Hq].
Qed.

Lemma flat_map_missed_ascending (cs : list Comment) (st : State) (count : nat) (from : Z) :
  ascending st cs = true ->
  flat_map (fun s => missedComments s cs st) (seconds from count)
  = List.filter (fun c => existsb (eq_second (adjusted st c)) (seconds from count)
                          && negb (has st c)) cs.
Proof.
  intros Hasc. revert from. induction count as [|k IH]; intros from.
  - simpl. symmetry. apply filter_none. reflexivity.
  - rewrite seconds_S. simpl flat_map. rewrite IH. unfold missedComments.
    rewrite <- (filter_split_ascending st
                  (fun c => eq_second (adjusted st c) from && negb (has st c))
                  (fun c => existsb (eq_second (adjusted st c)) (seconds (from + 1) k)
                            && negb (has st c))).
    + apply filter_ext. intros c. simpl.
      destruct (eq_second (adjusted st c) from), (existsb _ _), (has st c); reflexivity.
    + exact Hasc.
    + intros x _ Hx Hy. apply andb_true_iff in Hx as [Hx _], Hy as [Hy _].
      apply existsb_exists in Hy as (s' & Hin & Hs'). apply In_seconds in Hin.
      pose proof (eq_second_unique _ _ _ Hx Hs'). lia.
    + intros x y _ _ Hx Hy. apply andb_true_iff in Hx as [Hx _], Hy as [Hy _].
      apply existsb_exists in Hy as (s' & Hin & Hs'). apply In_seconds in Hin.
      apply (num_le_seconds _ _ from s' Hx Hs'). lia.
Qed.

(** The backfill of an ascending log selects in log order. *)
Lemma missedBatch_ascending (from to : Z) (cs : list Comment) (st : State) :
  ascending st cs = true ->
  missedBatch from to cs st
  = List.filter (fun c => atSecondIn from to (adjusted st c) && negb (has st c)) cs.
Proof.
  intros Hasc. unfold missedBatch. rewrite (flat_map_missed_ascending _ _ _ _ Hasc).
  apply filter_ext. intros c. rewrite existsb_seconds. reflexivity.
Qed.

Lemma staggerEffects_deferred (count idx : nat) (cs : list Comment) :
  Forall (fun e => deferred e = true) (staggerEffects count idx cs).
Proof.
  revert idx. induction cs as [|c cs IH]; intros idx; simpl; constructor;
    [reflexivity | apply IH].
Qed.

(** C3, as the code has it.  On a small jump between the seconds [p] and
    [c] of a session over a log in ascending order of adjusted timestamp,
    the sink permitting, the comments appended at once, in log order, are
    exactly the not yet revealed ones whose adjusted timestamp is one of
    the integer seconds [min p c + 1 .. max p c]; they are marked and
    [shownMessages] is not cleared.  The timers created are those of the
    current second: none on a jump forward, whose batch holds the comments
    of that second, and on a jump back one for each not yet revealed
    comment of the second reached, staggered as on a forward tick. *)
Theorem small_jump_backfills_missed_seconds
    (sinkOk : Comment -> bool) (st : State) (t : Q) (cs : list Comment) (ml : MessageList) :
  video st = true ->
  chat_comments st = Some cs ->
  messageList st = Some ml ->
  NoDup (map ref cs) ->
  ascending st cs = true ->
  (forall c, In c cs -> sinkOk c = true) ->
  1 < Z.abs (Qfloor t - lastSecond st) <= CONSTANTS.SKIP_THRESHOLD ->
  let from := Z.min (lastSecond st) (Qfloor t) + 1 in
  let to := Z.max (lastSecond st) (Qfloor t) in
  let batch :=
    List.filter (fun c => atSecondIn from to (adjusted st c) && negb (has st c)) cs in
  let sel :=
    if lastSecond st <? Qfloor t then []
    else List.filter (fun c => eq_second (adjusted st c) (Qfloor t) && negb (has st c)) cs in
  let n := length sel in
  let r := sampleTick sinkOk false t st in
  feed (fst r) = feed st ++ batch
  /\ shownMessages (fst r) = refs batch ∪ shownMessages st
  /\ snd r = map Append batch ++ SetLastSecond (Qfloor t) :: staggerEffects n 0 sel
  /\ (timers st = [] -> timers (fst r) = stagger n 0 sel (now st))
  /\ (forall u, In u (timers (fst r)) <-> In u (stagger n 0 sel (now st)) \/ In u (timers st)).
Proof.
  intros Hv Hcs Hml Hnd Hasc Hok [Hlo Hhi] from to batch sel n r.
  assert (Forall (fun c => sinkOk c = true) batch) as Hbatch.
  { apply Forall_forall. intros c Hc. apply list_elem_of_In in Hc.
    apply filter_In in Hc as [Hc _]. exact (Hok c Hc). }
  set (st1 := revealed batch (refs batch) st).
  set (st2 := set_lastSecond (Qfloor t) st1).
  assert (forall c, In c batch ->
            exists s, from <= s <= to /\ eq_second (adjusted st c) s = true) as Hin_batch.
  { intros c Hc. apply filter_In in Hc as [_ Hc]. apply andb_true_iff in Hc as [Hc _].
    rewrite <- existsb_seconds in Hc. apply existsb_exists in Hc as (s & Hs & E).
    apply In_seconds in Hs. exists s. split; [lia | exact E]. }
  assert (commentsThisSecond (Qfloor t) cs st2 = sel) as Hsel.
  { unfold sel. destruct (lastSecond st <? Qfloor t) eqn:Hdir.
    - apply Z.ltb_lt in Hdir. apply filter_none. intros c Hc.
      destruct (eq_second (adjusted st2 c) (Qfloor t)) eqn:E; [|reflexivity]. simpl.
      apply negb_false_iff. unfold st2.
      change (has (set_lastSecond (Qfloor t) st1) c) with (has st1 c).
      unfold st1. rewrite has_revealed.
      destruct (has st c) eqn:Hhas; [apply orb_true_r|]. rewrite orb_false_r.
      apply bool_decide_eq_true, elem_of_refs. exists c. split; [|reflexivity].
      apply filter_In. split; [exact Hc|]. rewrite Hhas. simpl. rewrite andb_true_r.
      change (adjusted st2 c) with (adjusted st1 c) in E.
      unfold st1 in E. rewrite (same_frame_adjusted _ _ _ (same_frame_revealed _ _ _)) in E.
      rewrite <- existsb_seconds. apply existsb_exists. exists (Qfloor t).
      split; [|exact E]. apply In_seconds. unfold from, to. lia.
    - apply Z.ltb_ge in Hdir. unfold commentsThisSecond. apply filter_ext_in. intros c Hc.
      change (adjusted st2 c) with (adjusted st1 c).
      unfold st1 at 1. rewrite (same_frame_adjusted _ _ _ (same_frame_revealed _ _ _)).
      destruct (eq_second (adjusted st c) (Qfloor t)) eqn:E; [|reflexivity]. simpl. f_equal.
      change (has st2 c) with (has st1 c). unfold st1. rewrite has_revealed.
      assert (bool_decide (ref c ∈ refs batch) = false) as ->; [|reflexivity].
      apply bool_decide_eq_false. intros Hr. apply elem_of_refs in Hr as (c' & Hc' & Href).
      assert (In c' cs) as Hc'cs by (apply filter_In in Hc' as [H _]; exact H).
      rewrite (NoDup_ref_inj cs c' c Hnd Hc'cs Hc Href) in Hc'.
      destruct (Hin_batch c Hc') as (s & Hs & E').
      pose proof (eq_second_unique _ _ _ E E'). unfold from, to in Hs. lia. }
  assert (r = (set_timers (fold_left (fun q u => enqueue u q)
                             (stagger n 0 sel (now st)) (timers st)) st2,
               map Append batch ++ SetLastSecond (Qfloor t) :: staggerEffects n 0 sel)) as Hr.
  { unfold r, sampleTick, recover. rewrite Hv. simpl negb; simpl orb; cbv iota.
    assert ((Qfloor t =? lastSecond st) = false) as -> by (apply Z.eqb_neq; lia).
    assert ((CONSTANTS.SKIP_THRESHOLD <? Z.abs (Qfloor t - lastSecond st)) = false) as ->
      by (apply Z.ltb_ge; exact Hhi).
    assert ((1 <? Z.abs (Qfloor t - lastSecond st)) = true) as ->
      by (apply Z.ltb_lt; exact Hlo).
    rewrite (showMissedMessages_batch _ _ _ _ _ _ Hcs Hnd Hml).
    rewrite (missedBatch_ascending _ _ _ _ Hasc).
    fold from to batch. rewrite (forEach_showMessage_ok _ _ _ _ Hml Hbatch).
    simpl try_catch. fold st1. cbv iota beta. fold st2.
    rewrite (showCurrentSecondMessages_eq (Qfloor t) st2 cs Hcs). cbv zeta.
    rewrite Hsel. reflexivity. }
  rewrite Hr. simpl fst; simpl snd. split; [|split; [|split; [|split]]].
  - exact (feed_revealed _ _ _ _ Hml).
  - reflexivity.
  - reflexivity.
  - intros Ht. simpl. rewrite Ht.
    apply (fold_enqueue_stagger n 0 sel (now st) []). constructor.
  - intros u. simpl. apply In_fold_enqueue.
Qed.

(** C3, as stated, fails.  On the jump from second 10 to second 13 over
    comments at 10, 11.5 and 12, none revealed, the backfill appends the
    one at 12 alone, though all three lie in the inclusive range bounded by
    the two seconds and two of them strictly above second 10.  On the jump
    back from second 13 to second 10, a comment at second 10 is not
    appended at once: it gets a timer. *)
Lemma small_jump_is_not_the_inclusive_range :
  let x := at_second 0 10 in
  let y := mkComment 1 (decimal 23 2) in
  let z := at_second 2 12 in
  let st := tracking [x; y; z] 0 10 in
  let r := sampleTick alwaysOk false (inject_Z 13) st in
  let back := sampleTick alwaysOk false (inject_Z 10) (tracking [x] 0 13) in
  rangeBetween 10 13 [x; y; z] st = [x; y; z]
  /\ rangeBetween 11 13 [x; y; z] st = [y; z]
  /\ feed (fst r) = [z]
  /\ snd r = [Append z; SetLastSecond 13]
  /\ rangeBetween 10 13 [x] (tracking [x] 0 13) = [x]
  /\ feed (fst back) = []
  /\ snd back = [SetLastSecond 10; SetTimeout x (staggerDelay 0 1)].
Proof. vm_compute. repeat split; reflexivity. Qed.

(** ** The theorems at concrete sessions *)

Lemma forward_tick_staggers_reveals_witness :
  let cs := [at_second 0 10; at_second 1 10; at_second 2 10; at_second 3 10; at_second 4 11] in
  let st := tracking cs 0 9 in
  video st = true
  /\ Qfloor (inject_Z 10) = lastSecond st + 1
  /\ chat_comments st = Some cs
  /\ snd (sampleTick alwaysOk false (inject_Z 10) st)
     = [SetLastSecond 10;
        SetTimeout (at_second 0 10) (staggerDelay 0 4);
        SetTimeout (at_second 1 10) (staggerDelay 1 4);
        SetTimeout (at_second 2 10) (staggerDelay 2 4);
        SetTimeout (at_second 3 10) (staggerDelay 3 4)]
  /\ feed (fst (advance alwaysOk (inject_Z 500)
                  (fst (sampleTick alwaysOk false (inject_Z 10) st))))
     = [at_second 0 10; at_second 1 10; at_second 2 10].
Proof.
  intros cs st. split; [reflexivity|]. split; [reflexivity|]. split; [reflexivity|].
  destruct (forward_tick_staggers_reveals alwaysOk st (inject_Z 10) cs
              eq_refl eq_refl eq_refl) as (_ & _ & Heff & _ & _ & _ & _ & H).
  split; [exact Heff|].
  destruct (H eq_refl) with (dt := inject_Z 500) as [Hfeed _].
  - discriminate.
  - intros c _. reflexivity.
  - exact Hfeed.
Defined.

Lemma fractional_comment_only_revealed_by_large_jump_witness :
  let c := mkComment 0 (decimal 21 2) in
  let st := tracking [c] 0 9 in
  fractional st c
  /\ forall due, In (due, c) (timers (fst (sampleTick alwaysOk false (inject_Z 10) st))) ->
                 In (due, c) (timers st).
Proof.
  intros c st.
  assert (fractional st c) as Hfrac.
  { exists (5910974510923776 # 562949953421312)%Q. split; [vm_compute; reflexivity|].
    intros z. unfold Qeq. cbn [Qnum Qden inject_Z]. lia. }
  split; [exact Hfrac|].
  exact (proj1 (proj2 (fractional_comment_only_revealed_by_large_jump alwaysOk st false
                         (inject_Z 10) c Hfrac))).
Defined.

Lemma lastSecond_assigned_after_backfill_witness :
  let st := tracking [at_second 0 12] 0 10 in
  video st = true
  /\ Qfloor (inject_Z 13) <> lastSecond st
  /\ lastSecond (fst (sampleTick alwaysOk false (inject_Z 13) st)) = Qfloor (inject_Z 13).
Proof.
  intros st.
  assert (Qfloor (inject_Z 13) <> lastSecond st) as Hs by (vm_compute; discriminate).
  split; [reflexivity|]. split; [exact Hs|].
  exact (proj1 (lastSecond_assigned_after_backfill alwaysOk st (inject_Z 13) eq_refl Hs)).
Defined.

Lemma sink_failure_ends_immediate_batch_witness :
  let a := at_second 0 11 in
  let b := at_second 1 12 in
  let st := tracking [a; b] 0 10 in
  chat_comments st = Some [a; b]
  /\ NoDup (map ref [a; b])
  /\ messageList st = Some (mkMessageList true [])
  /\ Forall (fun x => failsOn 0 x = true) []
  /\ failsOn 0 a = false
  /\ missedBatch 11 13 [a; b] st = [] ++ a :: [b]
  /\ showMissedMessages (failsOn 0) 11 13 st
     = (revealed [] ({[ref a]} ∪ refs []) st, [ConsoleError InShowMissedMessages]).
Proof.
  intros a b st.
  assert (NoDup (map ref [a; b])) as Hnd.
  { apply (bool_decide_unpack _). vm_compute. exact I. }
  assert (missedBatch 11 13 [a; b] st = [] ++ a :: [b]) as Hb by (vm_compute; reflexivity).
  split; [reflexivity|]. split; [exact Hnd|]. split; [reflexivity|].
  split; [constructor|]. split; [reflexivity|]. split; [exact Hb|].
  exact (proj1 (sink_failure_ends_immediate_batch (failsOn 0) st [a; b]
                  (mkMessageList true []) [] [b] a eq_refl Hnd eq_refl
                  (List.Forall_nil _) eq_refl) 11 13 Hb).
Defined.


Lemma offset_change_resets_then_next_sample_jumps_witness :
  let st := tracking [at_second 0 40] 0 50 in
  let settings := Some (Number (of_Z 10)) in
  let changed := fst (updateSettings alwaysOk settings (inject_Z 50) st) in
  isActive st = true /\ video st = true
  /\ chatData st = Some (mkChatData (Some [at_second 0 40]))
  /\ messageList st = Some (mkMessageList true [])
  /\ strict_neq (Number (of_Z 0)) (Number (of_Z 10)) = true
  /\ lastSecond changed = -1
  /\ sampleTick alwaysOk false (inject_Z 50) changed
     = sampleTick alwaysOk false (inject_Z 50)
         (freshSession (mkConfig (Number (of_Z 10))) st).
Proof.
  intros st settings changed.
  do 5 (split; [reflexivity|]).
  destruct (offset_change_resets_then_next_sample_jumps alwaysOk st settings (inject_Z 50)
              (mkChatData (Some [at_second 0 40])) (mkMessageList true [])
              eq_refl eq_refl eq_refl eq_refl eq_refl) as (_ & _ & Hl & _ & _ & _ & Hjump).
  split; [exact Hl|]. apply Hjump. vm_compute. reflexivity.
Defined.

Lemma small_jump_backfills_missed_seconds_witness :
  let x := at_second 0 10 in
  let z := at_second 1 12 in
  let w := at_second 2 13 in
  let st := tracking [x; z; w] 0 10 in
  let back := set_lastSecond 13 st in
  video st = true
  /\ chat_comments st = Some [x; z; w]
  /\ messageList st = Some (mkMessageList true [])
  /\ NoDup (map ref [x; z; w])
  /\ ascending st [x; z; w] = true
  /\ (forall c, In c [x; z; w] -> alwaysOk c = true)
  /\ 1 < Z.abs (Qfloor (inject_Z 13) - lastSecond st) <= CONSTANTS.SKIP_THRESHOLD
  /\ 1 < Z.abs (Qfloor (inject_Z 10) - lastSecond back) <= CONSTANTS.SKIP_THRESHOLD
  /\ snd (sampleTick alwaysOk false (inject_Z 13) st)
     = [Append z; Append w; SetLastSecond 13]
  /\ snd (sampleTick alwaysOk false (inject_Z 10) back)
     = [Append z; Append w; SetLastSecond 10; SetTimeout x (staggerDelay 0 1)].
Proof.
  intros x z w st back.
  assert (NoDup (map ref [x; z; w])) as Hnd.
  { apply (bool_decide_unpack _). vm_compute. exact I. }
  assert (ascending st [x; z; w] = true) as Hasc by (vm_compute; reflexivity).
  assert (1 < Z.abs (Qfloor (inject_Z 13) - lastSecond st) <= CONSTANTS.SKIP_THRESHOLD) as Hj.
  { vm_compute. split; [reflexivity | discriminate]. }
  assert (1 < Z.abs (Qfloor (inject_Z 10) - lastSecond back) <= CONSTANTS.SKIP_THRESHOLD)
    as Hjb.
  { vm_compute. split; [reflexivity | discriminate]. }
  split; [reflexivity|]. split; [reflexivity|]. split; [reflexivity|].
  split; [exact Hnd|]. split; [exact Hasc|]. split; [intros c _; reflexivity|].
  split; [exact Hj|]. split; [exact Hjb|]. split.
  - exact (proj1 (proj2 (proj2
             (small_jump_backfills_missed_seconds alwaysOk st (inject_Z 13) [x; z; w]
                (mkMessageList true []) eq_refl eq_refl eq_refl Hnd Hasc
                (fun c _ => eq_refl) Hj)))).
  - exact (proj1 (proj2 (proj2
             (small_jump_backfills_missed_seconds alwaysOk back (inject_Z 10) [x; z; w]
                (mkMessageList true []) eq_refl eq_refl eq_refl Hnd Hasc
                (fun c _ => eq_refl) Hjb)))).
Defined.

(** * Further properties of the code *)

(** ** Offsets *)

(** X1.  Whatever the duration of the video and the log, the heuristic
    offset lies within an hour of zero: a candidate outside [-3600, 3600]
    is replaced by 900. *)
Theorem calculateSmartDefaultOffset_within_an_hour (st : State) :
  -3600 <= calculateSmartDefaultOffset st <= 3600.
Proof.
  unfold calculateSmartDefaultOffset, smartDefault.
  destruct (videoDuration st) as [d|]; [|lia].
  destruct (lastChatTimestamp st) as [l|]; [|lia].
  destruct (truthy d && truthy l && positive_num d && positive_num l); [|lia].
  destruct (Math_floor (js_sub d l)) as [calculatedOffset|]; [|lia].
  destruct ((-3600 <=? calculatedOffset) && (calculatedOffset <=? 3600)) eqn:E; [|lia].
  apply andb_true_iff in E as [E1 E2]. apply Z.leb_le in E1, E2. lia.
Qed.

Lemma initConfig_timeOffset_number (storage : option Storage) (st : State) :
  exists q, config (initConfig storage st) = Some (mkConfig (Number q)).
Proof.
  unfold initConfig, get_timeOffset. destruct storage as [s|]; [|eexists; reflexivity].
  destruct (stored_timeOffset s); simpl; eexists; reflexivity.
Qed.

(** X2.  After [initConfig], whatever the storage holds and even when it
    cannot be read, the offset of the configuration is a number: every
    later [getTimeOffset] returns that number without consulting the
    heuristic, however the video and the log change, and every adjusted
    timestamp is the sum of the timestamp and that number.  A stored
    number, zero included, is kept as it is. *)
Theorem initConfig_fixes_a_numeric_offset (storage : option Storage) (st : State) :
  exists q : double,
    getTimeOffset (initConfig storage st) = Number q
    /\ (forall (d : option ChatData) (v : bool) (dur : option double) (c : Comment),
          getTimeOffset (set_video v dur (set_chatData d (initConfig storage st))) = Number q
          /\ adjusted (set_video v dur (set_chatData d (initConfig storage st))) c
             = js_add (content_offset_seconds c) q)
    /\ (forall s v, storage = Some s -> stored_timeOffset s = StoredNumber v -> q = v)
    /\ (storage = None -> q = of_Z 900).
Proof.
  destruct (initConfig_timeOffset_number storage st) as (q & Hq). exists q.
  assert (forall st', config st' = Some (mkConfig (Number q)) -> getTimeOffset st' = Number q)
    as Hget.
  { intros st' H. unfold getTimeOffset. rewrite H. reflexivity. }
  split; [exact (Hget _ Hq)|]. split; [|split].
  - intros d v dur c.
    assert (getTimeOffset (set_video v dur (set_chatData d (initConfig storage st))) = Number q)
      as H by (apply Hget; exact Hq).
    split; [exact H|]. unfold adjusted. rewrite H. reflexivity.
  - intros s v -> Hs. unfold initConfig, get_timeOffset in Hq. rewrite Hs in Hq.
    simpl in Hq. congruence.
  - intros ->. unfold initConfig in Hq. cbn [config set_config] in Hq. congruence.
Qed.

(** A sum with a function is at no second and before none. *)
Lemma adjusted_builtin (st : State) (key : string) (c : Comment) (sec : Z) :
  getTimeOffset st = Builtin key ->
  eq_second (adjusted st c) sec = false /\ lt_second (adjusted st c) sec = false.
Proof. intros H. unfold adjusted. rewrite H. split; reflexivity. Qed.

(** X3.  The order of precedence when [init] sets up a video that has a chat
    log and no configuration is loaded yet: a truthy offset listed for the
    video by [timedata.json] wins, and is handed to the storage; otherwise
    a stored number wins; otherwise the heuristic applies, and nothing is
    written.  A listed offset of 0 counts as no suggestion, and so does a
    failed fetch.  A video id that names a property of [Object.prototype]
    and is not listed finds that property: the function becomes the
    offset, and from then on no comment is at any second or before one. *)
Theorem init_offset_precedence
    (videoId : string) (response : Fetched (gmap string double)) (s : Storage) (st : State) :
  config st = None ->
  let r := init_offsets videoId response (Some s) st in
  let resolved :=
    match stored_timeOffset s with
    | StoredNumber v => Number v
    | NotStored | StoredNull => Number (of_Z (calculateSmartDefaultOffset st))
    end in
  let suggestion :=
    match response with
    | FetchOk offsetData =>
        match offsetData !! videoId with
        | Some d => if truthy d then Some (Number d) else None
        | None =>
            if bool_decide (videoId ∈ objectPrototype) then Some (Builtin videoId) else None
        end
    | FetchThrows | NotOk _ => None
    end in
  match suggestion with
  | Some v => getTimeOffset (fst r) = v /\ snd r = Some v
  | None => getTimeOffset (fst r) = resolved /\ snd r = None
  end
  /\ (forall key c sec, suggestion = Some (Builtin key) ->
        eq_second (adjusted (fst r) c) sec = false
        /\ lt_second (adjusted (fst r) c) sec = false).
Proof.
  intros Hc r resolved suggestion.
  assert (getTimeOffset (initConfig (Some s) st) = resolved) as Hinit.
  { unfold resolved, initConfig, get_timeOffset. destruct (stored_timeOffset s); reflexivity. }
  assert (forall v, suggestion = Some v -> getTimeOffset (fst r) = v /\ snd r = Some v)
    as Hsome.
  { unfold suggestion, r, init_offsets, loadAndApplyOffsetData, js_get. rewrite Hc.
    destruct response as [| |offsetData]; try discriminate.
    destruct (offsetData !! videoId) as [d|].
    - destruct (truthy d); [|discriminate]. intros v [= <-]. split; reflexivity.
    - destruct (bool_decide (videoId ∈ objectPrototype)); [|discriminate].
      intros v [= <-]. split; reflexivity. }
  assert (suggestion = None -> r = (initConfig (Some s) st, None)) as Hnone.
  { unfold suggestion, r, init_offsets, loadAndApplyOffsetData, js_get. rewrite Hc.
    destruct response as [| |offsetData]; try reflexivity.
    destruct (offsetData !! videoId) as [d|].
    - destruct (truthy d); [discriminate | reflexivity].
    - destruct (bool_decide (videoId ∈ objectPrototype)); [discriminate | reflexivity]. }
  split.
  - destruct suggestion as [v|].
    + exact (Hsome v eq_refl).
    + rewrite (Hnone eq_refl). cbn [fst snd]. split; [exact Hinit | reflexivity].
  - intros key c sec Hs. apply (adjusted_builtin _ key). exact (proj1 (Hsome _ Hs)).
Qed.

(** X20.  When the configuration is not loaded, or holds no [timeOffset],
    [getTimeOffset] resolves the offset from the duration [d] of the page's
    video and the timestamp [l] of the last comment of the log, and so does
    [initConfig] when nothing or [null] is stored: the offset is the floor
    of the difference [d - l], as the engine computes it, when both are
    positive and that floor lies in [-3600, 3600], and 900 in every other
    case, as when there is no video, the log is empty, the stream is live
    ([d] is infinite) or the metadata is not loaded ([d] is [NaN]). *)
Theorem heuristic_offset_from_last_comment
    (st : State) (s : Storage) (offset : Z) :
  let lastEvent := content_offset_seconds <$> (chat_comments st ≫= last) in
  heuristic_applies (videoDuration st) lastEvent offset
  \/ (offset = 900 /\ forall candidate, ~ heuristic_applies (videoDuration st) lastEvent candidate) ->
  (config st = None \/ config st = Some (mkConfig Undefined) ->
   getTimeOffset st = Number (of_Z offset))
  /\ (stored_timeOffset s = NotStored \/ stored_timeOffset s = StoredNull ->
      getTimeOffset (initConfig (Some s) st) = Number (of_Z offset)).
Proof.
  intros lastEvent H.
  assert (lastChatTimestamp st = lastEvent) as Hlast.
  { unfold lastChatTimestamp, lastEvent. destruct (chat_comments st); reflexivity. }
  assert (calculateSmartDefaultOffset st = offset) as Hcalc.
  { unfold calculateSmartDefaultOffset. rewrite Hlast. destruct H as [H | [-> H]].
    - apply smartDefault_candidate, H.
    - apply smartDefault_fallback, H. }
  split.
  - intros [Hc | Hc]; unfold getTimeOffset; rewrite Hc, Hcalc; reflexivity.
  - intros Hs. unfold initConfig, get_timeOffset.
    assert (calculateSmartDefaultOffset (set_config (Some (mkConfig Null)) st) = offset)
      as Hcalc' by exact Hcalc.
    destruct Hs as [-> | ->]; unfold getTimeOffset; simpl; rewrite Hcalc'; reflexivity.
Qed.

(** ** The stagger *)

Lemma staggerDelay_bounds (i count : nat) :
  (i < count)%nat ->
  (0 <= staggerDelay i count)%Q /\ (staggerDelay i count < inject_Z 1000)%Q.
Proof.
  intros H. unfold staggerDelay.
  assert (0 < inject_Z (Z.of_nat count))%Q as Hc.
  { replace 0%Q with (inject_Z 0) by reflexivity. rewrite <- Zlt_Qlt. lia. }
  split.
  - apply Qle_shift_div_l; [exact Hc|]. rewrite Qmult_0_l.
    replace 0%Q with (inject_Z 0) by reflexivity. rewrite <- Zle_Qle. lia.
  - apply Qlt_shift_div_r; [exact Hc|]. rewrite <- inject_Z_mult, <- Zlt_Qlt. lia.
Qed.

Lemma In_stagger_due (count idx : nat) (cs : list Comment) (clock : Q) (u : Q * Comment) :
  In u (stagger count idx cs clock) ->
  exists i, (idx <= i < idx + length cs)%nat /\ fst u = (clock + staggerDelay i count)%Q.
Proof.
  revert idx. induction cs as [|c cs IH]; intros idx; simpl; [tauto|].
  intros [<- | H].
  - exists idx. split; [lia | reflexivity].
  - destruct (IH _ H) as (i & Hi & E). exists i. split; [lia | exact E].
Qed.

Lemma elapsed_all (dt : Q) (count idx : nat) (cs : list Comment) :
  (forall i, (idx <= i < idx + length cs)%nat -> (staggerDelay i count <= dt)%Q) ->
  elapsed dt count idx cs = cs.
Proof.
  revert idx. induction cs as [|c cs IH]; intros idx H; simpl; [reflexivity|].
  assert (Qle_bool (staggerDelay idx count) dt = true) as ->.
  { apply Qle_bool_iff, H. simpl. lia. }
  rewrite IH; [reflexivity|]. intros i Hi. apply H. simpl. lia.
Qed.

Lemma map_snd_stagger (count idx : nat) (cs : list Comment) (clock : Q) :
  map snd (stagger count idx cs clock) = cs.
Proof.
  revert idx. induction cs as [|c cs IH]; intros idx; simpl; [reflexivity|].
  rewrite IH. reflexivity.
Qed.

(** X5.  The timers a tick creates for the [n] comments of a second are due
    at least 0 ms and less than 1000 ms after it, so a second's worth of
    comments is never delayed past the second: with no other timer pending,
    1000 ms after the scheduling every one of them has fired, and the feed
    has grown by exactly those the sink accepted, in log order. *)
Theorem staggered_reveals_finish_within_the_second
    (sinkOk : Comment -> bool) (st : State) (s : Z) (cs : list Comment) (ml : MessageList) :
  chat_comments st = Some cs ->
  messageList st = Some ml ->
  timers st = [] ->
  let sel := commentsThisSecond s cs st in
  let st1 := fst (showCurrentSecondMessages s st) in
  (forall u, In u (timers st1) ->
     (now st <= fst u)%Q /\ (fst u < now st + inject_Z 1000)%Q)
  /\ map snd (timers st1) = sel
  /\ timers (fst (advance sinkOk (inject_Z 1000) st1)) = []
  /\ feed (fst (advance sinkOk (inject_Z 1000) st1)) = feed st ++ List.filter sinkOk sel.
Proof.
  intros Hcs Hml Ht sel st1.
  assert (st1 = set_timers (stagger (length sel) 0 sel (now st)) st) as Hst1.
  { unfold st1. rewrite (showCurrentSecondMessages_eq s st cs Hcs). cbv zeta. cbn [fst].
    fold sel. rewrite Ht.
    rewrite (fold_enqueue_stagger (length sel) 0 sel (now st) []) by constructor.
    reflexivity. }
  assert (forall u, In u (stagger (length sel) 0 sel (now st)) ->
            (now st <= fst u)%Q /\ (fst u < now st + inject_Z 1000)%Q) as Hdue.
  { intros u Hu. apply In_stagger_due in Hu as (i & Hi & ->).
    destruct (staggerDelay_bounds i (length sel)) as [H0 H1]; [lia|]. split; lra. }
  pose proof (map_snd_stagger (length sel) 0 sel (now st)) as Hsnd.
  assert (elapsed (inject_Z 1000) (length sel) 0 sel = sel) as Hel.
  { apply elapsed_all. intros i Hi.
    destruct (staggerDelay_bounds i (length sel)) as [_ H1]; [lia|]. apply Qlt_le_weak, H1. }
  rewrite Hst1. simpl timers. split; [exact Hdue|]. split; [exact Hsnd|].
  unfold advance. simpl timers. simpl now. rewrite due_stagger, Hel.
  rewrite (fireEach_feed sinkOk sel _ ml) by exact Hml. simpl fst. split.
  - simpl. apply filter_none. intros u Hu. apply negb_false_iff. unfold isDue.
    apply Qle_bool_iff. destruct (Hdue u Hu) as [_ H]. apply Qlt_le_weak, H.
  - rewrite (feed_revealed _ _ _ ml) by exact Hml. reflexivity.
Qed.

(** ** The backfill of a large jump *)

Lemma showMessage_appends (sinkOk : Comment -> bool) (c : Comment) (st st1 : State)
    (o : outcome) (e : list Effect) :
  showMessage sinkOk c st = (o, st1, e) ->
  exists l, feed st1 = feed st ++ l /\ (length l <= 1)%nat.
Proof.
  destruct (messageList st) as [ml|] eqn:Hml.
  - rewrite (showMessage_feed _ _ _ _ Hml). destruct (sinkOk c); intros [= <- <- <-].
    + exists [c]. split; [exact (feed_revealed _ _ _ _ Hml) | simpl; lia].
    + exists []. split; [exact (feed_revealed _ _ _ _ Hml) | simpl; lia].
  - rewrite (showMessage_no_feed _ _ _ Hml). intros [= <- <- <-].
    exists []. split; [rewrite app_nil_r; reflexivity | simpl; lia].
Qed.

Lemma previousLoop_appends (sinkOk : Comment -> bool) (cs : list Comment) (count i : nat)
    (st st1 : State) (o : outcome) (e : list Effect) :
  previousLoop sinkOk count i cs st = (o, st1, e) ->
  exists l, feed st1 = feed st ++ l /\ (length l <= count)%nat.
Proof.
  revert i st st1 o e. induction count as [|k IH]; intros i st st1 o e; simpl.
  - intros [= <- <- <-]. exists []. split; [rewrite app_nil_r; reflexivity | simpl; lia].
  - assert (forall ob sb eb,
              match cs !! i with
              | Some comment =>
                  if has st comment then (Normal, st, []) else showMessage sinkOk comment st
              | None => (Normal, st, [])
              end = (ob, sb, eb) ->
              exists l, feed sb = feed st ++ l /\ (length l <= 1)%nat) as Hbody.
    { intros ob sb eb. destruct (cs !! i) as [c|]; [destruct (has st c)|];
        try (intros [= <- <- <-]; exists []; split;
             [rewrite app_nil_r; reflexivity | simpl; lia]).
      apply showMessage_appends. }
    destruct (match cs !! i with Some _ => _ | None => _ end) as [[[|] s1] e1] eqn:Hb.
    + destruct (previousLoop sinkOk k (S i) cs s1) as [[o2 s2] e2] eqn:Hrest.
      intros [= <- <- <-].
      destruct (Hbody _ _ _ eq_refl) as (l1 & H1 & L1).
      destruct (IH _ _ _ _ _ Hrest) as (l2 & H2 & L2).
      exists (l1 ++ l2). split; [rewrite H2, H1, app_assoc; reflexivity|].
      rewrite length_app. lia.
    + intros [= <- <- <-]. destruct (Hbody _ _ _ eq_refl) as (l1 & H1 & L1).
      exists l1. split; [exact H1 | lia].
Qed.

(** X6.  [showPreviousMessages] only ever appends to the feed, and never
    more than 25 comments; the feed a large jump leaves behind therefore
    holds at most 25 comments, whatever the log, the offset and the sink. *)
Theorem large_jump_backfill_is_bounded (sinkOk : Comment -> bool) (st : State) :
  (forall second, exists l,
      feed (fst (showPreviousMessages sinkOk second st)) = feed st ++ l
      /\ (length l <= CONSTANTS.PREVIOUS_MESSAGES_COUNT)%nat)
  /\ (forall t : Q,
        video st = true ->
        CONSTANTS.SKIP_THRESHOLD < Z.abs (Qfloor t - lastSecond st) ->
        (length (feed (fst (sampleTick sinkOk false t st)))
         <= CONSTANTS.PREVIOUS_MESSAGES_COUNT)%nat).
Proof.
  assert (forall st' second, exists l,
             feed (fst (showPreviousMessages sinkOk second st')) = feed st' ++ l
             /\ (length l <= CONSTANTS.PREVIOUS_MESSAGES_COUNT)%nat) as Hprev.
  { intros st' second. unfold showPreviousMessages.
    destruct (chat_comments st') as [cs|];
      [|exists []; split; [rewrite app_nil_r; reflexivity | simpl; lia]].
    destruct (findIndex _ (rev cs)) as [firstIdx|];
      [|exists []; split; [rewrite app_nil_r; reflexivity | simpl; lia]].
    destruct (previousLoop sinkOk (firstIdx - (firstIdx - CONSTANTS.PREVIOUS_MESSAGES_COUNT))
                (firstIdx - CONSTANTS.PREVIOUS_MESSAGES_COUNT) cs st') as [[o s1] e] eqn:Hloop.
    destruct (previousLoop_appends _ _ _ _ _ _ _ _ Hloop) as (l & Hl & Hlen).
    exists l. split; [destruct o; exact Hl | lia]. }
  split; [exact (Hprev st)|].
  intros t Hv Hjump. unfold sampleTick, recover. rewrite Hv. simpl negb; simpl orb; cbv iota.
  assert ((Qfloor t =? lastSecond st) = false) as ->.
  { apply Z.eqb_neq. unfold CONSTANTS.SKIP_THRESHOLD in Hjump. lia. }
  apply Z.ltb_lt in Hjump. rewrite Hjump.
  assert (feed (fst (clearShownAndFeed st)) = []) as Hclear.
  { unfold clearShownAndFeed, feed. simpl. destruct (messageList st) as [ml|] eqn:E; simpl;
      [reflexivity | rewrite E; reflexivity]. }
  destruct (clearShownAndFeed st) as [s1 e1]; simpl in Hclear.
  destruct (Hprev s1 (Qfloor t)) as (l & Hl & Hlen).
  destruct (showPreviousMessages sinkOk (Qfloor t) s1) as [s2 e2]; simpl in Hl.
  destruct (showCurrentSecondMessages_only_timers (Qfloor t) (set_lastSecond (Qfloor t) s2))
    as (T & HT & _).
  destruct (showCurrentSecondMessages _ _) as [s3 e3]; simpl in *. subst s3.
  change (feed (set_timers T (set_lastSecond (Qfloor t) s2))) with (feed s2).
  rewrite Hl, Hclear. simpl. exact Hlen.
Qed.

Lemma findIndex_app_none {A : Type} (p : A -> bool) (l1 l2 : list A) :
  (forall x, In x l1 -> p x = false) ->
  findIndex p (l1 ++ l2) = (fun i => (length l1 + i)%nat) <$> findIndex p l2.
Proof.
  induction l1 as [|x l1 IH]; intros H; simpl.
  - destruct (findIndex p l2); reflexivity.
  - rewrite (H x (or_introl eq_refl)), IH; [|intros y Hy; apply H; right; exact Hy].
    destruct (findIndex p l2); reflexivity.
Qed.

(** X7.  Where the backfill of a large jump starts.  When the log is
    [before ++ c :: after], with [c] before the target second and every
    comment of [after] at or past it, [firstIdx] is the number [k] of
    comments of [after], and the comments appended are the not yet marked
    ones at the positions [k - 25 .. k - 1] of the log, counted from its
    start: the position is measured from the wrong end of the log. *)
Theorem large_jump_backfill_position
    (sinkOk : Comment -> bool) (second : Z) (st : State)
    (before after : list Comment) (c : Comment) (ml : MessageList) :
  chat_comments st = Some (before ++ c :: after) ->
  lt_second (adjusted st c) second = true ->
  (forall x, In x after -> lt_second (adjusted st x) second = false) ->
  NoDup (map ref (before ++ c :: after)) ->
  messageList st = Some ml ->
  (forall x, sinkOk x = true) ->
  let k := length after in
  let cs := before ++ c :: after in
  let shown := List.filter (fun x => negb (has st x))
                 (firstn (k - (k - CONSTANTS.PREVIOUS_MESSAGES_COUNT))
                    (skipn (k - CONSTANTS.PREVIOUS_MESSAGES_COUNT) cs)) in
  findIndex (fun x => lt_second (adjusted st x) second) (rev cs) = Some k
  /\ feed (fst (showPreviousMessages sinkOk second st)) = feed st ++ shown
  /\ shownMessages (fst (showPreviousMessages sinkOk second st)) = refs shown ∪ shownMessages st.
Proof.
  intros Hcs Hc Hafter Hnd Hml Hok k cs shown.
  assert (findIndex (fun x => lt_second (adjusted st x) second) (rev cs) = Some k) as Hidx.
  { unfold cs. rewrite rev_app_distr. simpl. rewrite <- app_assoc.
    rewrite findIndex_app_none.
    - simpl. rewrite Hc. simpl. unfold k. rewrite length_rev, Nat.add_0_r. reflexivity.
    - intros x Hx. apply Hafter. apply in_rev. exact Hx. }
  split; [exact Hidx|].
  rewrite (showPreviousMessages_batch sinkOk second _ st ml Hcs Hnd Hml).
  unfold previousBatch. fold cs. rewrite Hidx. fold shown.
  rewrite (forEach_showMessage_ok sinkOk shown st ml Hml).
  - simpl. split; [exact (feed_revealed _ _ _ _ Hml) | reflexivity].
  - apply Forall_forall. intros x _. apply Hok.
Qed.

(** X8.  A large jump forgets what was revealed before it: its result,
    state and effects, is the same whatever [shownMessages] and the feed
    held when it happened. *)
Theorem large_jump_forgets_history
    (sinkOk : Comment -> bool) (t : Q) (st : State) (ml : MessageList)
    (marks : gset nat) (l : list Comment) :
  video st = true ->
  messageList st = Some ml ->
  CONSTANTS.SKIP_THRESHOLD < Z.abs (Qfloor t - lastSecond st) ->
  sampleTick sinkOk false t
    (set_shownMessages marks (set_messageList (Some (mkMessageList (parentNode ml) l)) st))
  = sampleTick sinkOk false t st.
Proof.
  intros Hv Hml Hjump. apply sampleTick_large_jump_same_frame.
  - repeat split. simpl. rewrite Hml. reflexivity.
  - exact Hv.
  - exact Hjump.
Qed.

(** ** Samples that are ignored *)

(** X9.  A run of samples each of which is taken while the video is paused,
    or at the second processed last, changes nothing and has no effect:
    pausing for any length of time and resuming at the same second is not a
    jump. *)
Theorem ignored_samples_change_nothing
    (sinkOk : Comment -> bool) (evs : list Event) (st : State) :
  Forall (ignored st) evs -> run sinkOk evs st = (st, []).
Proof.
  induction 1 as [|ev evs Hev _ IH]; [reflexivity|]. simpl run.
  assert (step sinkOk ev st = (st, [])) as ->.
  { destruct ev as [paused t | | | | | | ]; try contradiction. simpl in *.
    destruct (videoInterval st); [|reflexivity]. unfold sampleTick.
    destruct Hev as [-> | Hs].
    - rewrite orb_true_r. reflexivity.
    - apply Z.eqb_eq in Hs. rewrite Hs. destruct (negb (video st) || paused); reflexivity. }
  rewrite IH. reflexivity.
Qed.

(** ** Teardown *)

(** X10.  [cleanup] is idempotent: a second [cleanup] right after the first
    changes nothing more.  It keeps the configuration and the pending
    timers; as it drops the log, a configuration without an offset resolves
    to 900 until a log is loaded again. *)
Theorem cleanup_is_idempotent (st : State) :
  fst (cleanup (fst (cleanup st))) = fst (cleanup st)
  /\ snd (cleanup (fst (cleanup st))) = [ClearShown]
  /\ config (fst (cleanup st)) = config st
  /\ timers (fst (cleanup st)) = timers st
  /\ getTimeOffset (fst (cleanup st))
     = match config st with
       | Some c =>
           match timeOffset c with
           | Undefined => Number (of_Z 900)
           | v => v
           end
       | None => Number (of_Z 900)
       end.
Proof.
  destruct st as [d c ml sh v vd vi ls ia n ts]. unfold cleanup; simpl.
  destruct ml as [[[|] ch]|], vi; simpl; repeat split;
    destruct c as [[[| |q|k]]|]; try reflexivity;
    unfold getTimeOffset, calculateSmartDefaultOffset, smartDefault; simpl;
    destruct vd; reflexivity.
Qed.

(** ** What the feed holds *)

Lemma NoDup_ref_filter (p : Comment -> bool) (l : list Comment) :
  NoDup (map ref l) -> NoDup (map ref (List.filter p l)).
Proof.
  induction l as [|x l IH]; simpl; intros H; [constructor|].
  inversion H as [|? ? Hx Hl]; subst. destruct (p x); simpl; [|exact (IH Hl)].
  constructor; [|exact (IH Hl)].
  intros Hin. apply Hx. apply list_elem_of_In in Hin. apply list_elem_of_In.
  apply in_map_iff in Hin as (y & Hy & Hin). apply filter_In in Hin as [Hin _].
  rewrite <- Hy. apply in_map, Hin.
Qed.

Lemma feed_marked_revealed (l : list Comment) (m : gset nat) (st : State) :
  feed_marked st ->
  NoDup (map ref l) ->
  (forall c, In c l -> ref c ∉ shownMessages st) ->
  refs l ⊆ m ->
  feed_marked (revealed l m st).
Proof.
  intros [Hfeed Hlog] Hnd Hun Hsub. split.
  - intros ml' Hml' Hp. unfold revealed in Hml'; simpl in Hml'.
    destruct (messageList st) as [ml|] eqn:Hml; [|discriminate].
    injection Hml' as <-. simpl in *. destruct (Hfeed ml eq_refl Hp) as [Hnd0 Hmarked].
    split.
    + rewrite map_app. apply NoDup_app. split; [exact Hnd0|]. split; [|exact Hnd].
      intros r Hr Hr'. apply list_elem_of_In in Hr, Hr'.
      apply in_map_iff in Hr as (c & <- & Hc), Hr' as (c' & Hrc & Hc').
      apply (Hun c' Hc'). rewrite Hrc. exact (Hmarked c Hc).
    + intros c Hc. apply in_app_iff in Hc as [Hc | Hc].
      * apply elem_of_union_r. exact (Hmarked c Hc).
      * apply elem_of_union_l, Hsub, elem_of_refs. exists c. split; [exact Hc | reflexivity].
  - exact Hlog.
Qed.

Lemma has_false (st : State) (c : Comment) : has st c = false <-> ref c ∉ shownMessages st.
Proof. unfold has. apply bool_decide_eq_false. Qed.

Section Marked.

Variable sinkOk : Comment -> bool.

Lemma showMessage_marked (c : Comment) (st st1 : State) (o : outcome) (e : list Effect) :
  feed_marked st -> has st c = false ->
  showMessage sinkOk c st = (o, st1, e) -> feed_marked st1.
Proof.
  intros Hinv Hc. apply has_false in Hc.
  assert (NoDup (map ref [c])) as Hnd by (apply NoDup_singleton).
  assert (forall x, In x [c] -> ref x ∉ shownMessages st) as Hun.
  { intros x [<- | []]. exact Hc. }
  destruct (messageList st) as [ml|] eqn:Hml.
  - rewrite (showMessage_feed _ _ _ _ Hml). destruct (sinkOk c); intros [= <- <- <-].
    + apply feed_marked_revealed; try assumption.
      intros r Hr. apply elem_of_refs in Hr as (x & [<- | []] & <-).
      apply elem_of_singleton. reflexivity.
    + apply feed_marked_revealed; [exact Hinv | constructor | intros x [] |].
      intros r Hr. apply elem_of_refs in Hr as (x & [] & _).
  - rewrite (showMessage_no_feed _ _ _ Hml). intros [= <- <- <-]. exact Hinv.
Qed.

Lemma forEach_showMessage_marked (l : list Comment) (st st1 : State)
    (o : outcome) (e : list Effect) :
  feed_marked st ->
  NoDup (map ref l) ->
  (forall c, In c l -> has st c = false) ->
  forEach_showMessage sinkOk l st = (o, st1, e) -> feed_marked st1.
Proof.
  intros Hinv Hnd Hun. destruct (messageList st) as [ml|] eqn:Hml.
  - assert (forall x, In x l -> ref x ∉ shownMessages st) as Hun'.
    { intros x Hx. apply has_false, Hun, Hx. }
    destruct (first_failure sinkOk l) as [Hok | (l1 & c & l2 & -> & Hok & Hc)].
    + rewrite (forEach_showMessage_ok _ _ _ _ Hml Hok). intros [= <- <- <-].
      apply feed_marked_revealed; try assumption. reflexivity.
    + rewrite (forEach_showMessage_throw _ _ _ _ _ _ Hml Hok Hc). intros [= <- <- <-].
      rewrite map_app in Hnd. apply NoDup_app in Hnd as (Hnd1 & _ & _).
      apply feed_marked_revealed; [exact Hinv | exact Hnd1 | | apply union_subseteq_r].
      intros x Hx. apply Hun'. apply in_app_iff. left. exact Hx.
  - rewrite (forEach_showMessage_no_feed _ _ _ Hml). intros [= <- <- <-]. exact Hinv.
Qed.

Lemma previousLoop_marked (cs : list Comment) (count i : nat) (st st1 : State)
    (o : outcome) (e : list Effect) :
  feed_marked st ->
  previousLoop sinkOk count i cs st = (o, st1, e) -> feed_marked st1.
Proof.
  revert i st st1 o e. induction count as [|k IH]; intros i st st1 o e Hinv; simpl.
  - intros [= <- <- <-]. exact Hinv.
  - assert (forall ob sb eb,
              match cs !! i with
              | Some comment =>
                  if has st comment then (Normal, st, []) else showMessage sinkOk comment st
              | None => (Normal, st, [])
              end = (ob, sb, eb) -> feed_marked sb) as Hbody.
    { intros ob sb eb. destruct (cs !! i) as [c|]; [destruct (has st c) eqn:Hc|];
        try (intros [= <- <- <-]; exact Hinv).
      exact (showMessage_marked _ _ _ _ _ Hinv Hc). }
    destruct (match cs !! i with Some _ => _ | None => _ end) as [[[|] s1] e1] eqn:Hb.
    + destruct (previousLoop sinkOk k (S i) cs s1) as [[o2 s2] e2] eqn:Hrest.
      intros [= <- <- <-]. exact (IH _ _ _ _ _ (Hbody _ _ _ eq_refl) Hrest).
    + intros [= <- <- <-]. exact (Hbody _ _ _ eq_refl).
Qed.

Lemma missedLoop_marked (cs : list Comment) (count : nat) (sec : Z) (st st1 : State)
    (o : outcome) (e : list Effect) :
  feed_marked st ->
  NoDup (map ref cs) ->
  missedLoop sinkOk count sec cs st = (o, st1, e) -> feed_marked st1.
Proof.
  intros Hinv Hnd. revert sec st st1 o e Hinv.
  induction count as [|k IH]; intros sec st st1 o e Hinv; simpl.
  - intros [= <- <- <-]. exact Hinv.
  - assert (forall ob sb eb,
              forEach_showMessage sinkOk (missedComments sec cs st) st = (ob, sb, eb) ->
              feed_marked sb) as Hbody.
    { intros ob sb eb. apply (forEach_showMessage_marked _ _ _ _ _ Hinv).
      - apply NoDup_ref_filter, Hnd.
      - intros c Hc. apply In_missedComments in Hc. tauto. }
    destruct (forEach_showMessage sinkOk (missedComments sec cs st) st) as [[[|] s1] e1] eqn:Hb.
    + destruct (missedLoop sinkOk k (sec + 1) cs s1) as [[o2 s2] e2] eqn:Hrest.
      intros [= <- <- <-]. exact (IH _ _ _ _ _ (Hbody _ _ _ eq_refl) Hrest).
    + intros [= <- <- <-]. exact (Hbody _ _ _ eq_refl).
Qed.

Lemma showPreviousMessages_marked (second : Z) (st : State) :
  feed_marked st -> feed_marked (fst (showPreviousMessages sinkOk second st)).
Proof.
  intros Hinv. unfold showPreviousMessages. destruct (chat_comments st) as [cs|]; [|exact Hinv].
  destruct (findIndex _ (rev cs)) as [firstIdx|]; [|exact Hinv].
  destruct (previousLoop sinkOk _ _ cs st) as [[o s1] e] eqn:Hloop.
  pose proof (previousLoop_marked _ _ _ _ _ _ _ Hinv Hloop). destruct o; assumption.
Qed.

Lemma showMissedMessages_marked (from to : Z) (st : State) :
  feed_marked st -> feed_marked (fst (showMissedMessages sinkOk from to st)).
Proof.
  intros Hinv. unfold showMissedMessages. destruct (chat_comments st) as [cs|] eqn:Hcs;
    [|exact Hinv].
  destruct (missedLoop sinkOk _ from cs st) as [[o s1] e] eqn:Hloop.
  pose proof (missedLoop_marked _ _ _ _ _ _ _ Hinv (proj2 Hinv cs Hcs) Hloop).
  destruct o; assumption.
Qed.

Lemma clearShownAndFeed_marked (st : State) :
  feed_marked st -> feed_marked (fst (clearShownAndFeed st)).
Proof.
  intros [_ Hlog]. unfold clearShownAndFeed; simpl.
  destruct (messageList st) as [ml|] eqn:Hml; simpl; (split; [|exact Hlog]).
  - intros ml' [= <-] _. simpl. split; [constructor | intros c []].
  - simpl. rewrite Hml. discriminate.
Qed.

Lemma sampleTick_marked (paused : bool) (t : Q) (st : State) :
  feed_marked st -> feed_marked (fst (sampleTick sinkOk paused t st)).
Proof.
  intros Hinv. unfold sampleTick. destruct (negb (video st) || paused); [exact Hinv|].
  destruct (Qfloor t =? lastSecond st); [exact Hinv|].
  assert (feed_marked (fst (recover sinkOk (Qfloor t) st))) as H1.
  { unfold recover. destruct (_ <? _).
    - pose proof (clearShownAndFeed_marked st Hinv) as Hc.
      destruct (clearShownAndFeed st) as [s1 e1]; simpl in Hc.
      pose proof (showPreviousMessages_marked (Qfloor t) s1 Hc) as Hp.
      destruct (showPreviousMessages sinkOk (Qfloor t) s1) as [s2 e2]. exact Hp.
    - destruct (_ <? _); [apply showMissedMessages_marked, Hinv | exact Hinv]. }
  destruct (recover sinkOk (Qfloor t) st) as [s1 e1]; simpl in H1.
  destruct (showCurrentSecondMessages_only_timers (Qfloor t) (set_lastSecond (Qfloor t) s1))
    as (T & HT & _).
  destruct (showCurrentSecondMessages _ _) as [s3 e3]; simpl in *. subst s3. exact H1.
Qed.

Lemma fireEach_no_feed (l : list Comment) (st : State) :
  messageList st = None -> fst (fireEach sinkOk l st) = st.
Proof.
  intros H. induction l as [|c l IH]; simpl; [reflexivity|].
  unfold fireTimer. rewrite (showMessage_no_feed _ _ _ H).
  destruct (fireEach sinkOk l st) as [s e]. exact IH.
Qed.

Lemma fireEach_marked (l : list Comment) (st : State) :
  feed_marked st ->
  NoDup (map ref l) ->
  (forall c, In c l -> has st c = false) ->
  feed_marked (fst (fireEach sinkOk l st)).
Proof.
  intros Hinv Hnd Hun. destruct (messageList st) as [ml|] eqn:Hml.
  - rewrite (fireEach_feed _ _ _ _ Hml). simpl. apply feed_marked_revealed.
    + exact Hinv.
    + apply NoDup_ref_filter, Hnd.
    + intros c Hc. apply filter_In in Hc as [Hc _]. apply has_false, Hun, Hc.
    + intros r Hr. apply elem_of_refs in Hr as (c & Hc & <-). apply filter_In in Hc as [Hc _].
      apply elem_of_refs. exists c. split; [exact Hc | reflexivity].
  - rewrite (fireEach_no_feed _ _ Hml). exact Hinv.
Qed.

End Marked.

(** X11.  Every comment in an attached feed is marked in [shownMessages]
    and no comment is in it twice, and every event of a session keeps it
    so, on two conditions: a log that is loaded holds no object twice, and
    no timer fires for a comment that is already marked or that another
    timer firing with it also reveals.  Sampling, jumps of either size, a
    change of offset, teardown and restart cannot put a comment into the
    feed twice: only a timer can. *)
Theorem feed_stays_marked (sinkOk : Comment -> bool) (ev : Event) (st : State) :
  feed_marked st ->
  (forall d cs, ev = ChatLoaded d -> comments d = Some cs -> NoDup (map ref cs)) ->
  (forall dt, ev = Advance dt ->
     let due := map snd (List.filter (isDue (now st + dt)) (timers st)) in
     NoDup (map ref due) /\ forall c, In c due -> has st c = false) ->
  feed_marked (fst (step sinkOk ev st)).
Proof.
  intros Hinv Hload Hdue.
  destruct ev as [paused t | dt | settings t | | d | | duration]; simpl.
  - destruct (videoInterval st); [apply sampleTick_marked, Hinv | exact Hinv].
  - destruct (Hdue dt eq_refl) as [Hnd Hun]. unfold advance.
    apply fireEach_marked; [exact Hinv | exact Hnd | exact Hun].
  - unfold updateSettings. destruct (_ && _); [|exact Hinv].
    unfold refreshChatWithNewOffset. simpl video. simpl chatData. simpl messageList.
    destruct (video st); [|exact Hinv]. destruct (chatData st) eqn:Hd; [|exact Hinv].
    destruct (messageList st) as [ml|] eqn:Hml; [|exact Hinv].
    match goal with
    | |- feed_marked (fst (let '(_, _) := showPreviousMessages _ _ ?s in _)) =>
        pose proof (showPreviousMessages_marked sinkOk (Qfloor t) s) as Hp;
        destruct (showPreviousMessages sinkOk (Qfloor t) s) as [s3 e3]
    end.
    apply Hp. split.
    + intros ml' [= <-] _. simpl. split; [constructor | intros ? []].
    + exact (proj2 Hinv).
  - unfold cleanup. simpl.
    assert (forall s, chat_comments s = None -> (forall ml, messageList s = Some ml ->
              parentNode ml = true -> False) -> feed_marked s) as Hnone.
    { intros s Hc Hm. split; [intros ml H1 H2; destruct (Hm ml H1 H2)|].
      intros cs H. rewrite Hc in H. discriminate. }
    destruct (messageList st) as [[[|] ch]|] eqn:Hml; simpl;
      destruct (videoInterval st) eqn:Hvi; simpl; rewrite ?Hvi; simpl;
      apply Hnone; try reflexivity; simpl; try rewrite Hml; intros ml' H1 H2;
      try discriminate; injection H1 as <-; discriminate.
  - split; [exact (proj1 Hinv)|]. intros cs Hcs. exact (Hload d cs eq_refl Hcs).
  - assert (feed_marked (fst (injectChat st))) as Hi.
    { unfold injectChat. split.
      - intros ml' Hml' _.
        assert (ml' = mkMessageList true []) as ->.
        { destruct (messageList st) as [[[|] ch]|]; simpl in Hml'; congruence. }
        simpl. split; [constructor | intros c []].
      - intros cs Hcs. apply (proj2 Hinv cs).
        destruct (messageList st) as [[[|] ch]|]; exact Hcs. }
    destruct (chat_comments st) as [[|c cs]|]; [exact Hinv | exact Hi | exact Hinv].
  - unfold onVideoReady. simpl videoInterval.
    assert (feed_marked (set_video true (Some duration) st)) as H0 by exact Hinv.
    destruct (videoInterval st).
    + pose proof (clearShownAndFeed_marked _ H0) as Hc.
      destruct (clearShownAndFeed (set_video true (Some duration) st)) as [s e]. exact Hc.
    + exact H0.
Qed.

(** ** Manual links *)

Lemma truthy_string_inv (v : string) :
  truthy_string (Some v) = true -> exists a s, v = String a s.
Proof. destruct v as [|a s]; [discriminate | intros _; eauto]. Qed.

(** An assignment is an insertion, except the one to ["__proto__"] that
    finds no own property, which changes nothing. *)
Lemma js_set_insert {V : Type} (key : string) (v : V) (o : gmap string V) :
  key <> "__proto__"%string \/ o !! key <> None -> js_set key v o = <[key := v]> o.
Proof.
  intros H. unfold js_set.
  destruct (bool_decide (key = "__proto__"%string)) eqn:E1; [|reflexivity].
  destruct (bool_decide (o !! key = None)) eqn:E2; [|reflexivity]. exfalso.
  apply bool_decide_eq_true in E1, E2. tauto.
Qed.

Lemma js_set_proto {V : Type} (v : V) (o : gmap string V) :
  o !! "__proto__"%string = None -> js_set "__proto__"%string v o = o.
Proof.
  intros H. unfold js_set. rewrite !bool_decide_eq_true_2; [reflexivity | exact H | reflexivity].
Qed.

(** Looking up what was just assigned finds a truthy property. *)
Lemma js_get_set (key v : string) (o : gmap string string) :
  truthy_string (Some v) = true -> truthy_property (js_get (js_set key v o) key) = true.
Proof.
  intros Hv. unfold js_set, js_get.
  destruct (bool_decide (key = "__proto__"%string)) eqn:E1; simpl.
  - apply bool_decide_eq_true in E1. subst key.
    destruct (bool_decide (o !! "__proto__"%string = None)) eqn:E2.
    + apply bool_decide_eq_true in E2. rewrite E2. reflexivity.
    + rewrite lookup_insert_eq. exact Hv.
  - rewrite lookup_insert_eq. exact Hv.
Qed.

Lemma delete_js_set {V : Type} (key : string) (v : V) (o : gmap string V) :
  delete key (js_set key v o) = delete key o.
Proof.
  unfold js_set. destruct (_ && _); [reflexivity | apply delete_insert_eq].
Qed.

Lemma js_get_absent {V : Type} (key : string) (o : gmap string V) :
  o !! key = None ->
  js_get o key = if bool_decide (key ∈ objectPrototype) then Inherited else Missing.
Proof. intros H. unfold js_get. rewrite H. reflexivity. Qed.

Lemma objectPrototype_truthy (key : string) :
  key ∈ objectPrototype -> truthy_string (Some key) = true.
Proof.
  intros H. apply list_elem_of_In in H. simpl in H.
  repeat (destruct H as [<- | H]; [reflexivity|]). contradiction.
Qed.

Lemma get_set_manualLinks (m : gmap string string) (s : Storage) :
  get_manualLinks (set_stored_manualLinks m s) = m.
Proof. reflexivity. Qed.

Lemma set_set_manualLinks (m m' : gmap string string) (s : Storage) :
  set_stored_manualLinks m (set_stored_manualLinks m' s) = set_stored_manualLinks m s.
Proof. reflexivity. Qed.

Lemma removeManualLink_found (id : string) (links : Links) (s : Storage) (st : State) :
  truthy_string (Some id) = true ->
  truthy_property (js_get (get_manualLinks s) id) = true ->
  removeManualLink (Some id) links (Some s) st
  = (forget_link id links,
     Some (set_stored_manualLinks (delete id (get_manualLinks s)) s),
     fst (cleanup st), Success "Manual link removed successfully").
Proof.
  intros Hid H. destruct id as [|a0 s0]; [discriminate|].
  unfold removeManualLink. rewrite H. reflexivity.
Qed.

Lemma linkTwitchVOD_linked (yt vod : string) (links : Links) (s : Storage) :
  truthy_string (Some yt) = true ->
  truthy_string (Some vod) = true ->
  linkTwitchVOD (Some yt) (Some vod) links (Some s)
  = (if isManualLinkMode links && bool_decide (pendingVideoId links = Some yt)
     then mkLinks (Some (js_set yt vod (default ∅ (ttvLink links)))) false None
     else mkLinks (Some (js_set yt vod (default ∅ (ttvLink links))))
            (isManualLinkMode links) (pendingVideoId links),
     Some (set_stored_manualLinks (js_set yt vod (get_manualLinks s)) s),
     Success "Chat linked successfully").
Proof.
  intros Hyt Hvod. destruct yt as [|a0 s0]; [discriminate|].
  destruct vod as [|a1 s1]; [discriminate|]. reflexivity.
Qed.

Lemma isLekkerSpelen_found (id channel : string) (links : Links) (m : gmap string string) :
  truthy_string (Some id) = true ->
  ttvLink links = Some m ->
  truthy_property (js_get m id) = true ->
  isLekkerSpelen (Some id) links channel = true.
Proof.
  intros Hid Hm H. destruct id as [|a0 s0]; [discriminate|].
  unfold isLekkerSpelen. rewrite Hm, H. reflexivity.
Qed.

(** X12.  Linking a video to a chat log and removing the link again.  The
    link is answered with success, maps the video in [ttvLink] and in the
    stored manual links (an id ["__proto__"] that is no own property yet
    is mapped in neither), and makes the video count as a Lekker Spelen
    video whatever its channel; the removal is answered with success,
    leaves the stored manual links as they were before the link, without
    the video, cleans the session up, and removes the video from
    [ttvLink], also when it was mapped there before the manual link was
    made.  After the next [init], which only merges the stored manual
    links into the [ttvLink] it has, a lookup of the video finds nothing,
    unless the id names a property of [Object.prototype], which every
    lookup finds. *)
Theorem manual_link_round_trip
    (yt vod : string) (links : Links) (s : Storage) (st : State)
    (channel : string) (builtin : gmap string string) :
  truthy_string (Some yt) = true ->
  truthy_string (Some vod) = true ->
  let linked := linkTwitchVOD (Some yt) (Some vod) links (Some s) in
  let links1 := fst (fst linked) in
  let storage1 := snd (fst linked) in
  let removed := removeManualLink (Some yt) links1 storage1 st in
  let links2 := fst (fst (fst removed)) in
  let storage2 := snd (fst (fst removed)) in
  snd linked = Success "Chat linked successfully"
  /\ (yt <> "__proto__"%string ->
      ttvLink links1 = Some (<[yt := vod]> (default ∅ (ttvLink links)))
      /\ storage1 = Some (set_stored_manualLinks (<[yt := vod]> (get_manualLinks s)) s))
  /\ (yt = "__proto__"%string ->
      (default ∅ (ttvLink links) !! yt = None ->
       ttvLink links1 = Some (default ∅ (ttvLink links)))
      /\ (get_manualLinks s !! yt = None ->
          storage1 = Some (set_stored_manualLinks (get_manualLinks s) s)))
  /\ isLekkerSpelen (Some yt) links1 channel = true
  /\ snd removed = Success "Manual link removed successfully"
  /\ get_manualLinks <$> storage2 = Some (delete yt (get_manualLinks s))
  /\ snd (fst removed) = fst (cleanup st)
  /\ ttvLink links2 = Some (delete yt (default ∅ (ttvLink links)))
  /\ (forall s2, storage2 = Some s2 ->
        exists m, ttvLink (init_links builtin links2 s2) = Some m
                  /\ m !! yt = None
                  /\ truthy_property (js_get m yt) = bool_decide (yt ∈ objectPrototype)).
Proof.
  intros Hyt Hvod linked links1 storage1.
  assert (ttvLink links1 = Some (js_set yt vod (default ∅ (ttvLink links)))
          /\ storage1 = Some (set_stored_manualLinks (js_set yt vod (get_manualLinks s)) s)
          /\ snd linked = Success "Chat linked successfully") as (Hl1 & Hs1 & Hr1).
  { unfold links1, storage1, linked. rewrite (linkTwitchVOD_linked _ _ _ _ Hyt Hvod).
    destruct (isManualLinkMode links && _); repeat split; reflexivity. }
  intros removed links2 storage2.
  assert (removed = (forget_link yt links1,
                     Some (set_stored_manualLinks (delete yt (get_manualLinks s)) s),
                     fst (cleanup st), Success "Manual link removed successfully")) as Hrem.
  { unfold removed. rewrite Hs1. rewrite (removeManualLink_found _ _ _ _ Hyt).
    - rewrite get_set_manualLinks, set_set_manualLinks, delete_js_set. reflexivity.
    - rewrite get_set_manualLinks. apply js_get_set, Hvod. }
  assert (ttvLink links2 = Some (delete yt (default ∅ (ttvLink links)))) as Hl2.
  { unfold links2. rewrite Hrem. cbn [fst]. unfold forget_link. rewrite Hl1.
    rewrite (js_get_set _ _ _ Hvod). cbn [ttvLink]. rewrite delete_js_set. reflexivity. }
  split; [exact Hr1|]. split.
  { intros Hne. rewrite Hl1, Hs1, !js_set_insert by (left; exact Hne). split; reflexivity. }
  split.
  { intros ->. split; intros H; [rewrite Hl1 | rewrite Hs1]; rewrite (js_set_proto _ _ H);
      reflexivity. }
  split.
  { apply (isLekkerSpelen_found _ _ _ _ Hyt Hl1), js_get_set, Hvod. }
  unfold storage2. rewrite Hrem. cbn [fst snd].
  split; [reflexivity|]. split; [reflexivity|]. split; [reflexivity|].
  split; [exact Hl2|].
  intros s2 [= <-]. unfold init_links. cbn [ttvLink]. rewrite Hl2, get_set_manualLinks.
  eexists. split; [reflexivity|].
  match goal with
  | |- ?M !! yt = None /\ _ => assert (M !! yt = None) as Hnone
  end.
  { apply lookup_union_None. split; apply lookup_delete_eq. }
  split; [exact Hnone|]. rewrite (js_get_absent _ _ Hnone).
  destruct (bool_decide (yt ∈ objectPrototype)); reflexivity.
Qed.

(** X13.  A request that is answered with a failure has changed nothing:
    not the links, not the storage, not the session.  The one exception is
    a link request made while the storage cannot be reached, which has
    already put the video into [ttvLink].  Removing the link of a video
    that has no stored manual link fails, also when [ttvLink] maps it,
    unless the id names a property of [Object.prototype]: the lookup then
    finds that property, and the request is answered with success and
    tears the session down. *)
Theorem failed_requests_change_nothing :
  (forall yt vod links storage links' storage' e,
     linkTwitchVOD yt vod links storage = (links', storage', Failure e) ->
     storage' = storage /\
     (links' = links \/ (storage = None /\ e = "Storage API not available"%string)))
  /\ (forall yt links storage st links' storage' st' e,
        removeManualLink yt links storage st = (links', storage', st', Failure e) ->
        links' = links /\ storage' = storage /\ st' = st)
  /\ (forall id links s st,
        truthy_string (get_manualLinks s !! id) = false ->
        id ∉ objectPrototype ->
        exists e, removeManualLink (Some id) links (Some s) st
                  = (links, Some s, st, Failure e))
  /\ (forall id links s st,
        get_manualLinks s !! id = None ->
        id ∈ objectPrototype ->
        removeManualLink (Some id) links (Some s) st
        = (forget_link id links, Some (set_stored_manualLinks (get_manualLinks s) s),
           fst (cleanup st), Success "Manual link removed successfully")).
Proof.
  split; [|split; [|split]].
  - intros yt vod links storage links' storage' e. unfold linkTwitchVOD.
    destruct (or_else yt (pendingVideoId links)) as [[|a0 s0]|];
      try (intros [= <- <- <-]; split; [reflexivity | left; reflexivity]).
    destruct vod as [[|a1 s1]|];
      try (intros [= <- <- <-]; split; [reflexivity | left; reflexivity]).
    destruct storage as [s|].
    + destruct (_ && _); discriminate.
    + intros [= <- <- <-]. split; [reflexivity | right; split; reflexivity].
  - intros yt links storage st links' storage' st' e. unfold removeManualLink.
    destruct yt as [[|a0 s0]|]; try (intros [= <- <- <- <-]; repeat split).
    destruct storage as [s|]; [|intros [= <- <- <- <-]; repeat split].
    destruct (truthy_property _); [discriminate | intros [= <- <- <- <-]; repeat split].
  - intros id links s st H Hid. unfold removeManualLink.
    destruct id as [|a0 s0]; [eexists; reflexivity|].
    assert (truthy_property (js_get (get_manualLinks s) (String a0 s0)) = false) as ->;
      [|eexists; reflexivity].
    unfold js_get. destruct (get_manualLinks s !! String a0 s0) as [v|]; [exact H|].
    rewrite bool_decide_eq_false_2 by exact Hid. reflexivity.
  - intros id links s st H Hid.
    rewrite (removeManualLink_found _ _ _ _ (objectPrototype_truthy _ Hid)).
    + rewrite (delete_id _ _ H). reflexivity.
    + rewrite (js_get_absent _ _ H), bool_decide_eq_true_2 by exact Hid. reflexivity.
Qed.

(** X14.  A link request without a video id is made for the pending video.
    Manual link mode ends, and the pending video is forgotten, exactly
    when the video linked is the pending one; linking another video leaves
    the mode and the pending video as they are. *)
Theorem linking_the_pending_video_ends_manual_link_mode
    (yt vod : string) (links : Links) (s : Storage) :
  isManualLinkMode links = true ->
  pendingVideoId links = Some yt ->
  truthy_string (Some yt) = true ->
  truthy_string (Some vod) = true ->
  let r := linkTwitchVOD None (Some vod) links (Some s) in
  r = linkTwitchVOD (Some yt) (Some vod) links (Some s)
  /\ snd r = Success "Chat linked successfully"
  /\ fst (fst r) = mkLinks (Some (js_set yt vod (default ∅ (ttvLink links)))) false None
  /\ (forall other, truthy_string (Some other) = true -> other <> yt ->
        fst (fst (linkTwitchVOD (Some other) (Some vod) links (Some s)))
        = mkLinks (Some (js_set other vod (default ∅ (ttvLink links)))) true (Some yt)).
Proof.
  intros Hmode Hpending Hyt Hvod.
  destruct (truthy_string_inv _ Hyt) as (a0 & s0 & ->).
  destruct (truthy_string_inv _ Hvod) as (a1 & s1 & ->).
  intros r. unfold r, linkTwitchVOD, or_else. rewrite Hpending, Hmode. simpl.
  rewrite bool_decide_eq_true_2 by reflexivity.
  split; [reflexivity|]. split; [reflexivity|]. split; [reflexivity|].
  intros other Hother Hne. destruct (truthy_string_inv _ Hother) as (a2 & s2 & ->).
  simpl. rewrite bool_decide_eq_false_2; [reflexivity|]. congruence.
Qed.

(** ** Waiting for the page *)

Lemma getVideoElement_from_settles (fuel attempts : nat) (present : nat -> bool) :
  (attempts < 60 <= attempts + fuel)%nat ->
  match getVideoElement_from fuel attempts present with
  | Some (Resolved k) =>
      (attempts < k <= 60)%nat /\ present k = true
      /\ forall j, (attempts < j < k)%nat -> present j = false
  | Some (Rejected k) =>
      k = 60%nat /\ forall j, (attempts < j <= 60)%nat -> present j = false
  | None => False
  end.
Proof.
  revert attempts. induction fuel as [|fuel IH]; intros attempts H; [lia|].
  cbn [getVideoElement_from]. destruct (present (S attempts)) eqn:Hp.
  - split; [lia|]. split; [exact Hp|]. intros j Hj. lia.
  - destruct (60 <=? S attempts)%nat eqn:Hmax.
    + apply Nat.leb_le in Hmax. split; [lia|]. intros j Hj.
      replace j with (S attempts) by lia. exact Hp.
    + apply Nat.leb_gt in Hmax. specialize (IH (S attempts)).
      destruct (getVideoElement_from fuel (S attempts) present) as [[k|k]|].
      * destruct IH as (Hk & Hpk & Hbefore); [lia|]. split; [lia|]. split; [exact Hpk|].
        intros j Hj. destruct (Nat.eq_dec j (S attempts)) as [-> | Hne]; [exact Hp|].
        apply Hbefore. lia.
      * destruct IH as (Hk & Hnone); [lia|]. split; [exact Hk|].
        intros j Hj. destruct (Nat.eq_dec j (S attempts)) as [-> | Hne]; [exact Hp|].
        apply Hnone. lia.
      * apply IH. lia.
Qed.

(** X15.  [getVideoElement] always settles, within 60 checks, that is 30
    seconds: it resolves at the first check that finds a video element,
    never before the first interval has passed, and rejects at the 60th
    check when none of the 60 found one. *)
Theorem getVideoElement_settles_within_30_seconds (fuel : nat) (present : nat -> bool) :
  (60 <= fuel)%nat ->
  match getVideoElement fuel present with
  | Some (Resolved k) =>
      (1 <= k <= 60)%nat /\ present k = true
      /\ (forall j, (1 <= j < k)%nat -> present j = false)
      /\ VIDEO_CHECK_INTERVAL <= Z.of_nat k * VIDEO_CHECK_INTERVAL <= 30000
  | Some (Rejected k) =>
      (forall j, (1 <= j <= 60)%nat -> present j = false)
      /\ Z.of_nat k * VIDEO_CHECK_INTERVAL = 30000
  | None => False
  end.
Proof.
  intros Hfuel. unfold getVideoElement.
  pose proof (getVideoElement_from_settles fuel 0 present) as H.
  destruct (getVideoElement_from fuel 0 present) as [[k|k]|].
  - destruct H as (Hk & Hp & Hb); [lia|]. split; [lia|]. split; [exact Hp|].
    split; [intros j Hj; apply Hb; lia|]. unfold VIDEO_CHECK_INTERVAL. lia.
  - destruct H as (-> & Hn); [lia|]. split; [intros j Hj; apply Hn; lia | reflexivity].
  - apply H. lia.
Qed.

Lemma waitForChatContainer_from_created (fuel attempts : nat) (page : nat -> PageView) :
  (attempts < 30 <= attempts + fuel)%nat ->
  snd (waitForChatContainer_from fuel attempts true page) = []
  /\ match fst (waitForChatContainer_from fuel attempts true page) with
     | Some (Resolved k) =>
         (attempts < k <= 30)%nat /\ chatExists (page k) = true
         /\ forall j, (attempts < j < k)%nat -> chatExists (page j) = false
     | Some (Rejected k) =>
         k = 30%nat /\ forall j, (attempts < j <= 30)%nat -> chatExists (page j) = false
     | None => False
     end.
Proof.
  revert attempts. induction fuel as [|fuel IH]; intros attempts H; [lia|].
  cbn [waitForChatContainer_from]. rewrite andb_false_r. cbn [andb orb].
  rewrite orb_false_r.
  destruct (chatExists (page (S attempts))) eqn:Hp; cbn [fst snd].
  - split; [reflexivity|]. split; [lia|]. split; [exact Hp|]. intros j Hj. lia.
  - destruct (30 <=? S attempts)%nat eqn:Hmax; cbn [fst snd].
    + apply Nat.leb_le in Hmax. split; [reflexivity|]. split; [lia|]. intros j Hj.
      replace j with (S attempts) by lia. exact Hp.
    + apply Nat.leb_gt in Hmax. specialize (IH (S attempts)).
      destruct (waitForChatContainer_from fuel (S attempts) true page) as [r later].
      simpl in *. destruct IH as [Hlater Hr]; [lia|]. split; [exact Hlater|].
      destruct r as [[k|k]|]; [| |exact Hr].
      * destruct Hr as (Hk & Hpk & Hbefore). split; [lia|]. split; [exact Hpk|].
        intros j Hj. destruct (Nat.eq_dec j (S attempts)) as [-> | Hne]; [exact Hp|].
        apply Hbefore. lia.
      * destruct Hr as (Hk & Hnone). split; [exact Hk|].
        intros j Hj. destruct (Nat.eq_dec j (S attempts)) as [-> | Hne]; [exact Hp|].
        apply Hnone. lia.
Qed.

(** X16.  [waitForChatContainer] always settles, within 30 checks.  It
    calls [createChatContainer] at most once, and only at its first check:
    when the page has a [#chat] or a container can be created then, it
    resolves at that check; when neither is so, the creation is never tried
    again, whatever the page becomes, and the wait resolves at the first
    later check that finds a [#chat], or rejects at the 30th check. *)
Theorem waitForChatContainer_creates_at_most_once (fuel : nat) (page : nat -> PageView) :
  (30 <= fuel)%nat ->
  let r := fst (waitForChatContainer fuel page) in
  let calls := snd (waitForChatContainer fuel page) in
  calls = (if chatExists (page 1%nat) then [] else [1%nat])
  /\ (chatExists (page 1%nat) || canCreate (page 1%nat) = true -> r = Some (Resolved 1))
  /\ (chatExists (page 1%nat) || canCreate (page 1%nat) = false ->
      match r with
      | Some (Resolved k) =>
          (2 <= k <= 30)%nat /\ chatExists (page k) = true
          /\ forall j, (1 <= j < k)%nat -> chatExists (page j) = false
      | Some (Rejected k) =>
          Z.of_nat k * CHAT_CHECK_INTERVAL = 30000
          /\ forall j, (1 <= j <= 30)%nat -> chatExists (page j) = false
      | None => False
      end).
Proof.
  intros Hfuel r calls. unfold r, calls, waitForChatContainer.
  destruct fuel as [|fuel]; [lia|]. simpl.
  destruct (chatExists (page 1%nat)) eqn:Hchat; simpl.
  - split; [reflexivity|]. split; [reflexivity | discriminate].
  - destruct (canCreate (page 1%nat)) eqn:Hcan; simpl.
    + split; [reflexivity|]. split; [reflexivity | discriminate].
    + pose proof (waitForChatContainer_from_created fuel 1 page) as H.
      destruct (waitForChatContainer_from fuel 1 true page) as [r1 later]. simpl in *.
      destruct H as [-> Hr]; [lia|]. split; [reflexivity|]. split; [discriminate|].
      intros _. destruct r1 as [[k|k]|]; [| |exact Hr].
      * destruct Hr as (Hk & Hp & Hb). split; [lia|]. split; [exact Hp|].
        intros j Hj. destruct (Nat.eq_dec j 1%nat) as [-> | Hne];
          [exact Hchat | apply Hb; lia].
      * destruct Hr as (-> & Hn). split; [reflexivity|].
        intros j Hj. destruct (Nat.eq_dec j 1%nat) as [-> | Hne];
          [exact Hchat | apply Hn; lia].
Qed.

(** ** A comment the sink rejects *)

(** X17.  A comment for which the sink throws is marked all the same: the
    feed does not get it, and from then on no selection (for the current
    second, for missed seconds, for previous messages) contains it, so the
    reveal is not retried before [shownMessages] is cleared. *)
Theorem failed_render_is_not_retried
    (sinkOk : Comment -> bool) (c : Comment) (st : State) (ml : MessageList) :
  messageList st = Some ml ->
  sinkOk c = false ->
  let r := showMessage sinkOk c st in
  let st1 := snd (fst r) in
  fst (fst r) = Throw
  /\ feed st1 = feed st
  /\ has st1 c = true
  /\ forall (s : Z) (cs : list Comment),
       ~ In c (commentsThisSecond s cs st1)
       /\ ~ In c (missedComments s cs st1)
       /\ ~ In c (previousBatch s cs st1).
Proof.
  intros Hml Hc r st1. unfold st1, r. rewrite (showMessage_feed _ _ _ _ Hml), Hc.
  simpl fst; simpl snd.
  assert (has (revealed [] {[ref c]} st) c = true) as Hhas.
  { rewrite has_revealed. rewrite bool_decide_eq_true_2; [reflexivity|].
    apply elem_of_singleton. reflexivity. }
  split; [reflexivity|]. split.
  { rewrite (feed_revealed _ _ _ _ Hml). apply app_nil_r. }
  split; [exact Hhas|].
  intros s cs. split; [|split].
  - intros H. apply filter_In in H as [_ H]. rewrite Hhas, andb_false_r in H. discriminate.
  - intros H. apply In_missedComments in H as (_ & _ & H). congruence.
  - unfold previousBatch. destruct (findIndex _ (rev cs)); [|intros []].
    intros H. apply filter_In in H as [_ H]. rewrite Hhas in H. discriminate.
Qed.

(** ** What a sample leaves alone *)

Lemma showCurrentSecondMessages_keeps_timers (currentSecond : Z) (st : State) (u : Q * Comment) :
  In u (timers st) -> In u (timers (fst (showCurrentSecondMessages currentSecond st))).
Proof.
  intros Hu. destruct (chat_comments st) as [cs|] eqn:Hcs.
  - rewrite (showCurrentSecondMessages_eq _ _ _ Hcs). simpl.
    apply In_fold_enqueue. right. exact Hu.
  - unfold showCurrentSecondMessages. rewrite Hcs. exact Hu.
Qed.

(** X18.  A sample, whatever it is classified as, never cancels a pending
    timer, not even when a large jump clears the feed, and never changes
    the log, the configuration, the clock or the flags of the session; it
    keeps the message list attached or detached as it was. *)
Theorem sample_never_cancels_a_timer
    (sinkOk : Comment -> bool) (paused : bool) (t : Q) (st : State) :
  let st1 := fst (sampleTick sinkOk paused t st) in
  (forall u, In u (timers st) -> In u (timers st1))
  /\ chatData st1 = chatData st
  /\ config st1 = config st
  /\ video st1 = video st
  /\ videoInterval st1 = videoInterval st
  /\ isActive st1 = isActive st
  /\ now st1 = now st
  /\ parentNode <$> messageList st1 = parentNode <$> messageList st.
Proof.
  intros st1. unfold st1, sampleTick.
  destruct (negb (video st) || paused); [repeat split; tauto|].
  destruct (Qfloor t =? lastSecond st); [repeat split; tauto|].
  pose proof (recover_footprint sinkOk (Qfloor t) st) as (F & _ & _).
  destruct (recover sinkOk (Qfloor t) st) as [s1 e1]; simpl in F.
  pose proof (showCurrentSecondMessages_keeps_timers (Qfloor t)
                (set_lastSecond (Qfloor t) s1)) as Hkeep.
  destruct (showCurrentSecondMessages_only_timers (Qfloor t) (set_lastSecond (Qfloor t) s1))
    as (T & HT & _).
  destruct (showCurrentSecondMessages _ _) as [s3 e3]; simpl in *. subst s3.
  destruct F as (Hd & Hc & Hv & _ & Hvi & _ & Hia & Hn & Ht & Hp).
  split; [intros u Hu; apply Hkeep; simpl; rewrite <- Ht; exact Hu|].
  simpl. repeat split; congruence.
Qed.

(** ** Timers are short-lived *)

Lemma timers_within_frame (st st1 : State) :
  now st1 = now st -> timers st1 = timers st ->
  timers_within_a_second st -> timers_within_a_second st1.
Proof. unfold timers_within_a_second. intros -> ->. tauto. Qed.

Lemma showCurrentSecondMessages_within (currentSecond : Z) (st : State) :
  timers_within_a_second st ->
  timers_within_a_second (fst (showCurrentSecondMessages currentSecond st)).
Proof.
  intros H. destruct (chat_comments st) as [cs|] eqn:Hcs.
  - rewrite (showCurrentSecondMessages_eq _ _ _ Hcs). unfold timers_within_a_second in *.
    cbn [fst timers set_timers now]. rewrite Forall_forall in *.
    intros u Hu. apply list_elem_of_In in Hu. apply In_fold_enqueue in Hu as [Hu | Hu].
    + destruct (In_stagger_due _ _ _ _ _ Hu) as (i & Hi & ->).
      destruct (staggerDelay_bounds i (length (commentsThisSecond currentSecond cs st)))
        as [_ Hlt]; [lia|].
      lra.
    + apply H, list_elem_of_In, Hu.
  - unfold showCurrentSecondMessages. rewrite Hcs. exact H.
Qed.

Lemma step_within (sinkOk : Comment -> bool) (ev : Event) (st : State) :
  (forall dt, ev = Advance dt -> (0 <= dt)%Q) ->
  timers_within_a_second st -> timers_within_a_second (fst (step sinkOk ev st)).
Proof.
  intros Hev H. destruct ev as [paused t | dt | settings t | | d | | duration]; cbn [step].
  - destruct (videoInterval st); [|exact H].
    unfold sampleTick. destruct (negb (video st) || paused); [exact H|].
    destruct (Qfloor t =? lastSecond st); [exact H|].
    pose proof (recover_footprint sinkOk (Qfloor t) st) as (F & _ & _).
    destruct (recover sinkOk (Qfloor t) st) as [s1 e1]; simpl in F.
    destruct F as (_ & _ & _ & _ & _ & _ & _ & Hn & Ht & _).
    pose proof (showCurrentSecondMessages_within (Qfloor t) (set_lastSecond (Qfloor t) s1))
      as Hw.
    destruct (showCurrentSecondMessages _ _) as [s3 e3]. cbn [fst] in *.
    apply Hw. apply (timers_within_frame st); [symmetry; exact Hn | symmetry; exact Ht | exact H].
  - specialize (Hev dt eq_refl). unfold advance.
    match goal with
    | |- timers_within_a_second (fst (fireEach _ ?l ?s)) =>
        pose proof (fireEach_same_frame sinkOk l s) as (_ & _ & _ & _ & _ & _ & _ & Hn & Ht & _)
    end.
    unfold timers_within_a_second in *. rewrite <- Hn, <- Ht.
    cbn [now timers set_timers set_now]. rewrite Forall_forall in *.
    intros u Hu. apply list_elem_of_In in Hu. apply filter_In in Hu as [Hu _].
    specialize (H u (proj2 (list_elem_of_In _ _) Hu)). lra.
  - destruct (updateSettings_frame sinkOk settings t st) as (Hn & Ht & _).
    apply (timers_within_frame st); assumption.
  - apply (timers_within_frame st); [| | exact H]; unfold cleanup; simpl;
      destruct (messageList st) as [[[|] ch]|]; simpl; destruct (videoInterval st); reflexivity.
  - exact H.
  - destruct (chat_comments st) as [[|c l]|]; try exact H.
    unfold injectChat. destruct (messageList st) as [[[|] ch]|]; exact H.
  - apply (timers_within_frame st); [| | exact H]; unfold onVideoReady, clearShownAndFeed; simpl;
      destruct (videoInterval st); simpl; try reflexivity;
      destruct (messageList st) as [[p ch]|]; reflexivity.
Qed.

(** X21.  No timer outlives its second.  If every pending timer is due
    less than 1000 ms ahead, as when there is none, this is still so after
    any sequence of samples, changes of settings, teardowns and restarts,
    as time passes: a sample creates timers of less than 1000 ms only, and
    nothing else creates or delays one. *)
Theorem pending_timers_are_due_within_a_second
    (sinkOk : Comment -> bool) (evs : list Event) (st : State) :
  Forall (fun ev => forall dt, ev = Advance dt -> (0 <= dt)%Q) evs ->
  timers_within_a_second st ->
  timers_within_a_second (fst (run sinkOk evs st))
  /\ Forall (fun u => (fst u < now (fst (run sinkOk evs st)) + inject_Z 1000)%Q)
       (timers (fst (run sinkOk evs st))).
Proof.
  intros Hevs H.
  assert (timers_within_a_second (fst (run sinkOk evs st))) as Hrun; [|split; exact Hrun].
  revert st H. induction Hevs as [|ev evs Hev _ IH]; intros st H; simpl; [exact H|].
  pose proof (step_within sinkOk ev st Hev H) as H1.
  destruct (step sinkOk ev st) as [s1 e1]; simpl in H1.
  specialize (IH s1 H1). destruct (run sinkOk evs s1) as [s2 e2]. exact IH.
Qed.

(** ** The two directions of a small jump *)

Section Direction.

Variable sinkOk : Comment -> bool.

Lemma showMessage_lastSecond (v : Z) (c : Comment) (st : State) :
  showMessage sinkOk c (set_lastSecond v st)
  = (fst (fst (showMessage sinkOk c st)),
     set_lastSecond v (snd (fst (showMessage sinkOk c st))),
     snd (showMessage sinkOk c st)).
Proof.
  unfold showMessage. simpl messageList. destruct (messageList st); [|reflexivity].
  destruct (sinkOk c); reflexivity.
Qed.

Lemma forEach_showMessage_lastSecond (v : Z) (l : list Comment) (st : State) :
  forEach_showMessage sinkOk l (set_lastSecond v st)
  = (fst (fst (forEach_showMessage sinkOk l st)),
     set_lastSecond v (snd (fst (forEach_showMessage sinkOk l st))),
     snd (forEach_showMessage sinkOk l st)).
Proof.
  revert st. induction l as [|c l IH]; intros st; simpl; [reflexivity|].
  rewrite showMessage_lastSecond.
  destruct (showMessage sinkOk c st) as [[[|] s1] e1]; simpl; [|reflexivity].
  rewrite IH. destruct (forEach_showMessage sinkOk l s1) as [[o2 s2] e2]. reflexivity.
Qed.

Lemma missedLoop_lastSecond (v : Z) (cs : list Comment) (count : nat) (sec : Z) (st : State) :
  missedLoop sinkOk count sec cs (set_lastSecond v st)
  = (fst (fst (missedLoop sinkOk count sec cs st)),
     set_lastSecond v (snd (fst (missedLoop sinkOk count sec cs st))),
     snd (missedLoop sinkOk count sec cs st)).
Proof.
  revert sec st. induction count as [|k IH]; intros sec st; simpl; [reflexivity|].
  change (missedComments sec cs (set_lastSecond v st)) with (missedComments sec cs st).
  rewrite forEach_showMessage_lastSecond.
  destruct (forEach_showMessage sinkOk (missedComments sec cs st) st) as [[[|] s1] e1]; simpl;
    [|reflexivity].
  rewrite IH. destruct (missedLoop sinkOk k (sec + 1) cs s1) as [[o2 s2] e2]. reflexivity.
Qed.

Lemma showMissedMessages_lastSecond (v from to : Z) (st : State) :
  showMissedMessages sinkOk from to (set_lastSecond v st)
  = (set_lastSecond v (fst (showMissedMessages sinkOk from to st)),
     snd (showMissedMessages sinkOk from to st)).
Proof.
  unfold showMissedMessages. change (chat_comments (set_lastSecond v st)) with (chat_comments st).
  destruct (chat_comments st) as [cs|]; [|reflexivity].
  rewrite missedLoop_lastSecond.
  destruct (missedLoop sinkOk _ from cs st) as [[[|] s1] e1]; reflexivity.
Qed.

End Direction.

(** X19.  A small jump backfills the same seconds in both directions: the
    jump from second [p] to second [c] and the jump from [c] back to [p]
    append the same comments to the feed, in the same order, and mark the
    same ones.  Going back therefore reveals the comments of the second
    that is left and of those in between, not those of the second reached,
    which get timers. *)
Theorem small_jump_backfill_is_symmetric
    (sinkOk : Comment -> bool) (st : State) (p c : Z) :
  video st = true ->
  1 < Z.abs (c - p) <= CONSTANTS.SKIP_THRESHOLD ->
  let forth := fst (sampleTick sinkOk false (inject_Z c) (set_lastSecond p st)) in
  let back := fst (sampleTick sinkOk false (inject_Z p) (set_lastSecond c st)) in
  feed forth = feed back
  /\ shownMessages forth = shownMessages back
  /\ feed forth = feed (fst (showMissedMessages sinkOk (Z.min p c + 1) (Z.max p c) st)).
Proof.
  intros Hv [Hlo Hhi] forth back.
  assert (forall a b, 1 < Z.abs (b - a) <= CONSTANTS.SKIP_THRESHOLD ->
            let s := fst (sampleTick sinkOk false (inject_Z b) (set_lastSecond a st)) in
            feed s = feed (fst (showMissedMessages sinkOk (Z.min a b + 1) (Z.max a b) st))
            /\ shownMessages s
               = shownMessages (fst (showMissedMessages sinkOk (Z.min a b + 1) (Z.max a b) st)))
    as Hone.
  { intros a b [Hl Hh] s. unfold s, sampleTick, recover. simpl video. simpl lastSecond.
    rewrite Hv, Qfloor_Z. simpl negb; simpl orb; cbv iota.
    assert ((b =? a) = false) as -> by (apply Z.eqb_neq; lia).
    apply Z.ltb_ge in Hh. apply Z.ltb_lt in Hl. rewrite Hh, Hl.
    rewrite showMissedMessages_lastSecond.
    destruct (showMissedMessages sinkOk (Z.min a b + 1) (Z.max a b) st) as [s1 e1].
    cbn [fst snd].
    destruct (showCurrentSecondMessages_only_timers b
                (set_lastSecond b (set_lastSecond a s1))) as (T & HT & _).
    destruct (showCurrentSecondMessages _ _) as [s3 e3]; simpl in *. subst s3.
    split; reflexivity. }
  destruct (Hone p c (conj Hlo Hhi)) as [Hf1 Hs1].
  assert (1 < Z.abs (p - c) <= CONSTANTS.SKIP_THRESHOLD) as Hrev.
  { replace (p - c) with (- (c - p)) by lia. rewrite Z.abs_opp. split; assumption. }
  destruct (Hone c p Hrev) as [Hf2 Hs2].
  rewrite (Z.min_comm c p), (Z.max_comm c p) in Hf2, Hs2.
  unfold forth, back. rewrite Hf1, Hs1, Hf2, Hs2. repeat split; reflexivity.
Qed.

(** ** The further properties at concrete inputs *)

Lemma init_offset_precedence_witness :
  let st := set_config None (tracking [at_second 0 40] 0 50) in
  let s := mkStorage (StoredNumber (of_Z 30)) None in
  let response := FetchOk ({[ "abc"%string := of_Z 120 ]} : gmap string double) in
  config st = None
  /\ (getTimeOffset (fst (init_offsets "abc" response (Some s) st)) = Number (of_Z 120)
      /\ snd (init_offsets "abc" response (Some s) st) = Some (Number (of_Z 120)))
  /\ (getTimeOffset (fst (init_offsets "xyz" response (Some s) st)) = Number (of_Z 30)
      /\ snd (init_offsets "xyz" response (Some s) st) = None)
  /\ getTimeOffset (fst (init_offsets "constructor" response (Some s) st))
     = Builtin "constructor".
Proof.
  intros st s response. split; [reflexivity|].
  split; [exact (proj1 (init_offset_precedence "abc" response s st eq_refl))|].
  split; [exact (proj1 (init_offset_precedence "xyz" response s st eq_refl))|].
  exact (proj1 (proj1 (init_offset_precedence "constructor" response s st eq_refl))).
Defined.

Lemma heuristic_offset_from_last_comment_witness :
  let duration := decimal 3725281 1000 in
  let c := mkComment 1 (decimal 125281 1000) in
  let st := set_video true (Some duration) (set_config None (tracking [at_second 0 10; c] 0 (-1))) in
  let s := mkStorage NotStored None in
  heuristic_applies (videoDuration st)
    (content_offset_seconds <$> (chat_comments st ≫= last)) 3600
  /\ getTimeOffset st = Number (of_Z 3600)
  /\ getTimeOffset (initConfig (Some s) st) = Number (of_Z 3600).
Proof.
  intros duration c st s.
  assert (heuristic_applies (videoDuration st)
            (content_offset_seconds <$> (chat_comments st ≫= last)) 3600) as H.
  { exists duration, (content_offset_seconds c).
    split; [reflexivity|]. split; [reflexivity|]. split; [reflexivity|].
    split; [reflexivity|]. split; [vm_compute; reflexivity | lia]. }
  split; [exact H|].
  destruct (heuristic_offset_from_last_comment st s 3600 (or_introl H)) as [H1 H2].
  split; [apply H1; left; reflexivity | apply H2; left; reflexivity].
Defined.

Lemma pending_timers_are_due_within_a_second_witness :
  let a := at_second 0 10 in
  let b := at_second 1 10 in
  let st := tracking [a; b] 0 9 in
  let evs := [Sample false (inject_Z 10); Advance (inject_Z 400); Cleanup;
              Advance (inject_Z 50)] in
  timers_within_a_second st
  /\ timers (fst (run alwaysOk evs st)) = [((0 + staggerDelay 1 2)%Q, b)]
  /\ timers_within_a_second (fst (run alwaysOk evs st)).
Proof.
  intros a b st evs.
  assert (timers_within_a_second st) as H by constructor.
  assert (Forall (fun ev => forall dt, ev = Advance dt -> (0 <= dt)%Q) evs) as Hevs.
  { repeat constructor; intros dt E; try discriminate E; injection E as <-;
      unfold Qle; simpl; lia. }
  split; [exact H|]. split; [vm_compute; reflexivity|].
  exact (proj1 (pending_timers_are_due_within_a_second alwaysOk evs st Hevs H)).
Defined.

Lemma staggered_reveals_finish_within_the_second_witness :
  let a := at_second 0 10 in
  let b := at_second 1 10 in
  let st := tracking [a; b] 0 9 in
  chat_comments st = Some [a; b]
  /\ messageList st = Some (mkMessageList true [])
  /\ timers st = []
  /\ feed (fst (advance alwaysOk (inject_Z 1000) (fst (showCurrentSecondMessages 10 st))))
     = [a; b].
Proof.
  intros a b st. do 3 (split; [reflexivity|]).
  exact (proj2 (proj2 (proj2 (staggered_reveals_finish_within_the_second alwaysOk st 10
                                [a; b] (mkMessageList true []) eq_refl eq_refl eq_refl)))).
Defined.

Lemma large_jump_backfill_position_witness :
  let x := at_second 0 1 in
  let c := at_second 1 2 in
  let y := at_second 2 300 in
  let st := tracking [x; c; y] 0 (-1) in
  chat_comments st = Some ([x] ++ c :: [y])
  /\ lt_second (adjusted st c) 100 = true
  /\ (forall z, In z [y] -> lt_second (adjusted st z) 100 = false)
  /\ NoDup (map ref ([x] ++ c :: [y]))
  /\ messageList st = Some (mkMessageList true [])
  /\ (forall z, alwaysOk z = true)
  /\ findIndex (fun z => lt_second (adjusted st z) 100) (rev ([x] ++ c :: [y])) = Some 1%nat
  /\ feed (fst (showPreviousMessages alwaysOk 100 st)) = [x].
Proof.
  intros x c y st.
  assert (forall z, In z [y] -> lt_second (adjusted st z) 100 = false) as Hafter.
  { intros z [<- | []]. reflexivity. }
  assert (NoDup (map ref ([x] ++ c :: [y]))) as Hnd.
  { apply (bool_decide_unpack _). vm_compute. exact I. }
  split; [reflexivity|]. split; [reflexivity|]. split; [exact Hafter|].
  split; [exact Hnd|]. split; [reflexivity|]. split; [reflexivity|].
  destruct (large_jump_backfill_position alwaysOk 100 st [x] [y] c (mkMessageList true [])
              eq_refl eq_refl Hafter Hnd eq_refl (fun _ => eq_refl)) as (H1 & H2 & _).
  split; [exact H1 | exact H2].
Defined.

Lemma large_jump_forgets_history_witness :
  let st := tracking [at_second 0 1; at_second 1 300] 0 (-1) in
  let seen := set_shownMessages {[5%nat]}
                (set_messageList (Some (mkMessageList true [at_second 5 7])) st) in
  video st = true
  /\ messageList st = Some (mkMessageList true [])
  /\ CONSTANTS.SKIP_THRESHOLD < Z.abs (Qfloor (inject_Z 100) - lastSecond st)
  /\ sampleTick alwaysOk false (inject_Z 100) seen = sampleTick alwaysOk false (inject_Z 100) st.
Proof.
  intros st seen.
  assert (CONSTANTS.SKIP_THRESHOLD < Z.abs (Qfloor (inject_Z 100) - lastSecond st)) as Hj
    by reflexivity.
  split; [reflexivity|]. split; [reflexivity|]. split; [exact Hj|].
  exact (large_jump_forgets_history alwaysOk (inject_Z 100) st (mkMessageList true [])
           {[5%nat]} [at_second 5 7] eq_refl eq_refl Hj).
Defined.

Lemma ignored_samples_change_nothing_witness :
  let st := tracking [at_second 0 10] 0 9 in
  let evs := [Sample true (inject_Z 50); Sample false (19 # 2)] in
  Forall (ignored st) evs
  /\ run alwaysOk evs st = (st, []).
Proof.
  intros st evs.
  assert (Forall (ignored st) evs) as H.
  { constructor; [left; reflexivity|]. constructor; [right; reflexivity | constructor]. }
  split; [exact H|]. exact (ignored_samples_change_nothing alwaysOk evs st H).
Defined.

Lemma feed_stays_marked_witness :
  let e0 := at_second 0 10 in
  let e1 := at_second 1 10 in
  let st := fst (sampleTick alwaysOk false (inject_Z 10) (tracking [e0; e1] 0 9)) in
  feed_marked st
  /\ feed_marked (fst (step alwaysOk (Advance (inject_Z 500)) st)).
Proof.
  intros e0 e1 st.
  assert (NoDup (map ref [e0; e1])) as Hnd.
  { apply (bool_decide_unpack _). vm_compute. exact I. }
  assert (feed_marked st) as Hinv.
  { split.
    - intros ml H _. vm_compute in H. injection H as <-. simpl.
      split; [constructor | intros ? []].
    - intros cs H. vm_compute in H. injection H as <-. exact Hnd. }
  split; [exact Hinv|].
  apply (feed_stays_marked alwaysOk (Advance (inject_Z 500)) st Hinv).
  - intros d cs H. discriminate H.
  - intros dt H. injection H as <-. split.
    + exact Hnd.
    + intros c [<- | [<- | []]]; reflexivity.
Defined.

Lemma manual_link_round_trip_witness :
  let links := mkLinks (Some {[ "yt1"%string := "builtin"%string ]}) false None in
  let s := mkStorage StoredNull None in
  let st := tracking [at_second 0 10] 0 9 in
  let linked := linkTwitchVOD (Some "yt1"%string) (Some "v9"%string) links (Some s) in
  truthy_string (Some "yt1"%string) = true
  /\ truthy_string (Some "v9"%string) = true
  /\ snd linked = Success "Chat linked successfully"
  /\ ttvLink (fst (fst (fst (removeManualLink (Some "yt1"%string) (fst (fst linked))
                              (snd (fst linked)) st))))
     = Some (delete "yt1"%string (default ∅ (ttvLink links))).
Proof.
  intros links s st linked. split; [reflexivity|]. split; [reflexivity|].
  destruct (manual_link_round_trip "yt1" "v9" links s st "" ∅ eq_refl eq_refl)
    as (H1 & _ & _ & _ & _ & _ & _ & H2 & _).
  split; [exact H1 | exact H2].
Defined.

Lemma linking_the_pending_video_ends_manual_link_mode_witness :
  let links := mkLinks None true (Some "yt1"%string) in
  let s := mkStorage StoredNull None in
  isManualLinkMode links = true
  /\ pendingVideoId links = Some "yt1"%string
  /\ truthy_string (Some "yt1"%string) = true
  /\ truthy_string (Some "v9"%string) = true
  /\ snd (linkTwitchVOD None (Some "v9"%string) links (Some s))
     = Success "Chat linked successfully".
Proof.
  intros links s. do 4 (split; [reflexivity|]).
  exact (proj1 (proj2 (linking_the_pending_video_ends_manual_link_mode "yt1" "v9" links s
                         eq_refl eq_refl eq_refl eq_refl))).
Defined.

Lemma getVideoElement_settles_within_30_seconds_witness :
  (60 <= 60)%nat
  /\ match getVideoElement 60 (Nat.eqb 3) with
     | Some (Resolved k) =>
         (1 <= k <= 60)%nat /\ Nat.eqb 3 k = true
         /\ (forall j, (1 <= j < k)%nat -> Nat.eqb 3 j = false)
         /\ VIDEO_CHECK_INTERVAL <= Z.of_nat k * VIDEO_CHECK_INTERVAL <= 30000
     | Some (Rejected k) =>
         (forall j, (1 <= j <= 60)%nat -> Nat.eqb 3 j = false)
         /\ Z.of_nat k * VIDEO_CHECK_INTERVAL = 30000
     | None => False
     end.
Proof.
  split; [lia|].
  exact (getVideoElement_settles_within_30_seconds 60 (Nat.eqb 3) (le_n 60)).
Defined.

Lemma waitForChatContainer_creates_at_most_once_witness :
  let page := fun k : nat => mkPageView (Nat.eqb 4 k) false in
  (30 <= 30)%nat
  /\ snd (waitForChatContainer 30 page) = [1%nat].
Proof.
  intros page. split; [lia|].
  exact (proj1 (waitForChatContainer_creates_at_most_once 30 page (le_n 30))).
Defined.

Lemma failed_render_is_not_retried_witness :
  let c := at_second 0 10 in
  let st := tracking [c] 0 9 in
  messageList st = Some (mkMessageList true [])
  /\ failsOn 0 c = false
  /\ has (snd (fst (showMessage (failsOn 0) c st))) c = true.
Proof.
  intros c st. split; [reflexivity|]. split; [reflexivity|].
  exact (proj1 (proj2 (proj2 (failed_render_is_not_retried (failsOn 0) c st
                                (mkMessageList true []) eq_refl eq_refl)))).
Defined.

Lemma small_jump_backfill_is_symmetric_witness :
  let st := tracking [at_second 0 11; at_second 1 13] 0 0 in
  video st = true
  /\ 1 < Z.abs (13 - 10) <= CONSTANTS.SKIP_THRESHOLD
  /\ feed (fst (sampleTick alwaysOk false (inject_Z 13) (set_lastSecond 10 st)))
     = feed (fst (sampleTick alwaysOk false (inject_Z 10) (set_lastSecond 13 st))).
Proof.
  intros st.
  assert (1 < Z.abs (13 - 10) <= CONSTANTS.SKIP_THRESHOLD) as Hj.
  { split; [reflexivity | discriminate]. }
  split; [reflexivity|]. split; [exact Hj|].
  exact (proj1 (small_jump_backfill_is_symmetric alwaysOk st 10 13 eq_refl Hj)).
Defined.
